(** * Resumable GraphQL subscriptions: the query introspector and the
      subscription registry

    A shallow embedding of [src/lib/graphql-tools.ts] (the introspector:
    [extractSubscriptionQueryInfo], [extractSubscriptionResultInfo] and their
    helpers) and of [src/lib/subscriptions.ts] (the registry: the class
    [StatefulSubscriptions] and [buildRecoveryQuery]), in the revision that
    knows aliases, variables, key injection and fixed arguments, followed by
    the properties of the registry.

    What the program takes from its platform is kept abstract: the GraphQL
    parser ([parse] of the graphql package), the number type with [parseInt]
    and [parseFloat], [JSON.stringify], and the properties of built-in
    objects other than Object.prototype.  Apart from the parser, whose
    syntax error is modelled, the operations of the platform are taken to
    return.

    - An object is the table of its own enumerable properties, in
      enumeration order (insertion order, for names that are not array
      indices), together with its prototype: Object.prototype for an
      object literal and for what JSON.parse builds, another value once the
      [__proto__] setter has replaced it.  A read walks the prototype
      chain and a write consults it, as the language has it; Object.prototype
      is modelled with the members the language gives it.
    - The result payload handed to [updateSubscriptionState] lives in an
      explicit store, because the method writes into it.
    - Arguments are taken at their declared types: [variables] is an object
      or undefined, ids and types are strings or undefined.  The objects the
      caller passes (the variables, the payloads and their data objects, the
      fixed arguments) have Object.prototype as their prototype, as what
      JSON.parse builds has.
    - A method that can throw returns a [Completion].  The logger and the
      transport are collaborators and do not throw. *)

From Stdlib Require Import String Ascii List ZArith Bool Lia DecimalString.
From stdpp Require Import gmap strings list fin_maps.
Import ListNotations.

Set Warnings "-register-all".
Open Scope string_scope.
Open Scope list_scope.

(** ** Abrupt completions *)

(** The errors the modelled code can raise or pass on. *)
Inductive JsError : Type :=
  | GraphQLError                                  (* syntax error thrown by [parse] *)
  | TypeError                                     (* property read on undefined or null *)
  | RangeError                                    (* call stack exhausted *)
  | Error (message : string) (cause : JsError).   (* new Error(message, { cause }) *)

(** How a call ends: it returns, or it throws. *)
Inductive Completion (A : Type) : Type :=
  | Normal (a : A)
  | Abrupt (e : JsError).
Arguments Normal {A} a.
Arguments Abrupt {A} e.

#[global] Instance Completion_ret : MRet Completion := fun _ a => Normal a.
#[global] Instance Completion_bind : MBind Completion :=
  fun _ _ k c => match c with Normal a => k a | Abrupt e => Abrupt e end.

(** [try { c } catch (error) { throw h(error) }] *)
Definition rethrow {A} (h : JsError -> JsError) (c : Completion A) : Completion A :=
  match c with Normal a => Normal a | Abrupt e => Abrupt (h e) end.

(** ** Insertion-ordered tables

    The own properties of a JavaScript object and the entries of a [Map]
    are both kept in insertion order, with one entry per key: writing an
    existing key replaces the value where it stands, writing a new key
    appends. *)
Section Table.
Context {V : Type}.

Fixpoint tbl_get (k : string) (t : list (string * V)) : option V :=
  match t with
  | [] => None
  | (k', v) :: t' => if String.eqb k k' then Some v else tbl_get k t'
  end.

Definition tbl_has (k : string) (t : list (string * V)) : bool :=
  match tbl_get k t with Some _ => true | None => false end.

Fixpoint tbl_set (k : string) (v : V) (t : list (string * V)) : list (string * V) :=
  match t with
  | [] => [(k, v)]
  | (k', v') :: t' =>
      if String.eqb k k' then (k, v) :: t' else (k', v') :: tbl_set k v t'
  end.

Definition tbl_delete (k : string) (t : list (string * V)) : list (string * V) :=
  List.filter (fun e => negb (String.eqb k (fst e))) t.

Definition tbl_keys (t : list (string * V)) : list string := List.map fst t.
Definition tbl_values (t : list (string * V)) : list V := List.map snd t.
End Table.

(** [a || b] on optional strings: the empty string is falsy like undefined. *)
Definition truthy_string (o : option string) : option string :=
  match o with
  | Some s => if String.eqb s "" then None else Some s
  | None => None
  end.

Definition or_string (o : option string) (d : string) : string :=
  match truthy_string o with Some s => s | None => d end.

(** [array.includes(x)] on an array of strings. *)
Definition includes (l : list string) (x : string) : bool :=
  existsb (String.eqb x) l.

(** ** The GraphQL syntax tree, as far as the introspector reads it *)

Inductive ValueNode : Type :=
  | IntValue (value : string)
  | FloatValue (value : string)
  | StringValue (value : string)
  | BooleanValue (value : bool)
  | NullValue
  | EnumValue (value : string)
  | ListValue (values : list ValueNode)
  | ObjectValue (fields : list (string * ValueNode))   (* ObjectField: name, value *)
  | VariableNode (name : string).                      (* kind 'Variable' *)

(** ArgumentNode: name, value. *)
Definition ArgumentNode : Type := (string * ValueNode)%type.

Inductive SelectionNode : Type :=
  | Field (alias : option string) (name : string) (arguments : list ArgumentNode)
          (selectionSet : option (list SelectionNode))
  | FragmentSpread (name : string)
  | InlineFragment (selectionSet : list SelectionNode).

(** SelectionSetNode: its selections. *)
Definition SelectionSetNode : Type := list SelectionNode.

Inductive OperationType : Type := query_op | mutation_op | subscription_op.

Inductive DefinitionNode : Type :=
  | OperationDefinition (operation : OperationType) (selectionSet : SelectionSetNode)
  | FragmentDefinition (name : string) (selectionSet : SelectionSetNode)
  | OtherDefinition.   (* type-system definitions and extensions *)

(** DocumentNode: its definitions. *)
Definition DocumentNode : Type := list DefinitionNode.

Definition is_subscription_operation (def : DefinitionNode) : bool :=
  match def with
  | OperationDefinition subscription_op _ => true
  | _ => false
  end.

Definition is_fragment_definition (def : DefinitionNode) : bool :=
  match def with FragmentDefinition _ _ => true | _ => false end.

Definition fragment_named (fragmentName : string) (def : DefinitionNode) : bool :=
  match def with
  | FragmentDefinition n _ => String.eqb n fragmentName
  | _ => false
  end.

(** Helper function to extract fields from a selection set
    (graphql-tools.ts, [extractFields]).  The recursion through fragment
    definitions need not end (a fragment may spread itself); [depth] is the
    number of nested calls the stack still allows, and running out of it is
    the RangeError of the runtime. *)
Fixpoint extractFields (depth : nat) (selectionSet : option SelectionSetNode)
    (fragmentDefinitions : list DefinitionNode) : Completion (list string) :=
  match depth with
  | O => Abrupt RangeError
  | S depth' =>
      match selectionSet with
      | None => Normal []
      | Some selections =>
          fold_left
            (fun acc selection =>
               fields ← acc;
               match selection with
               | Field _ name _ nested =>
                   if String.eqb name "__typename" then Normal fields
                   else match nested with
                        | None => Normal (fields ++ [name])
                        | Some _ =>
                            nestedFields ← extractFields depth' nested fragmentDefinitions;
                            Normal (fields ++ nestedFields)
                        end
               | FragmentSpread fragmentName =>
                   match List.find (fragment_named fragmentName) fragmentDefinitions with
                   | Some (FragmentDefinition _ fragmentSelections) =>
                       fragmentFields ←
                         extractFields depth' (Some fragmentSelections) fragmentDefinitions;
                       Normal (fields ++ fragmentFields)
                   | _ => Normal fields
                   end
               | InlineFragment inner =>
                   fragmentFields ← extractFields depth' (Some inner) fragmentDefinitions;
                   Normal (fields ++ fragmentFields)
               end)
            selections (Normal [])
      end
  end.

(** What the registry hands to its logger: the level, the message and, for
    errors, the error caught.  The calls are recorded for [addSubscription],
    whose error path ends in one; the debug calls that open the other methods
    touch no state and are left out. *)
Inductive LogRecord : Type :=
  | log_error (err : JsError) (message : string)
  | log_debug (message : string).

Section Registry.

(** ** What the platform provides *)

(** JavaScript numbers, with the two conversions the introspector calls and
    their ToBoolean (false on zero and NaN). *)
Variable JsNumber : Type.
Variable parseInt : string -> JsNumber.       (* parseInt(text, 10) *)
Variable parseFloat : string -> JsNumber.
Variable number_truthy : JsNumber -> bool.

(** [parse] of the graphql package; [None] when it throws a syntax error. *)
Variable parse : string -> option DocumentNode.

(** The call depth the runtime allows to [extractFields]. *)
Variable stackDepth : nat.

(** ** Values *)

(** [JObj] is an object whose prototype is Object.prototype, given by its
    own enumerable properties: an object literal, an object built by
    JSON.parse.  [JObjP] is such an object after its prototype was replaced,
    by null or by an object.  [JBuiltin] is a built-in object of the
    platform, a function or a prototype object, under its well-known
    name. *)
Inductive JsValue : Type :=
  | JUndefined
  | JNull
  | JBool (b : bool)
  | JNum (n : JsNumber)
  | JStr (s : string)
  | JArr (elements : list JsValue)
  | JObj (properties : list (string * JsValue))
  | JObjP (prototype : JsValue) (properties : list (string * JsValue))
  | JBuiltin (name : string).

(** Record<string, any>: the own properties of an object whose prototype
    is Object.prototype. *)
Definition JsObject : Type := list (string * JsValue).

Definition ToBoolean (v : JsValue) : bool :=
  match v with
  | JUndefined | JNull => false
  | JBool b => b
  | JNum n => number_truthy n
  | JStr s => negb (String.eqb s "")
  | JArr _ | JObj _ | JObjP _ _ | JBuiltin _ => true
  end.

Definition is_undefined (v : JsValue) : bool :=
  match v with JUndefined => true | _ => false end.

Definition is_nullish (v : JsValue) : bool :=
  match v with JUndefined | JNull => true | _ => false end.

(** [JSON.stringify(v)] as a text: what a template literal interpolates
    and what [send] receives. *)
Variable JSON_stringify : JsValue -> string.

(** ** Properties and prototypes *)

(** The properties of the built-in objects other than Object.prototype
    are the platform's.  [builtin_get b k receiver] is what a read of [k]
    gives once it has reached [b]: an array (below its indices), a
    primitive (through its wrapper) or a built-in object.
    [builtin_set b k v receiver] is the receiver after a write of [k] that
    has reached [b] on the prototype chain.  [string_entries s] is the own
    enumerable properties of a string, its code units under their
    indices. *)
Variable builtin_get : JsValue -> string -> JsValue -> JsValue.
Variable builtin_set : JsValue -> string -> JsValue -> JsValue -> JsValue.
Variable string_entries : string -> list (string * JsValue).

(** The own enumerable properties of an array: its elements under their
    indices, written in decimal. *)
Definition index_name (i : nat) : string := NilZero.string_of_uint (Nat.to_uint i).

Fixpoint array_entries_from (i : nat) (elements : list JsValue)
    : list (string * JsValue) :=
  match elements with
  | [] => []
  | e :: rest => (index_name i, e) :: array_entries_from (S i) rest
  end.

Definition array_entries (elements : list JsValue) : list (string * JsValue) :=
  array_entries_from 0 elements.

(** What [Object.keys] and a spread see. *)
Definition own_entries (v : JsValue) : JsObject :=
  match v with
  | JObj properties | JObjP _ properties => properties
  | JArr elements => array_entries elements
  | JStr s => string_entries s
  | JUndefined | JNull | JBool _ | JNum _ | JBuiltin _ => []
  end.

(** Object.prototype: the function-valued members, [constructor], and the
    accessor [__proto__]. *)
Definition Object_prototype_methods : list string :=
  ["__defineGetter__"; "__defineSetter__"; "hasOwnProperty"; "__lookupGetter__";
   "__lookupSetter__"; "isPrototypeOf"; "propertyIsEnumerable"; "toString";
   "valueOf"; "toLocaleString"].

Definition Object_prototype_has (k : string) : bool :=
  String.eqb k "__proto__" || String.eqb k "constructor"
  || includes Object_prototype_methods k.

(** The prototype of a value that reads through Object.prototype. *)
Definition prototype_of (o : JsValue) : JsValue :=
  match o with
  | JObj _ => JBuiltin "Object.prototype"
  | JObjP prototype _ => prototype
  | JArr _ => JBuiltin "Array.prototype"
  | JStr _ => JBuiltin "String.prototype"
  | JNum _ => JBuiltin "Number.prototype"
  | JBool _ => JBuiltin "Boolean.prototype"
  | JBuiltin _ | JUndefined | JNull => JNull   (* Object.prototype itself has none *)
  end.

(** A read that has reached Object.prototype. *)
Definition Object_prototype_get (k : string) (receiver : JsValue) : JsValue :=
  if String.eqb k "__proto__" then prototype_of receiver
  else if String.eqb k "constructor" then JBuiltin "Object"
  else if includes Object_prototype_methods k then JBuiltin ("Object.prototype." +:+ k)
  else JUndefined.

(** The read of [k] along the prototype chain, from [o] on. *)
Fixpoint chain_get (o : JsValue) (k : string) (receiver : JsValue) : JsValue :=
  match o with
  | JObj properties =>
      match tbl_get k properties with
      | Some v => v
      | None => Object_prototype_get k receiver
      end
  | JObjP prototype properties =>
      match tbl_get k properties with
      | Some v => v
      | None => chain_get prototype k receiver
      end
  | JArr elements =>
      match tbl_get k (array_entries elements) with
      | Some v => v
      | None => builtin_get o k receiver
      end
  | JBuiltin name =>
      if String.eqb name "Object.prototype" then Object_prototype_get k receiver
      else builtin_get o k receiver
  | JBool _ | JNum _ | JStr _ => builtin_get o k receiver
  | JUndefined | JNull => JUndefined   (* the chain ends at null *)
  end.

(** [v[k]]: a TypeError on undefined and null. *)
Definition get_property (v : JsValue) (k : string) : Completion JsValue :=
  match v with
  | JUndefined | JNull => Abrupt TypeError
  | _ => Normal (chain_get v k v)
  end.

(** [v?.[k]] *)
Definition optional_get (v : JsValue) (k : string) : JsValue :=
  match v with
  | JUndefined | JNull => JUndefined
  | _ => chain_get v k v
  end.

(** [obj[k]] for an object whose prototype is Object.prototype. *)
Definition obj_get (k : string) (o : JsObject) : JsValue := chain_get (JObj o) k (JObj o).

(** [k in obj] for such an object. *)
Definition has_property (k : string) (o : JsObject) : bool :=
  tbl_has k o || Object_prototype_has k.

(** The [__proto__] setter: an object or null becomes the prototype,
    anything else is ignored. *)
Definition set_prototype (o v : JsValue) : JsValue :=
  match o with
  | JObj properties | JObjP _ properties =>
      match v with
      | JNull | JArr _ | JObj _ | JObjP _ _ | JBuiltin _ => JObjP v properties
      | JUndefined | JBool _ | JNum _ | JStr _ => o
      end
  | _ => o
  end.

(** The write of an own data property. *)
Definition define_own (o : JsValue) (k : string) (v : JsValue) : JsValue :=
  match o with
  | JObj properties => JObj (tbl_set k v properties)
  | JObjP prototype properties => JObjP prototype (tbl_set k v properties)
  | _ => o
  end.

(** A write that has reached Object.prototype: [__proto__] has a
    setter, the other members are writable and a write defines an own
    property that shadows them. *)
Definition Object_prototype_set (k : string) (v receiver : JsValue) : JsValue :=
  if String.eqb k "__proto__" then set_prototype receiver v else define_own receiver k v.

(** The receiver after a write of [k] that consults the chain from [o]
    on: a data property found on the way is shadowed by an own property of
    the receiver. *)
Fixpoint chain_set (o : JsValue) (k : string) (v receiver : JsValue) : JsValue :=
  match o with
  | JObj properties =>
      if tbl_has k properties then define_own receiver k v
      else Object_prototype_set k v receiver
  | JObjP prototype properties =>
      if tbl_has k properties then define_own receiver k v
      else chain_set prototype k v receiver
  | JArr elements =>
      if tbl_has k (array_entries elements) then define_own receiver k v
      else builtin_set o k v receiver
  | JBuiltin name =>
      if String.eqb name "Object.prototype" then Object_prototype_set k v receiver
      else builtin_set o k v receiver
  | JNull => define_own receiver k v   (* no setter on the chain *)
  | JUndefined | JBool _ | JNum _ | JStr _ => receiver
  end.

(** [o[k] = v] on an object the program builds. *)
Definition assign (o : JsValue) (k : string) (v : JsValue) : JsValue := chain_set o k v o.

(** ** The introspector (graphql-tools.ts) *)

(** Get the value from the variables object *)
Definition extractVariable (name : string) (variables : JsObject) : JsValue :=
  if negb (is_undefined (obj_get name variables)) then obj_get name variables else JNull.

(** Helper function to extract a value from an argument.  The object case
    inlines the loop of [extractObjectArguments], which calls back here. *)
Fixpoint extractArgumentValue (value : ValueNode) (variables : JsObject) : JsValue :=
  match value with
  | IntValue text => JNum (parseInt text)
  | FloatValue text => JNum (parseFloat text)
  | StringValue text => JStr text
  | BooleanValue b => JBool b
  | NullValue => JNull
  | ListValue values => JArr (List.map (fun val => extractArgumentValue val variables) values)
  | ObjectValue fields =>
      fold_left
        (fun obj field =>
           assign obj (fst field) (extractArgumentValue (snd field) variables))
        fields (JObj [])
  | VariableNode name => extractVariable name variables
  | EnumValue _ => JNull   (* default: *)
  end.

Definition extractObjectArguments (fields : list (string * ValueNode))
    (variables : JsObject) : JsValue :=
  fold_left
    (fun obj field => assign obj (fst field) (extractArgumentValue (snd field) variables))
    fields (JObj []).

(** Helper function to extract arguments from field arguments *)
Definition extractArguments (args : list ArgumentNode) (variables : JsObject) : JsValue :=
  fold_left
    (fun result arg => assign result (fst arg) (extractArgumentValue (snd arg) variables))
    args (JObj []).

Record SubscriptionInfo : Type := {
  info_name : string;
  info_fields : list string;
  info_alias : option string;
  info_params : JsValue
}.

(** The body of the [try] block, after [parse] has returned. *)
Definition querySubscriptionInfo (document : DocumentNode) (variables : option JsObject)
    : Completion (option SubscriptionInfo) :=
  match List.find is_subscription_operation document with
  | Some (OperationDefinition _ selections) =>
      (* selectionSet.selections[0] as FieldNode *)
      match selections with
      | [] => Abrupt TypeError
      | Field alias subscriptionName arguments selectionSet :: _ =>
          let params :=
            extractArguments arguments (match variables with Some v => v | None => [] end) in
          let fragmentDefinitions := List.filter is_fragment_definition document in
          fields ← extractFields stackDepth selectionSet fragmentDefinitions;
          Normal (Some {| info_name := subscriptionName; info_fields := fields;
                          info_alias := alias; info_params := params |})
      | FragmentSpread spreadName :: _ =>
          (* no alias, no arguments, no selection set on this node *)
          let params :=
            extractArguments [] (match variables with Some v => v | None => [] end) in
          let fragmentDefinitions := List.filter is_fragment_definition document in
          fields ← extractFields stackDepth None fragmentDefinitions;
          Normal (Some {| info_name := spreadName; info_fields := fields;
                          info_alias := None; info_params := params |})
      | InlineFragment _ :: _ => Abrupt TypeError   (* subscriptionField.name is undefined *)
      end
  | _ => Normal None
  end.

Definition extractSubscriptionQueryInfo (query : string) (variables : option JsObject)
    : Completion (option SubscriptionInfo) :=
  rethrow (Error "Error parsing GraphQL query")
    match parse query with
    | None => Abrupt GraphQLError
    | Some document => querySubscriptionInfo document variables
    end.

(** ** The caller's store

    [updateSubscriptionState] receives the result payload by reference and
    assigns to one of its properties, so the payload objects and the data
    objects they point to are cells of a store.  What a data object holds
    under its fields is only read and copied, never written, and is kept as
    a value. *)
Definition loc : Type := nat.

(** What a payload holds under a root key: a data object of the store
    (an object whose prototype is Object.prototype), null, undefined, or
    any other value (a boolean, number or string, an array), which the
    method only reads. *)
Inductive RootValue : Type :=
  | RObject (l : loc)
  | RNull
  | RUndefined
  | RValue (v : JsValue).

Record Store : Type := {
  payloads : list (list (string * RootValue));
  objects : list JsObject
}.

Record ResultInfo : Type := {
  res_name : option string;
  res_data : RootValue;
  res_resultName : option string
}.

(** Extracts subscription information from a GraphQL response result:
    the first key of the result object, and what it holds. *)
Definition extractSubscriptionResultInfo (heap : Store) (result : loc)
    : Completion ResultInfo :=
  match payloads heap !! result with
  | None => Abrupt TypeError   (* Object.keys of something that is no object *)
  | Some properties =>
      let resultName := head (tbl_keys properties) in
      let data :=
        match resultName with
        | Some k => match tbl_get k properties with Some d => d | None => RUndefined end
        | None => RUndefined
        end in
      Normal {| res_name := resultName; res_data := data; res_resultName := resultName |}
  end.

(** [data[key]]: a TypeError on null and undefined, else the read along
    the prototype chain. *)
Definition read_property (heap : Store) (data : RootValue) (key : string)
    : Completion JsValue :=
  match data with
  | RObject l =>
      match objects heap !! l with
      | Some o => Normal (obj_get key o)
      | None => Abrupt TypeError
      end
  | RNull | RUndefined => Abrupt TypeError
  | RValue v => get_property v key
  end.

(** [{ ...data }]: the own enumerable properties, in order. *)
Definition spread (heap : Store) (data : RootValue) : JsObject :=
  match data with
  | RObject l => match objects heap !! l with Some o => o | None => [] end
  | RNull | RUndefined => []
  | RValue v => own_entries v
  end.

(** ** The registry (subscriptions.ts) *)

Record SubscriptionOptions : Type := {
  opt_name : string;
  opt_key : string;
  opt_args : option JsObject
}.

Record Subscription : Type := {
  sub_options : SubscriptionOptions;
  sub_name : string;
  sub_fields : list string;
  sub_params : option JsValue;
  sub_lastValue : JsValue;
  sub_alias : option string;
  sub_injectedKey : bool;
  sub_id : option string;    (* websocket subscription id *)
  sub_type : string          (* websocket subscription type *)
}.

Record ClientState : Type := {
  init : JsValue;                                (* connection_init payload *)
  subscriptions : list (string * Subscription);  (* Map, iterated by restoreSubscriptions *)
  ids : gmap string string                       (* subscriptionId -> subscription name *)
}.

Record ConfigEntry : Type := {
  cfg_key : string;
  cfg_args : option JsObject
}.

Record StatefulSubscriptions : Type := {
  clients : gmap string ClientState;
  subscriptionsConfig : gmap string ConfigEntry
}.

(** Builds the subscription query for recovery *)
Definition buildRecoveryQuery (subscription : Subscription) : string :=
  (* If there's an alias, include it in the recovery query *)
  let aliasPrefix :=
    match truthy_string (sub_alias subscription) with
    | Some a => a +:+ ": "
    | None => ""
    end in
  (* Prepare args for the query, starting with the key if any *)
  let args :=
    if negb (is_nullish (sub_lastValue subscription))
    then [opt_key (sub_options subscription) +:+ ": "
            +:+ JSON_stringify (sub_lastValue subscription)]
    else [] in
  (* Add any fixed args from options if they exist *)
  let args :=
    match opt_args (sub_options subscription) with
    | Some fixed =>
        fold_left (fun args entry =>
                     args ++ [fst entry +:+ ": " +:+ JSON_stringify (snd entry)])
                  fixed args
    | None => args
    end in
  "subscription { " +:+ aliasPrefix +:+ opt_name (sub_options subscription)
    +:+ (if (0 <? length args)%nat then "(" +:+ String.concat ", " args +:+ ")" else "")
    +:+ " { " +:+ String.concat ", " (sub_fields subscription) +:+ " } }".

(** The constructor: store subscription configurations for easy access. *)
Definition new_StatefulSubscriptions (options : list SubscriptionOptions)
    : StatefulSubscriptions :=
  {| clients := ∅;
     subscriptionsConfig :=
       fold_left
         (fun config subscription =>
            <[opt_name subscription :=
                {| cfg_key := opt_key subscription; cfg_args := opt_args subscription |}]>
              config)
         options ∅ |}.

Definition createClientState : ClientState :=
  {| init := JUndefined; subscriptions := []; ids := ∅ |}.

Definition with_clients (this : StatefulSubscriptions) (cs : gmap string ClientState)
    : StatefulSubscriptions :=
  {| clients := cs; subscriptionsConfig := subscriptionsConfig this |}.

(** [let client = this.clients.get(clientId); if (!client) { ... set ... }]:
    the client state, and the registry that now holds it. *)
Definition obtain_client (this : StatefulSubscriptions) (clientId : string)
    : ClientState * StatefulSubscriptions :=
  match clients this !! clientId with
  | Some client => (client, this)
  | None =>
      (createClientState, with_clients this (<[clientId := createClientState]> (clients this)))
  end.

Definition addSubscriptionInit (this : StatefulSubscriptions) (clientId : string)
    (payload : JsValue) : StatefulSubscriptions :=
  let '(client, this) := obtain_client this clientId in
  with_clients this
    (<[clientId := {| init := payload; subscriptions := subscriptions client;
                      ids := ids client |}]> (clients this)).

(** [(variables && 'lastValue' in variables) ? variables.lastValue
      : s.params?.[config.key] || null] *)
Definition initialLastValue (variables : option JsObject) (params : JsValue)
    (key : string) : JsValue :=
  let fromParams :=
    if ToBoolean (optional_get params key) then optional_get params key else JNull in
  match variables with
  | Some vars =>
      if has_property "lastValue" vars then obj_get "lastValue" vars else fromParams
  | None => fromParams
  end.

(** The subscription object [addSubscription] builds once the descriptor
    is found: the key is pushed onto the fields when they lack it. *)
Definition newSubscription (s : SubscriptionInfo) (config : ConfigEntry)
    (variables : option JsObject) (subscriptionId subscriptionType : option string)
    : Subscription :=
  let keyIncluded := includes (info_fields s) (cfg_key config) in
  {| sub_options := {| opt_name := info_name s; opt_key := cfg_key config;
                       opt_args := cfg_args config |};
     sub_name := info_name s;
     sub_fields :=
       if keyIncluded then info_fields s else info_fields s ++ [cfg_key config];
     sub_params := Some (info_params s);
     sub_lastValue := initialLastValue variables (info_params s) (cfg_key config);
     sub_alias := truthy_string (info_alias s);
     sub_injectedKey := negb keyIncluded;
     sub_id := truthy_string subscriptionId;
     sub_type := or_string subscriptionType "start" |}.

Definition addSubscription (this : StatefulSubscriptions) (clientId query : string)
    (variables : option JsObject) (subscriptionId subscriptionType : option string)
    : Completion (StatefulSubscriptions * list LogRecord) :=
  let '(client, this) := obtain_client this clientId in
  match extractSubscriptionQueryInfo query variables with
  | Abrupt err => Normal (this, [log_error err "Error parsing GraphQL query"])
  | Normal None =>
      (* Skip if not a subscription query *)
      Normal (this, [])
  | Normal (Some s) =>
      (* use alias if available, otherwise use name *)
      let subscriptionName := or_string (info_alias s) (info_name s) in
      if tbl_has subscriptionName (subscriptions client) then Normal (this, [])
      else
        (* we use original name for config lookup, not alias *)
        match subscriptionsConfig this !! info_name s with
        | None => Normal (this, [])
        | Some config =>
            let logs :=
              if includes (info_fields s) (cfg_key config) then []
              else [log_debug "Injecting missing key field into subscription"] in
            let subscription :=
              newSubscription s config variables subscriptionId subscriptionType in
            let ids' :=
              match truthy_string subscriptionId with
              | Some i => <[i := subscriptionName]> (ids client)
              | None => ids client
              end in
            Normal
              (with_clients this
                 (<[clientId :=
                      {| init := init client;
                         subscriptions :=
                           tbl_set subscriptionName subscription (subscriptions client);
                         ids := ids' |}]> (clients this)),
               logs)
        end
  end.

Definition with_lastValue (subscription : Subscription) (v : JsValue) : Subscription :=
  {| sub_options := sub_options subscription; sub_name := sub_name subscription;
     sub_fields := sub_fields subscription; sub_params := sub_params subscription;
     sub_lastValue := v; sub_alias := sub_alias subscription;
     sub_injectedKey := sub_injectedKey subscription; sub_id := sub_id subscription;
     sub_type := sub_type subscription |}.

(** [result[resultName] = dataWithoutKey], with [dataWithoutKey] a new
    object of the store. *)
Definition install_copy (heap : Store) (result : loc) (resultName : string)
    (dataWithoutKey : JsObject) : Store :=
  let l := length (objects heap) in
  {| payloads :=
       match payloads heap !! result with
       | Some properties =>
           <[result := tbl_set resultName (RObject l) properties]> (payloads heap)
       | None => payloads heap
       end;
     objects := objects heap ++ [dataWithoutKey] |}.

Definition updateSubscriptionState (this : StatefulSubscriptions) (heap : Store)
    (clientId : string) (result : loc) : Completion (StatefulSubscriptions * Store) :=
  match clients this !! clientId with
  | None => Normal (this, heap)
  | Some client =>
      r ← extractSubscriptionResultInfo heap result;
      match res_resultName r with
      | None => Normal (this, heap)   (* no key: the map has no such subscription *)
      | Some resultName =>
          match tbl_get resultName (subscriptions client) with
          | None => Normal (this, heap)
          | Some subscription =>
              (* configuration by the original name, not the alias *)
              match subscriptionsConfig this !! sub_name subscription with
              | None => Normal (this, heap)
              | Some config =>
                  keyValue ← read_property heap (res_data r) (cfg_key config);
                  let this' :=
                    if negb (is_undefined keyValue)
                    then with_clients this
                           (<[clientId :=
                                {| init := init client;
                                   subscriptions :=
                                     tbl_set resultName (with_lastValue subscription keyValue)
                                       (subscriptions client);
                                   ids := ids client |}]> (clients this))
                    else this in
                  let heap' :=
                    if sub_injectedKey subscription && negb (is_undefined keyValue)
                    then install_copy heap result resultName
                           (tbl_delete (cfg_key config) (spread heap (res_data r)))
                    else heap in
                  Normal (this', heap')
              end
          end
      end
  end.

(** The texts passed to [target.send], in order. *)
Definition restoreSubscriptions (this : StatefulSubscriptions) (clientId : string)
    : list string :=
  match clients this !! clientId with
  | None => []
  | Some client =>
      fold_left
        (fun sent subscription =>
           sent ++
           [JSON_stringify
              (JObj [("id", match sub_id subscription with
                            | Some i => JStr i
                            | None => JUndefined
                            end);
                     ("type", JStr (sub_type subscription));
                     ("payload", JObj [("query", JStr (buildRecoveryQuery subscription))])])])
        (tbl_values (subscriptions client))
        [JSON_stringify (JObj [("type", JStr "connection_init"); ("payload", init client)])]
  end.

Definition removeSubscription (this : StatefulSubscriptions)
    (clientId subscriptionId : string) : StatefulSubscriptions :=
  if String.eqb subscriptionId "" then this
  else
    match clients this !! clientId with
    | None => this
    | Some client =>
        match truthy_string (ids client !! subscriptionId) with
        | None => this
        | Some subscriptionName =>
            with_clients this
              (<[clientId :=
                   {| init := init client;
                      subscriptions := tbl_delete subscriptionName (subscriptions client);
                      ids := delete subscriptionId (ids client) |}]> (clients this))
        end
    end.

Definition removeAllSubscriptions (this : StatefulSubscriptions) (clientId : string)
    : StatefulSubscriptions :=
  match clients this !! clientId with
  | None => this
  | Some client =>
      with_clients this
        (<[clientId := {| init := init client; subscriptions := []; ids := ∅ |}]>
           (clients this))
  end.

(** ** Histories of calls *)

Inductive Call : Type :=
  | CallAddSubscriptionInit (clientId : string) (payload : JsValue)
  | CallAddSubscription (clientId query : string) (variables : option JsObject)
      (subscriptionId subscriptionType : option string)
  | CallUpdateSubscriptionState (clientId : string) (heap : Store) (result : loc)
  | CallRestoreSubscriptions (clientId : string)
  | CallRemoveSubscription (clientId subscriptionId : string)
  | CallRemoveAllSubscriptions (clientId : string).

(** The registry after a call.  A call that throws does so before it has
    written anything. *)
Definition after (this : StatefulSubscriptions) (c : Call) : StatefulSubscriptions :=
  match c with
  | CallAddSubscriptionInit clientId payload => addSubscriptionInit this clientId payload
  | CallAddSubscription clientId query variables subscriptionId subscriptionType =>
      match addSubscription this clientId query variables subscriptionId subscriptionType with
      | Normal (this', _) => this'
      | Abrupt _ => this
      end
  | CallUpdateSubscriptionState clientId heap result =>
      match updateSubscriptionState this heap clientId result with
      | Normal (this', _) => this'
      | Abrupt _ => this
      end
  | CallRestoreSubscriptions _ => this
  | CallRemoveSubscription clientId subscriptionId =>
      removeSubscription this clientId subscriptionId
  | CallRemoveAllSubscriptions clientId => removeAllSubscriptions this clientId
  end.

Definition after_all (this : StatefulSubscriptions) (calls : list Call)
    : StatefulSubscriptions :=
  fold_left after calls this.

(** ** Vocabulary of the properties *)

(** The subscription a client tracks under an identity. *)
Definition tracked (this : StatefulSubscriptions) (clientId identity : string)
    : option Subscription :=
  match clients this !! clientId with
  | Some client => tbl_get identity (subscriptions client)
  | None => None
  end.

(** The state of a client, empty for a client the registry has not seen. *)
Definition client_state (this : StatefulSubscriptions) (clientId : string) : ClientState :=
  match clients this !! clientId with
  | Some client => client
  | None => createClientState
  end.

(** The recovery query as the specification words it, from the tracked
    subscription and its descriptor: alias prefix if an alias was
    recorded, root name, the argument list in parentheses if it is not
    empty (key argument first, unless the cursor is null or absent, then
    the fixed arguments in configured order), and the fields. *)
Definition recovery_query_spec (descriptor : ConfigEntry) (subscription : Subscription)
    : string :=
  let keyArgument :=
    match sub_lastValue subscription with
    | JUndefined | JNull => []
    | v => [cfg_key descriptor +:+ ": " +:+ JSON_stringify v]
    end in
  let fixedArguments :=
    match cfg_args descriptor with
    | Some fixed =>
        List.map (fun entry => fst entry +:+ ": " +:+ JSON_stringify (snd entry)) fixed
    | None => []
    end in
  let arguments := keyArgument ++ fixedArguments in
  "subscription { "
    +:+ match sub_alias subscription with Some a => a +:+ ": " | None => "" end
    +:+ sub_name subscription
    +:+ match arguments with
        | [] => ""
        | _ :: _ => "(" +:+ String.concat ", " arguments +:+ ")"
        end
    +:+ " { " +:+ String.concat ", " (sub_fields subscription) +:+ " } }".

(** The two wire shapes of restoration, before serialization. *)
Definition connection_init_message (client : ClientState) : JsValue :=
  JObj [("type", JStr "connection_init"); ("payload", init client)].

Definition subscription_message (subscription : Subscription) : JsValue :=
  JObj [("id", match sub_id subscription with Some i => JStr i | None => JUndefined end);
        ("type", JStr (sub_type subscription));
        ("payload", JObj [("query", JStr (buildRecoveryQuery subscription))])].

Definition is_removal (c : Call) : bool :=
  match c with
  | CallRemoveSubscription _ _ | CallRemoveAllSubscriptions _ => true
  | _ => false
  end.

(** What holds of every entry of every subscriptions map. *)
Definition subscription_ok (config : gmap string ConfigEntry) (identity : string)
    (subscription : Subscription) : Prop :=
  identity = or_string (sub_alias subscription) (sub_name subscription) /\
  sub_alias subscription <> Some "" /\
  opt_name (sub_options subscription) = sub_name subscription /\
  exists descriptor,
    config !! sub_name subscription = Some descriptor /\
    opt_key (sub_options subscription) = cfg_key descriptor /\
    opt_args (sub_options subscription) = cfg_args descriptor /\
    In (cfg_key descriptor) (sub_fields subscription).

Definition client_ok (config : gmap string ConfigEntry) (client : ClientState) : Prop :=
  NoDup (tbl_keys (subscriptions client)) /\
  forall identity subscription,
    In (identity, subscription) (subscriptions client) ->
    subscription_ok config identity subscription.

Definition registry_ok (this : StatefulSubscriptions) : Prop :=
  forall clientId client,
    clients this !! clientId = Some client ->
    client_ok (subscriptionsConfig this) client.

(** ** Facts about tables *)

Lemma tbl_get_set_eq {V} (k : string) (v : V) (t : list (string * V)) :
  tbl_get k (tbl_set k v t) = Some v.
Proof.
  induction t as [|[k' v'] t IH]; simpl.
  - now rewrite String.eqb_refl.
  - destruct (String.eqb k k') eqn:E; simpl; rewrite ?String.eqb_refl, ?E; auto.
Qed.

Lemma tbl_get_set_ne {V} (k k' : string) (v : V) (t : list (string * V)) :
  k <> k' -> tbl_get k' (tbl_set k v t) = tbl_get k' t.
Proof.
  intros Hne. induction t as [|[k0 v0] t IH]; simpl.
  - destruct (String.eqb k' k) eqn:E; auto.
    apply String.eqb_eq in E. congruence.
  - destruct (String.eqb k k0) eqn:E; simpl.
    + apply String.eqb_eq in E. subst k0.
      destruct (String.eqb k' k) eqn:E'; auto.
      apply String.eqb_eq in E'. congruence.
    + now rewrite IH.
Qed.

Lemma tbl_set_absent {V} (k : string) (v : V) (t : list (string * V)) :
  tbl_get k t = None -> tbl_set k v t = t ++ [(k, v)].
Proof.
  induction t as [|[k' v'] t IH]; simpl; auto.
  destruct (String.eqb k k'); [discriminate|].
  intros H. now rewrite IH.
Qed.

Lemma tbl_has_false {V} (k : string) (t : list (string * V)) :
  tbl_has k t = false <-> tbl_get k t = None.
Proof. unfold tbl_has. destruct (tbl_get k t); split; congruence. Qed.

Lemma tbl_has_true {V} (k : string) (t : list (string * V)) :
  tbl_has k t = true <-> exists v, tbl_get k t = Some v.
Proof.
  unfold tbl_has. destruct (tbl_get k t); split; eauto; try congruence.
  intros [v H]. discriminate.
Qed.

Lemma tbl_get_In {V} (k : string) (v : V) (t : list (string * V)) :
  tbl_get k t = Some v -> In (k, v) t.
Proof.
  induction t as [|[k' v'] t IH]; simpl; [discriminate|].
  destruct (String.eqb k k') eqn:E.
  - apply String.eqb_eq in E. intros [= ->]. subst. now left.
  - intros H. right. auto.
Qed.

Lemma tbl_get_None_keys {V} (k : string) (t : list (string * V)) :
  tbl_get k t = None <-> ~ In k (tbl_keys t).
Proof.
  induction t as [|[k' v'] t IH]; simpl.
  - split; auto.
  - destruct (String.eqb k k') eqn:E.
    + apply String.eqb_eq in E. subst. split; [discriminate|]. intros H. exfalso. auto.
    + apply String.eqb_neq in E. rewrite IH. split.
      * intros H [H'|H']; [congruence|auto].
      * intros H H'. apply H. now right.
Qed.

Lemma In_tbl_get {V} (k : string) (v : V) (t : list (string * V)) :
  NoDup (tbl_keys t) -> In (k, v) t -> tbl_get k t = Some v.
Proof.
  induction t as [|[k' v'] t IH]; simpl; [tauto|].
  intros Hnd [H|H].
  - injection H as -> ->. now rewrite String.eqb_refl.
  - apply NoDup_cons in Hnd as [Hnotin Hnd].
    destruct (String.eqb k k') eqn:E.
    + apply String.eqb_eq in E. subst k'. exfalso. apply Hnotin.
      apply list_elem_of_In. apply (in_map fst) in H. exact H.
    + auto.
Qed.

Lemma tbl_keys_set_present {V} (k : string) (v : V) (t : list (string * V)) :
  tbl_has k t = true -> tbl_keys (tbl_set k v t) = tbl_keys t.
Proof.
  unfold tbl_has. induction t as [|[k' v'] t IH]; simpl; [discriminate|].
  destruct (String.eqb k k') eqn:E; simpl.
  - apply String.eqb_eq in E. now subst.
  - intros H. now rewrite IH.
Qed.

Lemma tbl_keys_set_absent {V} (k : string) (v : V) (t : list (string * V)) :
  tbl_get k t = None -> tbl_keys (tbl_set k v t) = tbl_keys t ++ [k].
Proof.
  intros H. rewrite tbl_set_absent by exact H.
  unfold tbl_keys. now rewrite List.map_app.
Qed.

Lemma tbl_set_NoDup {V} (k : string) (v : V) (t : list (string * V)) :
  NoDup (tbl_keys t) -> NoDup (tbl_keys (tbl_set k v t)).
Proof.
  intros Hnd. destruct (tbl_get k t) eqn:E.
  - rewrite tbl_keys_set_present; auto. apply tbl_has_true. eauto.
  - rewrite tbl_keys_set_absent by exact E.
    apply NoDup_app. repeat split; auto.
    + intros x Hx Hx'. apply list_elem_of_In in Hx, Hx'. simpl in Hx'.
      destruct Hx' as [<-|[]]. apply tbl_get_None_keys in E. auto.
    + apply NoDup_singleton.
Qed.

Lemma In_tbl_set {V} (k k0 : string) (v v0 : V) (t : list (string * V)) :
  In (k0, v0) (tbl_set k v t) -> (k0 = k /\ v0 = v) \/ In (k0, v0) t.
Proof.
  induction t as [|[k' v'] t IH]; simpl.
  - intros [[= <- <-]|[]]. now left.
  - destruct (String.eqb k k') eqn:E; simpl.
    + intros [[= <- <-]|H]; [now left|right; now right].
    + intros [H|H]; [right; now left|].
      destruct (IH H) as [?|?]; [now left|right; now right].
Qed.

Lemma tbl_get_delete_eq {V} (k : string) (t : list (string * V)) :
  tbl_get k (tbl_delete k t) = None.
Proof.
  unfold tbl_delete. induction t as [|[k' v'] t IH]; simpl; auto.
  destruct (String.eqb k k') eqn:E; simpl; auto. now rewrite E.
Qed.

Lemma tbl_get_delete_ne {V} (k k' : string) (t : list (string * V)) :
  k <> k' -> tbl_get k' (tbl_delete k t) = tbl_get k' t.
Proof.
  intros Hne. unfold tbl_delete. induction t as [|[k0 v0] t IH]; simpl; auto.
  destruct (String.eqb k k0) eqn:E; simpl.
  - apply String.eqb_eq in E. subst k0.
    destruct (String.eqb k' k) eqn:E'; auto.
    apply String.eqb_eq in E'. congruence.
  - now rewrite IH.
Qed.

Lemma In_tbl_delete {V} (k : string) (e : string * V) (t : list (string * V)) :
  In e (tbl_delete k t) -> In e t.
Proof. unfold tbl_delete. intros H. apply List.filter_In in H. tauto. Qed.

Lemma tbl_delete_NoDup {V} (k : string) (t : list (string * V)) :
  NoDup (tbl_keys t) -> NoDup (tbl_keys (tbl_delete k t)).
Proof.
  unfold tbl_delete, tbl_keys. induction t as [|[k' v'] t IH]; simpl; auto.
  intros Hnd. apply NoDup_cons in Hnd as [Hnotin Hnd].
  destruct (String.eqb k k'); simpl; auto.
  apply NoDup_cons. split; auto.
  intros Hin. apply Hnotin. apply list_elem_of_In in Hin. apply list_elem_of_In.
  apply List.in_map_iff in Hin as [e [He Hin]].
  apply List.filter_In in Hin as [Hin _].
  apply List.in_map_iff. eauto.
Qed.

Lemma tbl_get_app {V} (k : string) (t1 t2 : list (string * V)) :
  tbl_get k (t1 ++ t2) =
  match tbl_get k t1 with Some v => Some v | None => tbl_get k t2 end.
Proof.
  induction t1 as [|[k' v'] t1 IH]; simpl; auto.
  destruct (String.eqb k k'); auto.
Qed.

(** ** The introspector's argument resolution *)

(** A loop of property writes reads back, under each name, what the last
    entry of that name wrote. *)
Lemma fold_tbl_set_get {A V} (f : A -> V) (entries : list (string * A))
    (acc : list (string * V)) (k : string) :
  tbl_get k (fold_left (fun obj e => tbl_set (fst e) (f (snd e)) obj) entries acc) =
  match tbl_get k (rev entries) with
  | Some a => Some (f a)
  | None => tbl_get k acc
  end.
Proof.
  revert acc. induction entries as [|[n a] entries IH]; intros acc; simpl; auto.
  rewrite IH, tbl_get_app. destruct (tbl_get k (rev entries)); auto.
  simpl. destruct (String.eqb k n) eqn:E.
  - apply String.eqb_eq in E. subst. apply tbl_get_set_eq.
  - apply String.eqb_neq in E. apply tbl_get_set_ne. congruence.
Qed.

(** With names all different, the loop appends one property per entry, in
    the order of the entries. *)
Lemma fold_tbl_set_distinct {A V} (f : A -> V) (entries : list (string * A))
    (acc : list (string * V)) :
  NoDup (tbl_keys entries) ->
  (forall k, In k (tbl_keys entries) -> tbl_get k acc = None) ->
  fold_left (fun obj e => tbl_set (fst e) (f (snd e)) obj) entries acc =
  acc ++ List.map (fun e => (fst e, f (snd e))) entries.
Proof.
  revert acc. induction entries as [|[n a] entries IH]; intros acc Hnd Hacc; simpl.
  - now rewrite app_nil_r.
  - simpl in Hnd. apply NoDup_cons in Hnd as [Hn Hnd].
    rewrite IH; auto.
    + rewrite tbl_set_absent by (apply Hacc; now left).
      now rewrite <- app_assoc.
    + intros k Hk. rewrite tbl_get_set_ne.
      * apply Hacc. now right.
      * intros ->. apply Hn. now apply list_elem_of_In.
Qed.

(** A write under a name other than [__proto__] on an object whose
    prototype is Object.prototype sets an own property. *)
Lemma assign_plain (properties : JsObject) (k : string) (v : JsValue) :
  k <> "__proto__" ->
  assign (JObj properties) k v = JObj (tbl_set k v properties).
Proof.
  intros Hk. unfold assign. simpl. unfold Object_prototype_set.
  apply String.eqb_neq in Hk. rewrite Hk. now destruct (tbl_has k properties).
Qed.

(** A write under [__proto__] on such an object sets no property: it
    runs the setter of Object.prototype, unless the object has an own
    property of that name. *)
Lemma assign_proto (properties : JsObject) (v : JsValue) :
  tbl_get "__proto__" properties = None ->
  assign (JObj properties) "__proto__" v = set_prototype (JObj properties) v.
Proof.
  intros Hown. unfold assign. simpl. unfold tbl_has. now rewrite Hown.
Qed.

Lemma fold_assign_plain {A} (f : A -> JsValue) (entries : list (string * A))
    (acc : JsObject) :
  ~ In "__proto__" (tbl_keys entries) ->
  fold_left (fun obj e => assign obj (fst e) (f (snd e))) entries (JObj acc) =
  JObj (fold_left (fun obj e => tbl_set (fst e) (f (snd e)) obj) entries acc).
Proof.
  revert acc. induction entries as [|[n a] entries IH]; intros acc Hproto; simpl; auto.
  rewrite assign_plain by (intros ->; apply Hproto; now left).
  apply IH. intros Hin. apply Hproto. now right.
Qed.

(** A read of a name that is an own property gives that property; a
    name that is none, on an object whose prototype is Object.prototype,
    gives what Object.prototype holds under it. *)
Lemma obj_get_own (k : string) (o : JsObject) (v : JsValue) :
  tbl_get k o = Some v -> obj_get k o = v.
Proof. intros H. unfold obj_get. simpl. now rewrite H. Qed.

Lemma obj_get_inherited (k : string) (o : JsObject) :
  tbl_get k o = None -> obj_get k o = Object_prototype_get k (JObj o).
Proof. intros H. unfold obj_get. simpl. now rewrite H. Qed.

Lemma Object_prototype_get_other (k : string) (receiver : JsValue) :
  Object_prototype_has k = false -> Object_prototype_get k receiver = JUndefined.
Proof.
  unfold Object_prototype_has, Object_prototype_get. intros H.
  apply orb_false_elim in H as [H Hm]. apply orb_false_elim in H as [Hp Hc].
  now rewrite Hp, Hc, Hm.
Qed.

(** Argument-value resolution.  An integer literal yields the number
    parsed from its text by [parseInt], a float literal the one parsed by
    [parseFloat]; strings and booleans are taken as they are; the null
    literal yields null; a list literal is resolved element by element, an
    object literal field by field: when no field is named [__proto__],
    the result is an object with, under each name, the value of the last
    field of that name (with distinct names, one property per field in
    order).  A variable yields its binding when the variables have a
    defined property of that name; a name they do not have is read from
    Object.prototype, so it yields null only when Object.prototype has no
    member of that name.  Any other kind of literal (an enum value) yields
    null.  Without arguments the mapping is empty, and the introspector
    reports as the params of the root field the mapping built from that
    field's arguments. *)
Lemma argument_value_resolution :
  (forall text variables,
      extractArgumentValue (IntValue text) variables = JNum (parseInt text)) /\
  (forall text variables,
      extractArgumentValue (FloatValue text) variables = JNum (parseFloat text)) /\
  (forall text variables, extractArgumentValue (StringValue text) variables = JStr text) /\
  (forall b variables, extractArgumentValue (BooleanValue b) variables = JBool b) /\
  (forall variables, extractArgumentValue NullValue variables = JNull) /\
  (forall values variables,
      extractArgumentValue (ListValue values) variables =
      JArr (List.map (fun val => extractArgumentValue val variables) values)) /\
  (forall fields variables,
      extractArgumentValue (ObjectValue fields) variables =
        extractObjectArguments fields variables /\
      (~ In "__proto__" (tbl_keys fields) ->
       exists properties,
         extractObjectArguments fields variables = JObj properties /\
         (forall k,
             tbl_get k properties =
             match tbl_get k (rev fields) with
             | Some node => Some (extractArgumentValue node variables)
             | None => None
             end) /\
         (NoDup (tbl_keys fields) ->
          properties =
          List.map (fun field => (fst field, extractArgumentValue (snd field) variables))
            fields))) /\
  (forall name variables,
      extractArgumentValue (VariableNode name) variables =
      match tbl_get name variables with
      | Some JUndefined => JNull
      | Some bound => bound
      | None =>
          match Object_prototype_get name (JObj variables) with
          | JUndefined => JNull
          | inherited => inherited
          end
      end) /\
  (forall name variables,
      tbl_get name variables = None ->
      Object_prototype_has name = false ->
      extractArgumentValue (VariableNode name) variables = JNull) /\
  (forall text variables, extractArgumentValue (EnumValue text) variables = JNull) /\
  (forall variables, extractArguments [] variables = JObj []) /\
  (forall document variables operation alias name arguments selectionSet rest info,
      List.find is_subscription_operation document =
        Some (OperationDefinition operation
                (Field alias name arguments selectionSet :: rest)) ->
      querySubscriptionInfo document variables = Normal (Some info) ->
      info_params info =
      extractArguments arguments (match variables with Some v => v | None => [] end)).
Proof.
  repeat apply conj; intros; try reflexivity.
  - split; [reflexivity|]. intros Hproto. unfold extractObjectArguments.
    rewrite (fold_assign_plain (fun node => extractArgumentValue node variables))
      by exact Hproto.
    eexists. split; [reflexivity|]. split.
    + intros k.
      rewrite (fold_tbl_set_get (fun node => extractArgumentValue node variables)).
      now destruct (tbl_get k (rev fields)).
    + intros Hnd.
      now rewrite (fold_tbl_set_distinct (fun node => extractArgumentValue node variables)).
  - simpl. unfold extractVariable, obj_get. simpl.
    destruct (tbl_get name variables) as [[]|]; try reflexivity.
    now destruct (Object_prototype_get name (JObj variables)).
  - simpl. unfold extractVariable.
    match goal with
    | Hown : tbl_get _ _ = None, Hhas : Object_prototype_has _ = false |- _ =>
        rewrite (obj_get_inherited _ _ Hown), (Object_prototype_get_other _ _ Hhas)
    end.
    reflexivity.
  - match goal with
    | Hfind : List.find _ _ = Some _, Hinfo : querySubscriptionInfo _ _ = _ |- _ =>
        unfold querySubscriptionInfo in Hinfo; rewrite Hfind in Hinfo;
        destruct (extractFields stackDepth selectionSet _); simpl in Hinfo;
        [injection Hinfo as <-; reflexivity | discriminate]
    end.
Qed.

(** ** Facts about the registry *)

Lemma truthy_string_idem (o : option string) :
  truthy_string (truthy_string o) = truthy_string o.
Proof.
  destruct o as [a|]; simpl; auto.
  destruct (String.eqb a "") eqn:E; simpl; auto. now rewrite E.
Qed.

Lemma truthy_string_nonempty (o : option string) : truthy_string o <> Some "".
Proof.
  destruct o as [a|]; simpl; [|discriminate].
  destruct (String.eqb a "") eqn:E; [discriminate|].
  intros [= ->]. discriminate.
Qed.

Lemma or_string_truthy (o : option string) (d : string) :
  or_string (truthy_string o) d = or_string o d.
Proof. unfold or_string. now rewrite truthy_string_idem. Qed.

Lemma includes_In (l : list string) (x : string) : includes l x = true <-> In x l.
Proof.
  unfold includes. rewrite existsb_exists. split.
  - intros [y [Hy E]]. apply String.eqb_eq in E. now subst.
  - intros H. exists x. split; auto. apply String.eqb_refl.
Qed.

Lemma obtain_client_spec (this this0 : StatefulSubscriptions) (clientId : string)
    (client : ClientState) :
  obtain_client this clientId = (client, this0) ->
  clients this0 !! clientId = Some client /\
  subscriptionsConfig this0 = subscriptionsConfig this /\
  (forall other, other <> clientId -> clients this0 !! other = clients this !! other) /\
  ((clients this !! clientId = Some client /\ this0 = this) \/
   (clients this !! clientId = None /\ client = createClientState)).
Proof.
  unfold obtain_client. destruct (clients this !! clientId) as [c|] eqn:E.
  - intros [= <- <-]. repeat split; auto.
  - intros [= <- <-]. simpl. repeat split; auto.
    + apply lookup_insert_eq.
    + intros other Hne. now apply lookup_insert_ne.
Qed.

Lemma obtain_client_known (this : StatefulSubscriptions) (clientId : string)
    (client : ClientState) :
  clients this !! clientId = Some client -> obtain_client this clientId = (client, this).
Proof. unfold obtain_client. now intros ->. Qed.

Lemma tracked_known (this : StatefulSubscriptions) (clientId identity : string)
    (client : ClientState) :
  clients this !! clientId = Some client ->
  tracked this clientId identity = tbl_get identity (subscriptions client).
Proof. unfold tracked. now intros ->. Qed.

Lemma tracked_insert (this : StatefulSubscriptions) (clientId identity : string)
    (client : ClientState) :
  tracked (with_clients this (<[clientId := client]> (clients this))) clientId identity =
  tbl_get identity (subscriptions client).
Proof. unfold tracked. simpl. now rewrite lookup_insert_eq. Qed.

Lemma tracked_insert_ne (this : StatefulSubscriptions) (clientId other identity : string)
    (client : ClientState) :
  clientId <> other ->
  tracked (with_clients this (<[clientId := client]> (clients this))) other identity =
  tracked this other identity.
Proof. intros Hne. unfold tracked. simpl. now rewrite lookup_insert_ne. Qed.

Lemma tracked_obtain (this this0 : StatefulSubscriptions) (clientId other identity : string)
    (client : ClientState) :
  obtain_client this clientId = (client, this0) ->
  tracked this0 other identity = tracked this other identity.
Proof.
  intros H. apply obtain_client_spec in H as (Hc & _ & Hother & [[Hk ->]|[Hn ->]]); auto.
  unfold tracked. destruct (String.eqb other clientId) eqn:E.
  - apply String.eqb_eq in E. subst. now rewrite Hc, Hn.
  - apply String.eqb_neq in E. now rewrite Hother.
Qed.


(** The descriptors are fixed at construction: no call writes them. *)
Lemma after_config (this : StatefulSubscriptions) (c : Call) :
  subscriptionsConfig (after this c) = subscriptionsConfig this.
Proof.
  destruct c as [clientId payload|clientId query variables sid stype|clientId heap result
                |clientId|clientId sid|clientId]; simpl; auto.
  - unfold addSubscriptionInit. destruct (obtain_client this clientId) as [client this0] eqn:E.
    apply obtain_client_spec in E as (_ & Hcfg & _). exact Hcfg.
  - unfold addSubscription. destruct (obtain_client this clientId) as [client this0] eqn:E.
    apply obtain_client_spec in E as (_ & Hcfg & _).
    destruct (extractSubscriptionQueryInfo query variables) as [[s|]|err]; auto.
    destruct (tbl_has _ _); auto.
    destruct (subscriptionsConfig this0 !! info_name s); auto.
  - unfold updateSubscriptionState. destruct (clients this !! clientId) as [client|]; auto.
    destruct (extractSubscriptionResultInfo heap result) as [r|]; simpl; auto.
    destruct (res_resultName r) as [rn|]; auto.
    destruct (tbl_get rn (subscriptions client)) as [sub|]; auto.
    destruct (subscriptionsConfig this !! sub_name sub) as [config|]; auto.
    destruct (read_property heap (res_data r) (cfg_key config)) as [kv|]; simpl; auto.
    destruct (negb (is_undefined kv)); auto.
  - unfold removeSubscription. destruct (String.eqb sid ""); auto.
    destruct (clients this !! clientId) as [client|]; auto.
    destruct (truthy_string (ids client !! sid)); auto.
  - unfold removeAllSubscriptions. destruct (clients this !! clientId); auto.
Qed.

Lemma after_all_config (calls : list Call) (this : StatefulSubscriptions) :
  subscriptionsConfig (after_all this calls) = subscriptionsConfig this.
Proof.
  revert this. induction calls as [|c calls IH]; intros this; simpl; auto.
  unfold after_all in *. simpl. now rewrite IH, after_config.
Qed.

(** *** The invariant of the subscriptions maps *)

Lemma registry_ok_insert (this : StatefulSubscriptions) (clientId : string)
    (client : ClientState) :
  registry_ok this ->
  client_ok (subscriptionsConfig this) client ->
  registry_ok (with_clients this (<[clientId := client]> (clients this))).
Proof.
  intros Hok Hclient other c. simpl.
  destruct (String.eqb clientId other) eqn:E.
  - apply String.eqb_eq in E. subst. rewrite lookup_insert_eq. now intros [= <-].
  - apply String.eqb_neq in E. rewrite lookup_insert_ne by exact E. apply Hok.
Qed.

Lemma client_ok_createClientState (config : gmap string ConfigEntry) :
  client_ok config createClientState.
Proof. split; simpl; [constructor|tauto]. Qed.

Lemma registry_ok_obtain (this this0 : StatefulSubscriptions) (clientId : string)
    (client : ClientState) :
  registry_ok this ->
  obtain_client this clientId = (client, this0) ->
  registry_ok this0 /\ client_ok (subscriptionsConfig this0) client.
Proof.
  intros Hok H. unfold obtain_client in H.
  destruct (clients this !! clientId) as [c|] eqn:E; injection H as <- <-.
  - split; auto. exact (Hok _ _ E).
  - split; [|apply client_ok_createClientState].
    apply registry_ok_insert; auto. apply client_ok_createClientState.
Qed.

Lemma subscription_ok_new (config : gmap string ConfigEntry) (s : SubscriptionInfo)
    (descriptor : ConfigEntry) (variables : option JsObject)
    (subscriptionId subscriptionType : option string) :
  config !! info_name s = Some descriptor ->
  subscription_ok config (or_string (info_alias s) (info_name s))
    (newSubscription s descriptor variables subscriptionId subscriptionType).
Proof.
  intros Hcfg. unfold subscription_ok. simpl. repeat split.
  - now rewrite or_string_truthy.
  - apply truthy_string_nonempty.
  - exists descriptor. repeat split; auto.
    destruct (includes (info_fields s) (cfg_key descriptor)) eqn:E.
    + now apply includes_In.
    + apply in_or_app. right. now left.
Qed.

Lemma client_ok_set (config : gmap string ConfigEntry) (client : ClientState)
    (identity : string) (subscription : Subscription) (i : JsValue)
    (index : gmap string string) :
  client_ok config client ->
  subscription_ok config identity subscription ->
  client_ok config
    {| init := i; subscriptions := tbl_set identity subscription (subscriptions client);
       ids := index |}.
Proof.
  intros [Hnd Hall] Hsub. split; simpl.
  - now apply tbl_set_NoDup.
  - intros k sub Hin. apply In_tbl_set in Hin as [[-> ->]|Hin]; auto.
Qed.

Lemma registry_ok_after (this : StatefulSubscriptions) (c : Call) :
  registry_ok this -> registry_ok (after this c).
Proof.
  intros Hok.
  destruct c as [clientId payload|clientId query variables sid stype|clientId heap result
                |clientId|clientId sid|clientId]; simpl; auto.
  - unfold addSubscriptionInit. destruct (obtain_client this clientId) as [client this0] eqn:E.
    destruct (registry_ok_obtain _ _ _ _ Hok E) as [Hok0 [Hnd Hall]].
    apply registry_ok_insert; auto. split; auto.
  - unfold addSubscription. destruct (obtain_client this clientId) as [client this0] eqn:E.
    destruct (registry_ok_obtain _ _ _ _ Hok E) as [Hok0 Hclient].
    destruct (extractSubscriptionQueryInfo query variables) as [[s|]|err]; auto.
    destruct (tbl_has _ _); auto.
    destruct (subscriptionsConfig this0 !! info_name s) as [config|] eqn:Hcfg; auto.
    apply registry_ok_insert; auto.
    apply client_ok_set; auto. now apply subscription_ok_new.
  - unfold updateSubscriptionState. destruct (clients this !! clientId) as [client|] eqn:Hc; auto.
    destruct (extractSubscriptionResultInfo heap result) as [r|]; simpl; auto.
    destruct (res_resultName r) as [rn|]; auto.
    destruct (tbl_get rn (subscriptions client)) as [sub|] eqn:Hsub; auto.
    destruct (subscriptionsConfig this !! sub_name sub) as [config|]; auto.
    destruct (read_property heap (res_data r) (cfg_key config)) as [kv|]; simpl; auto.
    destruct (negb (is_undefined kv)); auto.
    apply registry_ok_insert; auto.
    apply client_ok_set; [exact (Hok _ _ Hc)|].
    destruct (Hok _ _ Hc) as [_ Hall]. apply (Hall rn sub). now apply tbl_get_In.
  - unfold removeSubscription. destruct (String.eqb sid ""); auto.
    destruct (clients this !! clientId) as [client|] eqn:Hc; auto.
    destruct (truthy_string (ids client !! sid)) as [name|]; auto.
    apply registry_ok_insert; auto.
    destruct (Hok _ _ Hc) as [Hnd Hall]. split; simpl.
    + now apply tbl_delete_NoDup.
    + intros k sub Hin. apply Hall. eapply In_tbl_delete. exact Hin.
  - unfold removeAllSubscriptions. destruct (clients this !! clientId) as [client|]; auto.
    apply registry_ok_insert; auto. split; simpl; [constructor|tauto].
Qed.

Lemma registry_ok_new (options : list SubscriptionOptions) :
  registry_ok (new_StatefulSubscriptions options).
Proof. intros clientId client. simpl. now rewrite lookup_empty. Qed.

Lemma registry_ok_after_all (calls : list Call) (this : StatefulSubscriptions) :
  registry_ok this -> registry_ok (after_all this calls).
Proof.
  revert this. induction calls as [|c calls IH]; intros this Hok; auto.
  unfold after_all in *. simpl. apply IH. now apply registry_ok_after.
Qed.

(** Every tracked subscription of a registry grown from the constructor
    satisfies the invariant. *)
Lemma tracked_ok (options : list SubscriptionOptions) (calls : list Call)
    (clientId identity : string) (subscription : Subscription) :
  tracked (after_all (new_StatefulSubscriptions options) calls) clientId identity =
    Some subscription ->
  subscription_ok (subscriptionsConfig (new_StatefulSubscriptions options)) identity
    subscription.
Proof.
  intros H. unfold tracked in H.
  destruct (clients _ !! clientId) as [client|] eqn:Hc; [|discriminate].
  pose proof (registry_ok_after_all calls _ (registry_ok_new options) _ _ Hc) as [_ Hall].
  rewrite after_all_config in Hall. apply Hall. now apply tbl_get_In.
Qed.

(** A descriptor in the lookup comes from an entry of the options. *)
Lemma config_from_options (options : list SubscriptionOptions) (name : string)
    (descriptor : ConfigEntry) :
  subscriptionsConfig (new_StatefulSubscriptions options) !! name = Some descriptor ->
  exists o, In o options /\ opt_name o = name /\
            cfg_key descriptor = opt_key o /\ cfg_args descriptor = opt_args o.
Proof.
  simpl.
  assert (forall acc : gmap string ConfigEntry,
             fold_left
               (fun config subscription =>
                  <[opt_name subscription :=
                      {| cfg_key := opt_key subscription; cfg_args := opt_args subscription |}]>
                    config) options acc !! name = Some descriptor ->
             acc !! name = Some descriptor \/
             exists o, In o options /\ opt_name o = name /\
                       cfg_key descriptor = opt_key o /\ cfg_args descriptor = opt_args o)
    as Hgen.
  { induction options as [|o options IH]; intros acc H; simpl in *; auto.
    destruct (IH _ H) as [Hacc|(o' & Hin & Ho')].
    - destruct (String.eqb (opt_name o) name) eqn:E.
      + apply String.eqb_eq in E. rewrite <- E in Hacc. rewrite lookup_insert_eq in Hacc.
        injection Hacc as <-. right. exists o. simpl. auto.
      + apply String.eqb_neq in E. rewrite lookup_insert_ne in Hacc by exact E. now left.
    - right. exists o'. split; auto. }
  intros H. destruct (Hgen _ H) as [Hacc|Ho]; auto.
  rewrite lookup_empty in Hacc. discriminate.
Qed.

(** ** Registration *)

(** The initial cursor: a [lastValue] property of the variables is
    taken whatever it holds; without one, what the params give under the
    key is taken when it is truthy, and null stands for every other one.
    What the params give is their own property of that name when they have
    one. *)
Lemma initialLastValue_cases (variables : option JsObject) (params : JsValue)
    (key : string) :
  (forall vars v,
      variables = Some vars -> tbl_get "lastValue" vars = Some v ->
      initialLastValue variables params key = v) /\
  ((variables = None \/ exists vars, variables = Some vars /\ tbl_get "lastValue" vars = None) ->
   (ToBoolean (optional_get params key) = true ->
    initialLastValue variables params key = optional_get params key) /\
   (ToBoolean (optional_get params key) = false ->
    initialLastValue variables params key = JNull)) /\
  (forall properties v,
      params = JObj properties -> tbl_get key properties = Some v ->
      optional_get params key = v).
Proof.
  repeat split.
  - intros vars v -> Hv. unfold initialLastValue, has_property, tbl_has.
    rewrite Hv. simpl. now apply obj_get_own.
  - intros Htruthy. unfold initialLastValue.
    destruct H as [->|(vars & -> & Hnone)]; [now rewrite Htruthy|].
    unfold has_property, tbl_has. rewrite Hnone. simpl. now rewrite Htruthy.
  - intros Hfalsy. unfold initialLastValue.
    destruct H as [->|(vars & -> & Hnone)]; [now rewrite Hfalsy|].
    unfold has_property, tbl_has. rewrite Hnone. simpl. now rewrite Hfalsy.
  - intros properties v -> Hv. simpl. now rewrite Hv.
Qed.



(** Registering under an identity the client already tracks changes
    nothing and logs nothing. *)
Lemma addSubscription_tracked (this : StatefulSubscriptions) (clientId query : string)
    (variables : option JsObject) (subscriptionId subscriptionType : option string)
    (s : SubscriptionInfo) (client : ClientState) :
  extractSubscriptionQueryInfo query variables = Normal (Some s) ->
  clients this !! clientId = Some client ->
  tbl_has (or_string (info_alias s) (info_name s)) (subscriptions client) = true ->
  addSubscription this clientId query variables subscriptionId subscriptionType =
  Normal (this, []).
Proof.
  intros Hs Hc Hhas. unfold addSubscription.
  rewrite (obtain_client_known _ _ _ Hc), Hs, Hhas. reflexivity.
Qed.

Lemma with_clients_same (this : StatefulSubscriptions) :
  with_clients this (clients this) = this.
Proof. now destruct this. Qed.

(** C7: registration is idempotent.  A call of [addSubscription] whose
    identity (the alias if there is one, else the root name) is already
    tracked for that client returns the registry unchanged, whatever
    transport id and message type it carries; so a second call with the
    same client, query and variables leaves the state of the first call, and
    when that state tracks the identity, it holds exactly one entry
    under it. *)
Theorem C7_registration_idempotent :
  forall this clientId query variables subscriptionId subscriptionType,
    (forall s client,
        extractSubscriptionQueryInfo query variables = Normal (Some s) ->
        clients this !! clientId = Some client ->
        tbl_has (or_string (info_alias s) (info_name s)) (subscriptions client) = true ->
        addSubscription this clientId query variables subscriptionId subscriptionType =
        Normal (this, [])) /\
    (forall this1 logs1,
        addSubscription this clientId query variables subscriptionId subscriptionType =
          Normal (this1, logs1) ->
        (forall subscriptionId' subscriptionType',
            exists logs2,
              addSubscription this1 clientId query variables subscriptionId' subscriptionType' =
              Normal (this1, logs2)) /\
        (forall s client1,
            registry_ok this ->
            extractSubscriptionQueryInfo query variables = Normal (Some s) ->
            clients this1 !! clientId = Some client1 ->
            tbl_has (or_string (info_alias s) (info_name s)) (subscriptions client1) = true ->
            length (List.filter
                      (fun entry => String.eqb (fst entry)
                                      (or_string (info_alias s) (info_name s)))
                      (subscriptions client1)) = 1)).
Proof.
  intros this clientId query variables subscriptionId subscriptionType. split.
  - intros s client. apply addSubscription_tracked.
  - intros this1 logs1 Hfirst. split.
    + intros sid' stype'. unfold addSubscription in Hfirst.
      destruct (obtain_client this clientId) as [client this0] eqn:E.
      apply obtain_client_spec in E as (Hc & Hcfg & _ & _).
      destruct (extractSubscriptionQueryInfo query variables) as [[s|]|err] eqn:Hs.
      * destruct (tbl_has _ (subscriptions client)) eqn:Hhas.
        { injection Hfirst as <- <-. exists []. eapply addSubscription_tracked; eauto. }
        destruct (subscriptionsConfig this0 !! info_name s) as [config|] eqn:Hconfig.
        { injection Hfirst as <- <-. exists [].
          eapply addSubscription_tracked; eauto.
          - simpl. apply lookup_insert_eq.
          - simpl. apply tbl_has_true. eexists. apply tbl_get_set_eq. }
        injection Hfirst as <- <-. exists []. unfold addSubscription.
        rewrite (obtain_client_known _ _ _ Hc), Hs, Hhas, Hconfig. reflexivity.
      * injection Hfirst as <- <-. exists []. unfold addSubscription.
        rewrite (obtain_client_known _ _ _ Hc), Hs. reflexivity.
      * injection Hfirst as <- <-. eexists. unfold addSubscription.
        rewrite (obtain_client_known _ _ _ Hc), Hs. reflexivity.
    + intros s client1 Hok Hs Hc1 Hhas.
      assert (registry_ok this1) as Hok1.
      { change this1 with
          (match Normal (this1, logs1) with Normal (t, _) => t | Abrupt _ => this end).
        rewrite <- Hfirst.
        exact (registry_ok_after this
                 (CallAddSubscription clientId query variables subscriptionId
                    subscriptionType) Hok). }
      destruct (Hok1 _ _ Hc1) as [Hnd _].
      apply tbl_has_true in Hhas as [sub Hsub].
      revert Hnd Hsub. generalize (or_string (info_alias s) (info_name s)) as k.
      generalize (subscriptions client1) as t. clear.
      induction t as [|[k' v'] t IH]; intros k Hnd Hsub; simpl in *; [discriminate|].
      apply NoDup_cons in Hnd as [Hnotin Hnd].
      destruct (String.eqb k k') eqn:E.
      * apply String.eqb_eq in E. subst k'. rewrite String.eqb_refl. simpl. f_equal.
        clear IH Hsub Hnd. induction t as [|[k0 v0] t IH]; simpl; auto.
        destruct (String.eqb k0 k) eqn:E0.
        { apply String.eqb_eq in E0. subst. exfalso. apply Hnotin. simpl. left. }
        apply IH. intros Hin. apply Hnotin. simpl. now right.
      * rewrite String.eqb_sym, E. now apply IH.
Qed.

(** Without a descriptor for the root name, [addSubscription] tracks
    nothing, for any client. *)
Lemma addSubscription_unconfigured (this : StatefulSubscriptions) (clientId query : string)
    (variables : option JsObject) (subscriptionId subscriptionType : option string)
    (s : SubscriptionInfo) :
  extractSubscriptionQueryInfo query variables = Normal (Some s) ->
  subscriptionsConfig this !! info_name s = None ->
  exists this',
    addSubscription this clientId query variables subscriptionId subscriptionType =
      Normal (this', []) /\
    forall other identity, tracked this' other identity = tracked this other identity.
Proof.
  intros Hs Hnone.
  unfold addSubscription. destruct (obtain_client this clientId) as [client this0] eqn:E.
  pose proof (obtain_client_spec _ _ _ _ E) as (_ & Hcfg & _ & _).
  rewrite Hs, Hcfg, Hnone.
  exists this0. split.
  - now destruct (tbl_has _ _).
  - intros other identity. eapply tracked_obtain; eauto.
Qed.

(** C8: the configured-descriptor invariant.  In a registry built by the
    constructor and driven by any calls, the root name of every tracked
    subscription has a descriptor in the lookup, which comes from an entry
    of the construction options of that name; and [addSubscription] for a
    root name without descriptor returns without tracking anything, for
    any client. *)
Theorem C8_configured_descriptor_invariant :
  (forall options calls clientId identity subscription,
      tracked (after_all (new_StatefulSubscriptions options) calls) clientId identity =
        Some subscription ->
      exists descriptor o,
        subscriptionsConfig (after_all (new_StatefulSubscriptions options) calls)
          !! sub_name subscription = Some descriptor /\
        In o options /\ opt_name o = sub_name subscription) /\
  (forall this clientId query variables subscriptionId subscriptionType s,
      extractSubscriptionQueryInfo query variables = Normal (Some s) ->
      subscriptionsConfig this !! info_name s = None ->
      exists this',
        addSubscription this clientId query variables subscriptionId subscriptionType =
          Normal (this', []) /\
        forall other identity, tracked this' other identity = tracked this other identity).
Proof.
  split.
  - intros options calls clientId identity subscription Htracked.
    apply tracked_ok in Htracked as (_ & _ & _ & descriptor & Hcfg & _).
    destruct (config_from_options _ _ _ Hcfg) as (o & Hin & Hname & _).
    exists descriptor, o. rewrite after_all_config. auto.
  - intros this clientId query variables subscriptionId subscriptionType s Hs Hnone.
    now apply (addSubscription_unconfigured _ _ _ _ _ _ s).
Qed.

(** ** Recovery queries and restoration *)

Lemma fold_push {A B} (g : A -> B) (l : list A) (acc : list B) :
  fold_left (fun args e => args ++ [g e]) l acc = acc ++ List.map g l.
Proof.
  revert acc. induction l as [|a l IH]; intros acc; simpl.
  - now rewrite app_nil_r.
  - now rewrite IH, <- app_assoc.
Qed.

(** The query built by the code is the one the specification words, for a
    subscription whose alias, if recorded, is not empty and whose options
    repeat its root name and its descriptor. *)
Lemma buildRecoveryQuery_spec (descriptor : ConfigEntry) (subscription : Subscription) :
  sub_alias subscription <> Some "" ->
  opt_name (sub_options subscription) = sub_name subscription ->
  opt_key (sub_options subscription) = cfg_key descriptor ->
  opt_args (sub_options subscription) = cfg_args descriptor ->
  buildRecoveryQuery subscription = recovery_query_spec descriptor subscription.
Proof.
  intros Halias Hname Hkey Hargs.
  unfold buildRecoveryQuery, recovery_query_spec. rewrite Hname, Hkey, Hargs.
  assert (match truthy_string (sub_alias subscription) with
          | Some a => a +:+ ": "
          | None => ""
          end =
          match sub_alias subscription with Some a => a +:+ ": " | None => "" end) as ->.
  { destruct (sub_alias subscription) as [a|]; simpl; auto.
    destruct (String.eqb a "") eqn:E; auto.
    apply String.eqb_eq in E. subst. congruence. }
  set (keyArgument :=
         if negb (is_nullish (sub_lastValue subscription))
         then [cfg_key descriptor +:+ ": " +:+ JSON_stringify (sub_lastValue subscription)]
         else []).
  assert (match sub_lastValue subscription with
          | JUndefined | JNull => []
          | _ => [cfg_key descriptor +:+ ": " +:+ JSON_stringify (sub_lastValue subscription)]
          end = keyArgument) as Hk.
  { unfold keyArgument. now destruct (sub_lastValue subscription). }
  assert (match sub_lastValue subscription with
          | JUndefined | JNull => []
          | v => [cfg_key descriptor +:+ ": " +:+ JSON_stringify v]
          end = keyArgument) as ->.
  { rewrite <- Hk. now destruct (sub_lastValue subscription). }
  assert (match cfg_args descriptor with
          | Some fixed =>
              fold_left (fun args entry =>
                           args ++ [fst entry +:+ ": " +:+ JSON_stringify (snd entry)])
                        fixed keyArgument
          | None => keyArgument
          end =
          keyArgument ++
          match cfg_args descriptor with
          | Some fixed =>
              List.map (fun entry => fst entry +:+ ": " +:+ JSON_stringify (snd entry)) fixed
          | None => []
          end) as ->.
  { destruct (cfg_args descriptor) as [fixed|].
    - apply (fold_push (fun entry => fst entry +:+ ": " +:+ JSON_stringify (snd entry))).
    - now rewrite app_nil_r. }
  now destruct (keyArgument ++ _).
Qed.

(** C2: the recovery query of every tracked subscription.  In a registry
    built by the constructor and driven by any calls, [buildRecoveryQuery]
    of a tracked subscription is the text worded by the specification over
    the subscription and the descriptor of its root name: the alias prefix
    only if an alias was recorded, the root name, the parenthesized argument
    list only if an argument is emitted (the key argument first and only for
    a cursor that is neither null nor undefined, then the fixed arguments in
    configured order, with a comma and a space between arguments), and the
    tracked fields between braces. *)
Theorem C2_recovery_query_shape :
  forall options calls clientId identity subscription,
    tracked (after_all (new_StatefulSubscriptions options) calls) clientId identity =
      Some subscription ->
    exists descriptor,
      subscriptionsConfig (new_StatefulSubscriptions options) !! sub_name subscription =
        Some descriptor /\
      buildRecoveryQuery subscription = recovery_query_spec descriptor subscription.
Proof.
  intros options calls clientId identity subscription Htracked.
  apply tracked_ok in Htracked as (_ & Halias & Hname & descriptor & Hcfg & Hkey & Hargs & _).
  exists descriptor. split; auto. now apply buildRecoveryQuery_spec.
Qed.

Lemma restoreSubscriptions_known (this : StatefulSubscriptions) (clientId : string)
    (client : ClientState) :
  clients this !! clientId = Some client ->
  restoreSubscriptions this clientId =
  JSON_stringify (connection_init_message client) ::
  List.map (fun subscription => JSON_stringify (subscription_message subscription))
    (tbl_values (subscriptions client)).
Proof.
  intros Hc. unfold restoreSubscriptions. rewrite Hc.
  apply (fold_push (fun subscription => JSON_stringify (subscription_message subscription))).
Qed.

(** ** Cursor updates *)

Lemma is_undefined_false (v : JsValue) : v <> JUndefined -> is_undefined v = false.
Proof. destruct v; simpl; congruence. Qed.

Lemma with_lastValue_twice (subscription : Subscription) (v w : JsValue) :
  with_lastValue (with_lastValue subscription v) w = with_lastValue subscription w.
Proof. reflexivity. Qed.

Lemma with_lastValue_same (subscription : Subscription) :
  with_lastValue subscription (sub_lastValue subscription) = subscription.
Proof. now destruct subscription. Qed.

(** A result whose first root key names a tracked subscription and whose
    data object defines the key field: the cursor is overwritten, and the
    key is stripped through a copy when it had been injected. *)
Lemma updateSubscriptionState_defined (this : StatefulSubscriptions) (heap : Store)
    (clientId : string) (result : loc) (client : ClientState) (resultName : string)
    (rest : list (string * RootValue)) (d : loc) (data : JsObject)
    (subscription : Subscription) (config : ConfigEntry) (keyValue : JsValue) :
  clients this !! clientId = Some client ->
  payloads heap !! result = Some ((resultName, RObject d) :: rest) ->
  objects heap !! d = Some data ->
  tbl_get resultName (subscriptions client) = Some subscription ->
  subscriptionsConfig this !! sub_name subscription = Some config ->
  tbl_get (cfg_key config) data = Some keyValue ->
  keyValue <> JUndefined ->
  updateSubscriptionState this heap clientId result =
  Normal
    (with_clients this
       (<[clientId :=
            {| init := init client;
               subscriptions :=
                 tbl_set resultName (with_lastValue subscription keyValue)
                   (subscriptions client);
               ids := ids client |}]> (clients this)),
     if sub_injectedKey subscription
     then install_copy heap result resultName (tbl_delete (cfg_key config) data)
     else heap).
Proof.
  intros Hc Hp Hd Hsub Hcfg Hkey Hdef.
  unfold updateSubscriptionState, extractSubscriptionResultInfo.
  rewrite Hc, Hp. simpl. rewrite String.eqb_refl. simpl.
  rewrite Hsub, Hcfg. simpl. rewrite Hd, (obj_get_own _ _ _ Hkey). simpl.
  rewrite (is_undefined_false _ Hdef). simpl.
  now destruct (sub_injectedKey subscription).
Qed.

(** Whatever the result, a call that returns leaves every subscription
    where it was in its map, with at most its cursor overwritten, and only
    under the first root key of the payload. *)
Lemma updateSubscriptionState_tracked (this this' : StatefulSubscriptions)
    (heap heap' : Store) (clientId : string) (result : loc) :
  updateSubscriptionState this heap clientId result = Normal (this', heap') ->
  (forall other identity subscription,
      tracked this other identity = Some subscription ->
      exists v, tracked this' other identity = Some (with_lastValue subscription v) /\
                (v = sub_lastValue subscription \/
                 (other = clientId /\
                  exists properties,
                    payloads heap !! result = Some properties /\
                    head (tbl_keys properties) = Some identity))) /\
  (forall other client client',
      clients this !! other = Some client ->
      clients this' !! other = Some client' ->
      tbl_keys (subscriptions client') = tbl_keys (subscriptions client)).
Proof.
  unfold updateSubscriptionState.
  assert (forall other identity subscription,
             tracked this other identity = Some subscription ->
             exists v, tracked this other identity = Some (with_lastValue subscription v) /\
                       (v = sub_lastValue subscription \/
                        (other = clientId /\
                         exists properties,
                           payloads heap !! result = Some properties /\
                           head (tbl_keys properties) = Some identity))) as Hsame.
  { intros other identity subscription H. exists (sub_lastValue subscription).
    rewrite with_lastValue_same. auto. }
  assert (forall other client client',
             clients this !! other = Some client ->
             clients this !! other = Some client' ->
             tbl_keys (subscriptions client') = tbl_keys (subscriptions client)) as Hkeys.
  { intros other client client' H1 H2. congruence. }
  destruct (clients this !! clientId) as [client|] eqn:Hc;
    [|intros [= <- <-]; split; assumption].
  unfold extractSubscriptionResultInfo.
  destruct (payloads heap !! result) as [properties|] eqn:Hp; simpl; [|discriminate].
  destruct (head (tbl_keys properties)) as [rn|] eqn:Hrn;
    [|intros [= <- <-]; split; assumption].
  destruct (tbl_get rn (subscriptions client)) as [sub|] eqn:Hsub;
    [|intros [= <- <-]; split; assumption].
  destruct (subscriptionsConfig this !! sub_name sub) as [config|];
    [|intros [= <- <-]; split; assumption].
  destruct (read_property heap _ (cfg_key config)) as [kv|]; simpl; [|discriminate].
  destruct (negb (is_undefined kv)); intros [= <- <-]; [|split; assumption].
  split.
  - intros other identity subscription Htr. unfold tracked in *. simpl.
    destruct (String.eqb clientId other) eqn:E.
    + apply String.eqb_eq in E. subst other. rewrite lookup_insert_eq. simpl.
      rewrite Hc in Htr.
      destruct (String.eqb rn identity) eqn:E'.
      * apply String.eqb_eq in E'. subst identity. rewrite tbl_get_set_eq.
        assert (sub = subscription) as -> by congruence.
        exists kv. split; auto. right. split; auto. eauto.
      * apply String.eqb_neq in E'. rewrite tbl_get_set_ne by exact E'.
        exists (sub_lastValue subscription). rewrite with_lastValue_same. auto.
    + apply String.eqb_neq in E. rewrite lookup_insert_ne by exact E.
      exists (sub_lastValue subscription). rewrite with_lastValue_same. auto.
  - intros other cl cl'. simpl. destruct (String.eqb clientId other) eqn:E.
    + apply String.eqb_eq in E. subst other. rewrite lookup_insert_eq, Hc.
      intros [= <-] [= <-]. simpl. apply tbl_keys_set_present.
      apply tbl_has_true. eauto.
    + apply String.eqb_neq in E. rewrite lookup_insert_ne by exact E. congruence.
Qed.

(** A registration that tracks a new subscription. *)
Lemma addSubscription_creates (this : StatefulSubscriptions) (clientId query : string)
    (variables : option JsObject) (subscriptionId subscriptionType : option string)
    (s : SubscriptionInfo) (config : ConfigEntry) :
  extractSubscriptionQueryInfo query variables = Normal (Some s) ->
  subscriptionsConfig this !! info_name s = Some config ->
  tracked this clientId (or_string (info_alias s) (info_name s)) = None ->
  exists this1 client1,
    clients this1 !! clientId = Some client1 /\
    subscriptions client1 =
      subscriptions (client_state this clientId) ++
      [(or_string (info_alias s) (info_name s),
        newSubscription s config variables subscriptionId subscriptionType)] /\
    init client1 = init (client_state this clientId) /\
    subscriptionsConfig this1 = subscriptionsConfig this /\
    (forall other identity,
        other <> clientId -> tracked this1 other identity = tracked this other identity) /\
    (forall identity,
        identity <> or_string (info_alias s) (info_name s) ->
        tracked this1 clientId identity = tracked this clientId identity) /\
    tracked this1 clientId (or_string (info_alias s) (info_name s)) =
      Some (newSubscription s config variables subscriptionId subscriptionType) /\
    addSubscription this clientId query variables subscriptionId subscriptionType =
      Normal (this1,
              if includes (info_fields s) (cfg_key config) then []
              else [log_debug "Injecting missing key field into subscription"]).
Proof.
  intros Hs Hcfg Hnone. unfold addSubscription.
  destruct (obtain_client this clientId) as [client this0] eqn:E.
  pose proof (obtain_client_spec _ _ _ _ E) as (Hc & Hcfg0 & Hother & Hcases).
  pose proof (tracked_obtain _ _ _ clientId (or_string (info_alias s) (info_name s)) _ E)
    as Htr0.
  rewrite Hnone, (tracked_known _ _ _ _ Hc) in Htr0.
  rewrite Hs. rewrite (proj2 (tbl_has_false _ _) Htr0). rewrite Hcfg0, Hcfg.
  assert (client_state this clientId = client) as ->.
  { unfold client_state. now destruct Hcases as [[-> _]|[-> ->]]. }
  do 2 eexists. repeat match goal with |- _ /\ _ => split end.
  8: reflexivity.
  - apply lookup_insert_eq.
  - simpl. now apply tbl_set_absent.
  - reflexivity.
  - exact Hcfg0.
  - intros other identity Hne. rewrite tracked_insert_ne by congruence.
    eapply tracked_obtain; eauto.
  - intros identity Hne. rewrite tracked_insert. simpl.
    rewrite tbl_get_set_ne by congruence.
    rewrite <- (tracked_known _ _ _ _ Hc). eapply tracked_obtain; eauto.
  - rewrite tracked_insert. simpl. apply tbl_get_set_eq.
Qed.

(** Calls other than removals keep a tracked subscription tracked, under
    the same identity, with at most its cursor changed. *)
Lemma tracked_after_keeps (this : StatefulSubscriptions) (c : Call)
    (clientId identity : string) (subscription : Subscription) :
  is_removal c = false ->
  tracked this clientId identity = Some subscription ->
  exists v, tracked (after this c) clientId identity = Some (with_lastValue subscription v).
Proof.
  intros Hc Htr.
  assert (exists v, tracked this clientId identity = Some (with_lastValue subscription v))
    as Hsame.
  { exists (sub_lastValue subscription). now rewrite with_lastValue_same. }
  destruct c as [cid payload|cid query variables sid stype|cid heap result
                |cid|cid sid|cid]; simpl in *; try discriminate; auto.
  - unfold addSubscriptionInit. destruct (obtain_client this cid) as [client this0] eqn:E.
    pose proof (obtain_client_spec _ _ _ _ E) as (Hcl & _).
    pose proof (tracked_obtain _ _ _ clientId identity _ E) as Htr0.
    destruct (String.eqb cid clientId) eqn:Ec.
    + apply String.eqb_eq in Ec. subst cid. rewrite tracked_insert. simpl.
      rewrite <- (tracked_known _ _ _ _ Hcl), Htr0. exact Hsame.
    + apply String.eqb_neq in Ec. rewrite tracked_insert_ne by exact Ec.
      rewrite Htr0. exact Hsame.
  - unfold addSubscription. destruct (obtain_client this cid) as [client this0] eqn:E.
    pose proof (obtain_client_spec _ _ _ _ E) as (Hcl & _).
    pose proof (tracked_obtain _ _ _ clientId identity _ E) as Htr0.
    rewrite <- Htr0 in Hsame.
    destruct (extractSubscriptionQueryInfo query variables) as [[s|]|err]; auto.
    destruct (tbl_has _ (subscriptions client)) eqn:Hhas; auto.
    destruct (subscriptionsConfig this0 !! info_name s) as [config|]; auto.
    destruct (String.eqb cid clientId) eqn:Ec.
    + apply String.eqb_eq in Ec. subst cid. rewrite tracked_insert. simpl.
      rewrite tbl_get_set_ne.
      * rewrite <- (tracked_known _ _ _ _ Hcl). exact Hsame.
      * intros Heq. subst identity. apply tbl_has_false in Hhas.
        rewrite <- Htr0, (tracked_known _ _ _ _ Hcl) in Htr. congruence.
    + apply String.eqb_neq in Ec. rewrite tracked_insert_ne by exact Ec. exact Hsame.
  - destruct (updateSubscriptionState this heap cid result) as [[this' heap']|] eqn:E; auto.
    apply updateSubscriptionState_tracked in E as [Hkeep _].
    destruct (Hkeep _ _ _ Htr) as (v & Hv & _). eauto.
Qed.

Lemma tracked_after_all_keeps (calls : list Call) (this : StatefulSubscriptions)
    (clientId identity : string) (subscription : Subscription) :
  forallb (fun c => negb (is_removal c)) calls = true ->
  tracked this clientId identity = Some subscription ->
  exists v,
    tracked (after_all this calls) clientId identity = Some (with_lastValue subscription v).
Proof.
  revert this subscription. induction calls as [|c calls IH]; intros this subscription Hall Htr.
  - exists (sub_lastValue subscription). simpl. now rewrite with_lastValue_same.
  - simpl in Hall. apply andb_prop in Hall as [Hc Hall].
    apply negb_true_iff in Hc.
    destruct (tracked_after_keeps this c _ _ _ Hc Htr) as [v Hv].
    destruct (IH _ _ Hall Hv) as [w Hw]. exists w.
    unfold after_all in *. simpl. now rewrite Hw, with_lastValue_twice.
Qed.

(** C3: restoration.  For an unknown client nothing is sent.  For a known
    client the texts sent are, first, the connection_init message carrying
    the stored init payload, once, and then one message per tracked
    subscription, in the order of the subscriptions map and whatever the
    cursor, with the recorded id and type and the recovery query as payload
    query.  The order of the map is the order of insertion: a registration
    that tracks a new subscription adds its message after all others, and a
    cursor update moves no entry. *)
Theorem C3_restoration_messages :
  forall this clientId,
    (clients this !! clientId = None -> restoreSubscriptions this clientId = []) /\
    (forall client,
        clients this !! clientId = Some client ->
        restoreSubscriptions this clientId =
        JSON_stringify (JObj [("type", JStr "connection_init"); ("payload", init client)]) ::
        List.map
          (fun subscription =>
             JSON_stringify
               (JObj [("id", match sub_id subscription with
                             | Some i => JStr i
                             | None => JUndefined
                             end);
                      ("type", JStr (sub_type subscription));
                      ("payload",
                       JObj [("query", JStr (buildRecoveryQuery subscription))])]))
          (tbl_values (subscriptions client))) /\
    (forall client query variables subscriptionId subscriptionType s config,
        clients this !! clientId = Some client ->
        extractSubscriptionQueryInfo query variables = Normal (Some s) ->
        subscriptionsConfig this !! info_name s = Some config ->
        tracked this clientId (or_string (info_alias s) (info_name s)) = None ->
        exists this1 logs,
          addSubscription this clientId query variables subscriptionId subscriptionType =
            Normal (this1, logs) /\
          restoreSubscriptions this1 clientId =
          restoreSubscriptions this clientId ++
          [JSON_stringify
             (subscription_message
                (newSubscription s config variables subscriptionId subscriptionType))]) /\
    (forall other heap result this1 heap1 client client1,
        updateSubscriptionState this heap other result = Normal (this1, heap1) ->
        clients this !! clientId = Some client ->
        clients this1 !! clientId = Some client1 ->
        tbl_keys (subscriptions client1) = tbl_keys (subscriptions client)).
Proof.
  intros this clientId. repeat match goal with |- _ /\ _ => split end.
  - intros Hc. unfold restoreSubscriptions. now rewrite Hc.
  - intros client Hc. now apply restoreSubscriptions_known.
  - intros client query variables subscriptionId subscriptionType s config Hc Hs Hcfg Hnone.
    destruct (addSubscription_creates this clientId query variables subscriptionId
                subscriptionType s config Hs Hcfg Hnone)
      as (this1 & client1 & Hc1 & Hsubs & Hinit & _ & _ & _ & _ & Hadd).
    exists this1. eexists. split; [exact Hadd|].
    rewrite (restoreSubscriptions_known _ _ _ Hc1), (restoreSubscriptions_known _ _ _ Hc).
    unfold client_state in Hsubs, Hinit. rewrite Hc in Hsubs, Hinit.
    unfold connection_init_message, tbl_values. rewrite Hsubs, Hinit.
    rewrite !List.map_app. reflexivity.
  - intros other heap result this1 heap1 client client1 Hupd Hc Hc1.
    apply updateSubscriptionState_tracked in Hupd as [_ Hkeys]. eapply Hkeys; eauto.
Qed.

(** ** Key injection and the caller's payload *)

Lemma install_copy_spec (heap : Store) (result : loc) (resultName : string)
    (old : RootValue) (rest : list (string * RootValue)) (copy : JsObject) :
  payloads heap !! result = Some ((resultName, old) :: rest) ->
  payloads (install_copy heap result resultName copy) !! result =
    Some ((resultName, RObject (length (objects heap))) :: rest) /\
  (forall other, other <> result ->
      payloads (install_copy heap result resultName copy) !! other =
      payloads heap !! other) /\
  objects (install_copy heap result resultName copy) !! length (objects heap) = Some copy /\
  (forall l o, objects heap !! l = Some o ->
      objects (install_copy heap result resultName copy) !! l = Some o) /\
  objects heap !! length (objects heap) = None.
Proof.
  intros Hp. unfold install_copy. rewrite Hp. simpl. rewrite String.eqb_refl.
  repeat split.
  - apply list_lookup_insert_eq. eapply lookup_lt_Some. exact Hp.
  - intros other Hne. apply list_lookup_insert_ne. congruence.
  - now rewrite lookup_app_r, Nat.sub_diag by lia.
  - intros l o Hl. rewrite lookup_app_l; auto. eapply lookup_lt_Some. exact Hl.
  - apply lookup_ge_None. lia.
Qed.

(** C1: the key-injection round trip.  A registration that finds the
    descriptor of the root name, tracks a new subscription and whose
    extracted fields lack the descriptor key records the fields with the key
    appended and [injectedKey] true.  From then on, through any calls that
    remove nothing, a result whose sole root key is the identity of that
    subscription and whose data object defines the key field makes the
    cursor that key value, and the data object the payload then holds under
    its root key has no key field. *)
Theorem C1_key_injection_round_trip :
  forall this clientId query variables subscriptionId subscriptionType s config,
    extractSubscriptionQueryInfo query variables = Normal (Some s) ->
    subscriptionsConfig this !! info_name s = Some config ->
    tracked this clientId (or_string (info_alias s) (info_name s)) = None ->
    includes (info_fields s) (cfg_key config) = false ->
    exists this1 logs subscription,
      addSubscription this clientId query variables subscriptionId subscriptionType =
        Normal (this1, logs) /\
      tracked this1 clientId (or_string (info_alias s) (info_name s)) = Some subscription /\
      sub_fields subscription = info_fields s ++ [cfg_key config] /\
      sub_injectedKey subscription = true /\
      forall calls heap result d data keyValue,
        forallb (fun c => negb (is_removal c)) calls = true ->
        payloads heap !! result =
          Some [(or_string (info_alias s) (info_name s), RObject d)] ->
        objects heap !! d = Some data ->
        tbl_get (cfg_key config) data = Some keyValue ->
        keyValue <> JUndefined ->
        exists this3 heap' d' data' subscription',
          updateSubscriptionState (after_all this1 calls) heap clientId result =
            Normal (this3, heap') /\
          tracked this3 clientId (or_string (info_alias s) (info_name s)) =
            Some subscription' /\
          sub_lastValue subscription' = keyValue /\
          payloads heap' !! result =
            Some [(or_string (info_alias s) (info_name s), RObject d')] /\
          objects heap' !! d' = Some data' /\
          tbl_get (cfg_key config) data' = None.
Proof.
  intros this clientId query variables subscriptionId subscriptionType s config
         Hs Hcfg Hnone Hkey.
  destruct (addSubscription_creates this clientId query variables subscriptionId
              subscriptionType s config Hs Hcfg Hnone)
    as (this1 & client1 & _ & _ & _ & Hcfg1 & _ & _ & Htracked & Hadd).
  exists this1. eexists. eexists. split; [exact Hadd|]. split; [exact Htracked|].
  simpl. rewrite Hkey. simpl. repeat split.
  intros calls heap result d data keyValue Hcalls Hp Hd Hdata Hdef.
  destruct (tracked_after_all_keeps calls this1 _ _ _ Hcalls Htracked) as [v Hv].
  unfold tracked in Hv.
  destruct (clients (after_all this1 calls) !! clientId) as [client2|] eqn:Hc2;
    [|discriminate].
  assert (subscriptionsConfig (after_all this1 calls)
            !! sub_name (with_lastValue
                           (newSubscription s config variables subscriptionId
                              subscriptionType) v) = Some config) as Hcfg2.
  { rewrite after_all_config, Hcfg1. exact Hcfg. }
  pose proof (updateSubscriptionState_defined _ heap clientId result client2 _ [] d data
                _ config keyValue Hc2 Hp Hd Hv Hcfg2 Hdata Hdef) as Hupd.
  simpl in Hupd. rewrite Hkey in Hupd. simpl in Hupd.
  destruct (install_copy_spec heap result (or_string (info_alias s) (info_name s))
              (RObject d) [] (tbl_delete (cfg_key config) data) Hp)
    as (Hp' & _ & Hcopy & _ & _).
  do 5 eexists. split; [exact Hupd|].
  rewrite tracked_insert. simpl. rewrite tbl_get_set_eq.
  repeat split; eauto. apply tbl_get_delete_eq.
Qed.

(** C10: stripping installs a copy.  When [updateSubscriptionState] strips
    an injected key, the data object the payload pointed to is left as it
    was, key field included, like every other object of the store; the
    payload's root key is made to point to a new object, which has no key
    field and, under every other field, what the original has; nothing else
    of the payload changes, nor any other payload. *)
Theorem C10_strip_installs_copy :
  forall this heap clientId result client resultName rest d data subscription config
         keyValue,
    clients this !! clientId = Some client ->
    payloads heap !! result = Some ((resultName, RObject d) :: rest) ->
    objects heap !! d = Some data ->
    tbl_get resultName (subscriptions client) = Some subscription ->
    sub_injectedKey subscription = true ->
    subscriptionsConfig this !! sub_name subscription = Some config ->
    tbl_get (cfg_key config) data = Some keyValue ->
    keyValue <> JUndefined ->
    exists this' heap' d' copy,
      updateSubscriptionState this heap clientId result = Normal (this', heap') /\
      objects heap' !! d = Some data /\
      tbl_get (cfg_key config) data = Some keyValue /\
      (forall l o, objects heap !! l = Some o -> objects heap' !! l = Some o) /\
      objects heap !! d' = None /\
      d' <> d /\
      payloads heap' !! result = Some ((resultName, RObject d') :: rest) /\
      objects heap' !! d' = Some copy /\
      tbl_get (cfg_key config) copy = None /\
      (forall field, field <> cfg_key config -> tbl_get field copy = tbl_get field data) /\
      (forall other, other <> result -> payloads heap' !! other = payloads heap !! other).
Proof.
  intros this heap clientId result client resultName rest d data subscription config
         keyValue Hc Hp Hd Hsub Hinj Hcfg Hkey Hdef.
  pose proof (updateSubscriptionState_defined _ heap clientId result client _ rest d data
                _ config keyValue Hc Hp Hd Hsub Hcfg Hkey Hdef) as Hupd.
  rewrite Hinj in Hupd.
  destruct (install_copy_spec heap result resultName (RObject d) rest
              (tbl_delete (cfg_key config) data) Hp)
    as (Hp' & Hother & Hcopy & Hold & Hfresh).
  do 4 eexists. split; [exact Hupd|].
  repeat match goal with |- _ /\ _ => split end; eauto.
  - intros Heq. rewrite Heq in Hfresh. unfold loc, JsObject in *. congruence.
  - apply tbl_get_delete_eq.
  - intros field Hne. apply tbl_get_delete_ne. congruence.
Qed.

Lemma or_string_alias (a name : string) : a <> "" -> or_string (Some a) name = a.
Proof.
  intros Hne. unfold or_string. simpl.
  destruct (String.eqb a "") eqn:E; auto.
  apply String.eqb_eq in E. congruence.
Qed.

(** C5: alias-aware identity.  For a query whose root field carries an
    alias, the descriptor is looked up by the field name: without a
    descriptor for the name nothing is tracked under the alias; with one,
    the subscription is tracked under the alias, with the field name as its
    root name, and no entry appears under the field name.  A result whose
    sole root key is the alias, with a data object defining the key,
    overwrites the cursor of that subscription; a result with any other sole
    root key, the field name included, leaves that subscription as it
    is. *)
Theorem C5_alias_identity :
  forall this clientId query variables subscriptionId subscriptionType s a,
    extractSubscriptionQueryInfo query variables = Normal (Some s) ->
    info_alias s = Some a ->
    a <> "" ->
    tracked this clientId a = None ->
    (subscriptionsConfig this !! info_name s = None ->
     exists this1,
       addSubscription this clientId query variables subscriptionId subscriptionType =
         Normal (this1, []) /\
       tracked this1 clientId a = None) /\
    (forall config,
        subscriptionsConfig this !! info_name s = Some config ->
        exists this1 logs subscription,
          addSubscription this clientId query variables subscriptionId subscriptionType =
            Normal (this1, logs) /\
          tracked this1 clientId a = Some subscription /\
          sub_name subscription = info_name s /\
          sub_alias subscription = Some a /\
          (info_name s <> a ->
           tracked this1 clientId (info_name s) = tracked this clientId (info_name s)) /\
          (forall heap result d data keyValue,
              payloads heap !! result = Some [(a, RObject d)] ->
              objects heap !! d = Some data ->
              tbl_get (cfg_key config) data = Some keyValue ->
              keyValue <> JUndefined ->
              exists this2 heap' subscription',
                updateSubscriptionState this1 heap clientId result = Normal (this2, heap') /\
                tracked this2 clientId a = Some subscription' /\
                sub_lastValue subscription' = keyValue) /\
          (forall heap result rootKey rootValue this2 heap',
              payloads heap !! result = Some [(rootKey, rootValue)] ->
              rootKey <> a ->
              updateSubscriptionState this1 heap clientId result = Normal (this2, heap') ->
              tracked this2 clientId a = Some subscription)).
Proof.
  intros this clientId query variables subscriptionId subscriptionType s a
         Hs Halias Ha Hnone.
  pose proof (or_string_alias a (info_name s) Ha) as Hid. rewrite <- Halias in Hid.
  split.
  - intros Hcfg.
    destruct (addSubscription_unconfigured this clientId query variables
                subscriptionId subscriptionType s Hs Hcfg) as (this1 & Hadd & Hsame).
    exists this1. split; auto. now rewrite Hsame.
  - intros config Hcfg. rewrite <- Hid in Hnone.
    destruct (addSubscription_creates this clientId query variables subscriptionId
                subscriptionType s config Hs Hcfg Hnone)
      as (this1 & client1 & Hc1 & _ & _ & Hcfg1 & _ & Hothers & Htracked & Hadd).
    rewrite Hid in Htracked, Hothers.
    exists this1. eexists. eexists. split; [exact Hadd|]. split; [exact Htracked|].
    repeat match goal with |- _ /\ _ => split end.
    + reflexivity.
    + simpl. rewrite Halias. simpl.
      destruct (String.eqb a "") eqn:E; auto. apply String.eqb_eq in E. congruence.
    + intros Hne. now apply Hothers.
    + intros heap result d data keyValue Hp Hd Hdata Hdef.
      rewrite (tracked_known _ _ _ _ Hc1) in Htracked.
      assert (subscriptionsConfig this1
                !! sub_name (newSubscription s config variables subscriptionId
                               subscriptionType) = Some config) as Hcfg2.
      { rewrite Hcfg1. exact Hcfg. }
      pose proof (updateSubscriptionState_defined _ heap clientId result client1 _ [] d data
                    _ config keyValue Hc1 Hp Hd Htracked Hcfg2 Hdata Hdef) as Hupd.
      do 3 eexists. split; [exact Hupd|].
      rewrite tracked_insert. simpl. rewrite tbl_get_set_eq. split; reflexivity.
    + intros heap result rootKey rootValue this2 heap' Hp Hne Hupd.
      apply updateSubscriptionState_tracked in Hupd as [Hkeep _].
      destruct (Hkeep _ _ _ Htracked) as (v & Hv & [->|(_ & properties & Hp' & Hhead)]).
      * now rewrite with_lastValue_same in Hv.
      * rewrite Hp in Hp'. injection Hp' as <-. simpl in Hhead. congruence.
Qed.

(** ** The constructor and the handshake payload *)

Lemma find_last_app {A} (f : A -> bool) (l : list A) (a : A) :
  List.find f (l ++ [a]) =
  match List.find f l with
  | Some x => Some x
  | None => if f a then Some a else None
  end.
Proof.
  induction l as [|b l IH]; simpl; auto.
  destruct (f b); auto.
Qed.

(** The constructor knows no client, and under each name it holds the
    descriptor of the last entry of the options with that name; a name that
    no entry carries has no descriptor. *)
Theorem constructor_last_descriptor_wins :
  forall options name,
    subscriptionsConfig (new_StatefulSubscriptions options) !! name =
      match List.find (fun o => String.eqb (opt_name o) name) (rev options) with
      | Some o => Some {| cfg_key := opt_key o; cfg_args := opt_args o |}
      | None => None
      end /\
    (forall clientId, clients (new_StatefulSubscriptions options) !! clientId = None).
Proof.
  intros options name. split; [|intros clientId; apply lookup_empty].
  simpl.
  assert (forall acc : gmap string ConfigEntry,
             fold_left
               (fun config subscription =>
                  <[opt_name subscription :=
                      {| cfg_key := opt_key subscription; cfg_args := opt_args subscription |}]>
                    config) options acc !! name =
             match List.find (fun o => String.eqb (opt_name o) name) (rev options) with
             | Some o => Some {| cfg_key := opt_key o; cfg_args := opt_args o |}
             | None => acc !! name
             end) as Hgen.
  { induction options as [|o options IH]; intros acc; simpl; auto.
    rewrite IH, find_last_app.
    destruct (List.find _ (rev options)); auto.
    destruct (String.eqb (opt_name o) name) eqn:E.
    - apply String.eqb_eq in E. subst. apply lookup_insert_eq.
    - apply String.eqb_neq in E. now apply lookup_insert_ne. }
  rewrite Hgen. destruct (List.find _ _); auto.
Qed.

Lemma client_state_known (this : StatefulSubscriptions) (clientId : string)
    (client : ClientState) :
  clients this !! clientId = Some client -> client_state this clientId = client.
Proof. unfold client_state. now intros ->. Qed.

Lemma obtain_client_state (this this0 : StatefulSubscriptions) (clientId : string)
    (client : ClientState) :
  obtain_client this clientId = (client, this0) -> client = client_state this clientId.
Proof.
  intros H. apply obtain_client_spec in H as (_ & _ & _ & [[Hc _]|[Hc ->]]);
    unfold client_state; now rewrite Hc.
Qed.

Lemma addSubscriptionInit_clients (this : StatefulSubscriptions) (clientId : string)
    (payload : JsValue) :
  clients (addSubscriptionInit this clientId payload) =
  <[clientId := {| init := payload;
                   subscriptions := subscriptions (client_state this clientId);
                   ids := ids (client_state this clientId) |}]> (clients this).
Proof.
  unfold addSubscriptionInit, obtain_client, client_state.
  destruct (clients this !! clientId) as [client|]; simpl; auto.
  apply insert_insert_eq.
Qed.

(** [addSubscriptionInit] stores the payload for the client, creating the
    client state if need be and keeping its subscriptions and id index; it
    touches no other client and no descriptor; a later payload replaces an
    earlier one; and the connection_init message of a restoration carries
    the payload stored last. *)
Theorem addSubscriptionInit_records_payload :
  forall this clientId payload,
    clients (addSubscriptionInit this clientId payload) !! clientId =
      Some {| init := payload;
              subscriptions := subscriptions (client_state this clientId);
              ids := ids (client_state this clientId) |} /\
    (forall other, other <> clientId ->
        clients (addSubscriptionInit this clientId payload) !! other =
        clients this !! other) /\
    subscriptionsConfig (addSubscriptionInit this clientId payload) =
      subscriptionsConfig this /\
    (forall earlier,
        addSubscriptionInit (addSubscriptionInit this clientId earlier) clientId payload =
        addSubscriptionInit this clientId payload) /\
    restoreSubscriptions (addSubscriptionInit this clientId payload) clientId =
      JSON_stringify (JObj [("type", JStr "connection_init"); ("payload", payload)]) ::
      List.map (fun subscription => JSON_stringify (subscription_message subscription))
        (tbl_values (subscriptions (client_state this clientId))).
Proof.
  intros this clientId payload.
  pose proof (addSubscriptionInit_clients this clientId payload) as Hclients.
  assert (clients (addSubscriptionInit this clientId payload) !! clientId =
          Some {| init := payload;
                  subscriptions := subscriptions (client_state this clientId);
                  ids := ids (client_state this clientId) |}) as Hc.
  { rewrite Hclients. apply lookup_insert_eq. }
  assert (forall t p, subscriptionsConfig (addSubscriptionInit t clientId p) =
                      subscriptionsConfig t) as Hcfg.
  { intros t p. exact (after_config t (CallAddSubscriptionInit clientId p)). }
  repeat match goal with |- _ /\ _ => split end; auto.
  - intros other Hne. rewrite Hclients. now apply lookup_insert_ne.
  - intros earlier.
    assert (forall t t' : StatefulSubscriptions,
               clients t = clients t' -> subscriptionsConfig t = subscriptionsConfig t' ->
               t = t') as Hext.
    { intros [c1 g1] [c2 g2]; simpl; intros -> ->; reflexivity. }
    apply Hext.
    + rewrite !addSubscriptionInit_clients.
      unfold client_state at 1 2. rewrite addSubscriptionInit_clients, lookup_insert_eq.
      simpl. apply insert_insert_eq.
    + now rewrite !Hcfg.
  - rewrite (restoreSubscriptions_known _ _ _ Hc). reflexivity.
Qed.

(** ** What a registration leaves alone *)

(** [addSubscription] never removes or alters a subscription that is
    tracked, for any client; it leaves every other client's state and the
    handshake payload of its own client as they were. *)
Theorem addSubscription_keeps_what_is_tracked :
  forall this clientId query variables subscriptionId subscriptionType this' logs,
    addSubscription this clientId query variables subscriptionId subscriptionType =
      Normal (this', logs) ->
    (forall other identity subscription,
        tracked this other identity = Some subscription ->
        tracked this' other identity = Some subscription) /\
    (forall other, other <> clientId -> clients this' !! other = clients this !! other) /\
    init (client_state this' clientId) = init (client_state this clientId) /\
    subscriptionsConfig this' = subscriptionsConfig this.
Proof.
  intros this clientId query variables subscriptionId subscriptionType this' logs Hadd.
  unfold addSubscription in Hadd.
  destruct (obtain_client this clientId) as [client this0] eqn:E.
  pose proof (obtain_client_spec _ _ _ _ E) as (Hc & Hcfg & Hother & _).
  pose proof (obtain_client_state _ _ _ _ E) as Hclient.
  assert ((forall other identity subscription,
              tracked this other identity = Some subscription ->
              tracked this0 other identity = Some subscription) /\
          (forall other, other <> clientId -> clients this0 !! other = clients this !! other) /\
          init (client_state this0 clientId) = init (client_state this clientId) /\
          subscriptionsConfig this0 = subscriptionsConfig this) as Hsame.
  { repeat split; auto.
    - intros other identity subscription H. now rewrite (tracked_obtain _ _ _ _ _ _ E).
    - rewrite (client_state_known _ _ _ Hc). now subst client. }
  destruct (extractSubscriptionQueryInfo query variables) as [[s|]|err];
    try (injection Hadd as <- <-; exact Hsame).
  destruct (tbl_has _ (subscriptions client)) eqn:Hhas;
    try (injection Hadd as <- <-; exact Hsame).
  destruct (subscriptionsConfig this0 !! info_name s) as [config|];
    try (injection Hadd as <- <-; exact Hsame).
  injection Hadd as <- <-. destruct Hsame as (Htr & _ & Hinit & _).
  repeat split.
  - intros other identity subscription H. apply Htr in H.
    destruct (String.eqb clientId other) eqn:Ec.
    + apply String.eqb_eq in Ec. subst other. rewrite tracked_insert. simpl.
      rewrite (tracked_known _ _ _ _ Hc) in H.
      rewrite tbl_get_set_ne; auto.
      intros Heq. apply tbl_has_false in Hhas. congruence.
    + apply String.eqb_neq in Ec. now rewrite tracked_insert_ne.
  - intros other Hne. simpl. rewrite lookup_insert_ne by congruence. now apply Hother.
  - unfold client_state at 1. simpl. rewrite lookup_insert_eq. simpl.
    rewrite <- Hinit. now rewrite (client_state_known _ _ _ Hc).
  - exact Hcfg.
Qed.

Lemma find_none_forallb {A} (f : A -> bool) (l : list A) :
  forallb (fun x => negb (f x)) l = true -> List.find f l = None.
Proof.
  induction l as [|a l IH]; simpl; auto.
  destruct (f a); simpl; [discriminate|auto].
Qed.

(** A document that parses but holds no subscription operation (a query,
    a mutation, fragments only) is no error: the introspector reports
    nothing, and [addSubscription] logs nothing and tracks nothing, leaving
    at most the client state it created. *)
Theorem addSubscription_skips_other_operations :
  forall this clientId query variables subscriptionId subscriptionType document,
    parse query = Some document ->
    forallb (fun def => negb (is_subscription_operation def)) document = true ->
    extractSubscriptionQueryInfo query variables = Normal None /\
    exists this',
      addSubscription this clientId query variables subscriptionId subscriptionType =
        Normal (this', []) /\
      clients this' !! clientId = Some (client_state this clientId) /\
      (forall other, other <> clientId -> clients this' !! other = clients this !! other) /\
      (forall other identity, tracked this' other identity = tracked this other identity).
Proof.
  intros this clientId query variables subscriptionId subscriptionType document
         Hparse Hnone.
  assert (extractSubscriptionQueryInfo query variables = Normal None) as Hs.
  { unfold extractSubscriptionQueryInfo, querySubscriptionInfo.
    now rewrite Hparse, (find_none_forallb _ _ Hnone). }
  split; auto.
  unfold addSubscription. destruct (obtain_client this clientId) as [client this0] eqn:E.
  rewrite Hs. exists this0. split; auto.
  pose proof (obtain_client_spec _ _ _ _ E) as (Hc & _ & Hother & _).
  rewrite (obtain_client_state _ _ _ _ E) in Hc.
  repeat split; auto.
  intros other identity. exact (tracked_obtain _ _ _ _ _ _ E).
Qed.

(** ** Results: edge cases and frame *)

(** What a call of [updateSubscriptionState] that returns has done: nothing,
    or the one cursor update, with the copy installed when the key had been
    injected. *)
Lemma updateSubscriptionState_inv (this this' : StatefulSubscriptions) (heap heap' : Store)
    (clientId : string) (result : loc) :
  updateSubscriptionState this heap clientId result = Normal (this', heap') ->
  (this' = this /\ heap' = heap) \/
  exists client resultName root rest subscription config keyValue,
    clients this !! clientId = Some client /\
    payloads heap !! result = Some ((resultName, root) :: rest) /\
    tbl_get resultName (subscriptions client) = Some subscription /\
    subscriptionsConfig this !! sub_name subscription = Some config /\
    read_property heap root (cfg_key config) = Normal keyValue /\
    is_undefined keyValue = false /\
    this' = with_clients this
              (<[clientId :=
                   {| init := init client;
                      subscriptions :=
                        tbl_set resultName (with_lastValue subscription keyValue)
                          (subscriptions client);
                      ids := ids client |}]> (clients this)) /\
    heap' = if sub_injectedKey subscription
            then install_copy heap result resultName
                   (tbl_delete (cfg_key config) (spread heap root))
            else heap.
Proof.
  unfold updateSubscriptionState, extractSubscriptionResultInfo.
  destruct (clients this !! clientId) as [client|] eqn:Hc;
    [|intros [= <- <-]; now left].
  destruct (payloads heap !! result) as [[|[rn root] rest]|] eqn:Hp; simpl;
    try discriminate; [intros [= <- <-]; now left|].
  rewrite String.eqb_refl.
  destruct (tbl_get rn (subscriptions client)) as [sub|] eqn:Hsub;
    [|intros [= <- <-]; now left].
  destruct (subscriptionsConfig this !! sub_name sub) as [config|] eqn:Hcfg;
    [|intros [= <- <-]; now left].
  destruct (read_property heap root (cfg_key config)) as [kv|] eqn:Hkv; simpl;
    [|discriminate].
  destruct (is_undefined kv) eqn:Hu; simpl.
  - rewrite andb_false_r. intros [= <- <-]. now left.
  - rewrite andb_true_r. intros [= <- <-]. right.
    exists client, rn, root, rest, sub, config, kv. repeat split; auto.
Qed.

Lemma updateSubscriptionState_missing_key (this : StatefulSubscriptions) (heap : Store)
    (clientId : string) (result : loc) (client : ClientState) (resultName : string)
    (root : RootValue) (rest : list (string * RootValue))
    (subscription : Subscription) (config : ConfigEntry) :
  clients this !! clientId = Some client ->
  payloads heap !! result = Some ((resultName, root) :: rest) ->
  tbl_get resultName (subscriptions client) = Some subscription ->
  subscriptionsConfig this !! sub_name subscription = Some config ->
  read_property heap root (cfg_key config) = Normal JUndefined ->
  updateSubscriptionState this heap clientId result = Normal (this, heap).
Proof.
  intros Hc Hp Hsub Hcfg Hkey.
  unfold updateSubscriptionState, extractSubscriptionResultInfo.
  rewrite Hc, Hp. simpl. rewrite String.eqb_refl, Hsub, Hcfg. simpl.
  rewrite Hkey. simpl. rewrite andb_false_r. reflexivity.
Qed.

(** The read of a field from a data object of the store gives undefined
    when the object has no own property of that name and Object.prototype
    has no member of that name. *)
Lemma read_property_absent (heap : Store) (d : loc) (data : JsObject) (key : string) :
  objects heap !! d = Some data ->
  tbl_get key data = None ->
  Object_prototype_has key = false ->
  read_property heap (RObject d) key = Normal JUndefined.
Proof.
  intros Hd Hown Hhas. unfold read_property. rewrite Hd.
  now rewrite (obj_get_inherited _ _ Hown), (Object_prototype_get_other _ _ Hhas).
Qed.

(** [updateSubscriptionState] does nothing, and does not throw, for a
    client it does not know, for a payload without keys, for a payload whose
    first root key names no subscription of the client (whatever it holds,
    null included), and for a payload under whose first root key the read
    of the key field gives undefined: registry and store come back as they
    were.  The read gives undefined for a data object that has no own
    property of that name, when the name is none of Object.prototype's
    either, and for a data object that holds undefined under it. *)
Theorem updateSubscriptionState_ignores :
  forall this heap clientId result,
    (clients this !! clientId = None ->
     updateSubscriptionState this heap clientId result = Normal (this, heap)) /\
    (payloads heap !! result = Some [] ->
     updateSubscriptionState this heap clientId result = Normal (this, heap)) /\
    (forall resultName root rest,
        payloads heap !! result = Some ((resultName, root) :: rest) ->
        tracked this clientId resultName = None ->
        updateSubscriptionState this heap clientId result = Normal (this, heap)) /\
    (forall client resultName root rest subscription config,
        clients this !! clientId = Some client ->
        payloads heap !! result = Some ((resultName, root) :: rest) ->
        tbl_get resultName (subscriptions client) = Some subscription ->
        subscriptionsConfig this !! sub_name subscription = Some config ->
        read_property heap root (cfg_key config) = Normal JUndefined ->
        updateSubscriptionState this heap clientId result = Normal (this, heap)) /\
    (forall d data key,
        objects heap !! d = Some data ->
        (tbl_get key data = None /\ Object_prototype_has key = false) \/
        tbl_get key data = Some JUndefined ->
        read_property heap (RObject d) key = Normal JUndefined).
Proof.
  intros this heap clientId result.
  unfold updateSubscriptionState, extractSubscriptionResultInfo.
  repeat match goal with |- _ /\ _ => split end.
  - now intros ->.
  - intros ->. now destruct (clients this !! clientId).
  - intros resultName root rest -> Hnone. unfold tracked in Hnone.
    destruct (clients this !! clientId) as [client|]; auto.
    simpl. now rewrite Hnone.
  - intros client resultName root rest subscription config.
    apply updateSubscriptionState_missing_key.
  - intros d data key Hd [[Hown Hhas]|Hown].
    + now apply read_property_absent with (data := data).
    + unfold read_property, loc, JsObject in *.
      now rewrite Hd, (obj_get_own _ _ _ Hown).
Qed.

(** A result that holds null or undefined under the root key of a tracked
    subscription makes [updateSubscriptionState] throw a TypeError: the key
    is read from the data before the data is looked at. *)
Theorem updateSubscriptionState_throws_on_null_data :
  forall this heap clientId result client resultName root rest subscription config,
    clients this !! clientId = Some client ->
    payloads heap !! result = Some ((resultName, root) :: rest) ->
    root = RNull \/ root = RUndefined ->
    tbl_get resultName (subscriptions client) = Some subscription ->
    subscriptionsConfig this !! sub_name subscription = Some config ->
    updateSubscriptionState this heap clientId result = Abrupt TypeError.
Proof.
  intros this heap clientId result client resultName root rest subscription config
         Hc Hp Hroot Hsub Hcfg.
  unfold updateSubscriptionState, extractSubscriptionResultInfo.
  rewrite Hc, Hp. simpl. rewrite String.eqb_refl, Hsub, Hcfg.
  now destruct Hroot as [-> | ->].
Qed.

(** A call of [updateSubscriptionState] that returns changes nothing but
    cursors of the client's subscriptions: descriptors, other clients, the
    handshake payload, the id index and the order of the subscriptions map
    are as before, and every subscription is what it was up to its cursor.
    In the store, every data object is left as it was, every other payload
    too, and the payload of the call keeps its keys and all it holds beyond
    its first key. *)
Theorem updateSubscriptionState_frame :
  forall this heap clientId result this' heap',
    updateSubscriptionState this heap clientId result = Normal (this', heap') ->
    subscriptionsConfig this' = subscriptionsConfig this /\
    (forall other, other <> clientId -> clients this' !! other = clients this !! other) /\
    (clients this !! clientId = None -> clients this' !! clientId = None) /\
    (forall client,
        clients this !! clientId = Some client ->
        exists client',
          clients this' !! clientId = Some client' /\
          init client' = init client /\
          ids client' = ids client /\
          tbl_keys (subscriptions client') = tbl_keys (subscriptions client) /\
          forall identity subscription,
            tbl_get identity (subscriptions client) = Some subscription ->
            exists v,
              tbl_get identity (subscriptions client') =
              Some (with_lastValue subscription v)) /\
    (forall l o, objects heap !! l = Some o -> objects heap' !! l = Some o) /\
    (forall other, other <> result -> payloads heap' !! other = payloads heap !! other) /\
    (forall resultName root rest,
        payloads heap !! result = Some ((resultName, root) :: rest) ->
        exists root', payloads heap' !! result = Some ((resultName, root') :: rest)).
Proof.
  intros this heap clientId result this' heap' Hupd.
  apply updateSubscriptionState_inv in Hupd
    as [[-> ->]|(client & rn & root & rest & sub & config & kv & Hc & Hp & Hsub & Hcfg
                 & Hkv & Hdef & -> & ->)].
  - repeat match goal with |- _ /\ _ => split end; eauto.
    intros client Hc. exists client. repeat split; auto.
    intros identity subscription H. exists (sub_lastValue subscription).
    now rewrite with_lastValue_same.
  - repeat match goal with |- _ /\ _ => split end.
    + reflexivity.
    + intros other Hne. simpl. apply lookup_insert_ne. congruence.
    + congruence.
    + intros client0 Hc0. rewrite Hc in Hc0. injection Hc0 as <-.
      eexists. split; [simpl; apply lookup_insert_eq|]. simpl. repeat split.
      * apply tbl_keys_set_present. apply tbl_has_true. eauto.
      * intros identity subscription H.
        destruct (String.eqb rn identity) eqn:E.
        -- apply String.eqb_eq in E. subst identity. rewrite tbl_get_set_eq.
           exists kv. congruence.
        -- apply String.eqb_neq in E. rewrite tbl_get_set_ne by exact E.
           exists (sub_lastValue subscription). now rewrite with_lastValue_same.
    + intros l o Hl. destruct (sub_injectedKey sub); auto.
      now apply (install_copy_spec heap result rn root rest _ Hp).
    + intros other Hne. destruct (sub_injectedKey sub); auto.
      now apply (install_copy_spec heap result rn root rest _ Hp).
    + intros rn' root' rest' Hp'. rewrite Hp in Hp'. injection Hp' as <- <- <-.
      destruct (sub_injectedKey sub); eauto.
      eexists. apply (install_copy_spec heap result rn root rest _ Hp).
Qed.

(** The cursor is the key value of the last result that defined one: a
    second result overwrites the value of the first with no comparison of
    the two, and a result in which the read of the key field gives
    undefined then leaves it. *)
Theorem cursor_last_write_wins :
  forall this clientId client resultName subscription config
         heap1 result1 d1 rest1 data1 value1 heap2 result2 d2 rest2 data2 value2,
    clients this !! clientId = Some client ->
    tbl_get resultName (subscriptions client) = Some subscription ->
    subscriptionsConfig this !! sub_name subscription = Some config ->
    payloads heap1 !! result1 = Some ((resultName, RObject d1) :: rest1) ->
    objects heap1 !! d1 = Some data1 ->
    tbl_get (cfg_key config) data1 = Some value1 ->
    value1 <> JUndefined ->
    payloads heap2 !! result2 = Some ((resultName, RObject d2) :: rest2) ->
    objects heap2 !! d2 = Some data2 ->
    tbl_get (cfg_key config) data2 = Some value2 ->
    value2 <> JUndefined ->
    exists this1 heap1' this2 heap2',
      updateSubscriptionState this heap1 clientId result1 = Normal (this1, heap1') /\
      tracked this1 clientId resultName = Some (with_lastValue subscription value1) /\
      updateSubscriptionState this1 heap2 clientId result2 = Normal (this2, heap2') /\
      tracked this2 clientId resultName = Some (with_lastValue subscription value2) /\
      forall heap3 result3 root3 rest3,
        payloads heap3 !! result3 = Some ((resultName, root3) :: rest3) ->
        read_property heap3 root3 (cfg_key config) = Normal JUndefined ->
        updateSubscriptionState this2 heap3 clientId result3 = Normal (this2, heap3).
Proof.
  intros this clientId client resultName subscription config
         heap1 result1 d1 rest1 data1 value1 heap2 result2 d2 rest2 data2 value2
         Hc Hsub Hcfg Hp1 Hd1 Hk1 Hdef1 Hp2 Hd2 Hk2 Hdef2.
  pose proof (updateSubscriptionState_defined _ heap1 clientId result1 client _ rest1 d1
                data1 _ config value1 Hc Hp1 Hd1 Hsub Hcfg Hk1 Hdef1) as Hupd1.
  set (client1 := {| init := init client;
                     subscriptions :=
                       tbl_set resultName (with_lastValue subscription value1)
                         (subscriptions client);
                     ids := ids client |}) in *.
  set (this1 := with_clients this (<[clientId := client1]> (clients this))) in *.
  assert (clients this1 !! clientId = Some client1) as Hc1
    by (simpl; apply lookup_insert_eq).
  assert (tbl_get resultName (subscriptions client1) =
          Some (with_lastValue subscription value1)) as Hsub1
    by (simpl; apply tbl_get_set_eq).
  pose proof (updateSubscriptionState_defined this1 heap2 clientId result2 client1 _ rest2
                d2 data2 _ config value2 Hc1 Hp2 Hd2 Hsub1 Hcfg Hk2 Hdef2) as Hupd2.
  rewrite with_lastValue_twice in Hupd2.
  set (client2 := {| init := init client1;
                     subscriptions :=
                       tbl_set resultName (with_lastValue subscription value2)
                         (subscriptions client1);
                     ids := ids client1 |}) in *.
  set (this2 := with_clients this1 (<[clientId := client2]> (clients this1))) in *.
  do 4 eexists. split; [exact Hupd1|]. split; [now rewrite (tracked_known _ _ _ _ Hc1)|].
  split; [exact Hupd2|].
  assert (clients this2 !! clientId = Some client2) as Hc2
    by (simpl; apply lookup_insert_eq).
  assert (tbl_get resultName (subscriptions client2) =
          Some (with_lastValue subscription value2)) as Hsub2
    by (simpl; apply tbl_get_set_eq).
  split; [now rewrite (tracked_known _ _ _ _ Hc2)|].
  intros heap3 result3 root3 rest3 Hp3 Hk3.
  apply (updateSubscriptionState_missing_key this2 heap3 clientId result3 client2 resultName
           root3 rest3 _ config Hc2 Hp3 Hsub2); auto.
Qed.

(** When the query selects the key itself, nothing is injected and
    nothing is ever stripped: the fields are recorded as extracted, the flag
    is false, no log is written; and from then on, through any calls that
    remove nothing, a result under the identity of that subscription leaves
    the caller's store as it is, while a defined key value still becomes the
    cursor. *)
Theorem selected_key_is_never_stripped :
  forall this clientId query variables subscriptionId subscriptionType s config,
    extractSubscriptionQueryInfo query variables = Normal (Some s) ->
    subscriptionsConfig this !! info_name s = Some config ->
    tracked this clientId (or_string (info_alias s) (info_name s)) = None ->
    includes (info_fields s) (cfg_key config) = true ->
    exists this1 subscription,
      addSubscription this clientId query variables subscriptionId subscriptionType =
        Normal (this1, []) /\
      tracked this1 clientId (or_string (info_alias s) (info_name s)) = Some subscription /\
      sub_fields subscription = info_fields s /\
      sub_injectedKey subscription = false /\
      forall calls heap result root rest,
        forallb (fun c => negb (is_removal c)) calls = true ->
        payloads heap !! result =
          Some ((or_string (info_alias s) (info_name s), root) :: rest) ->
        (forall this3 heap',
            updateSubscriptionState (after_all this1 calls) heap clientId result =
              Normal (this3, heap') ->
            heap' = heap) /\
        (forall d data keyValue,
            root = RObject d ->
            objects heap !! d = Some data ->
            tbl_get (cfg_key config) data = Some keyValue ->
            keyValue <> JUndefined ->
            exists this3 subscription',
              updateSubscriptionState (after_all this1 calls) heap clientId result =
                Normal (this3, heap) /\
              tracked this3 clientId (or_string (info_alias s) (info_name s)) =
                Some subscription' /\
              sub_lastValue subscription' = keyValue).
Proof.
  intros this clientId query variables subscriptionId subscriptionType s config
         Hs Hcfg Hnone Hkey.
  destruct (addSubscription_creates this clientId query variables subscriptionId
              subscriptionType s config Hs Hcfg Hnone)
    as (this1 & client1 & _ & _ & _ & Hcfg1 & _ & _ & Htracked & Hadd).
  rewrite Hkey in Hadd.
  exists this1. eexists. split; [exact Hadd|]. split; [exact Htracked|].
  simpl. rewrite Hkey. simpl. split; [reflexivity|]. split; [reflexivity|].
  intros calls heap result root rest Hcalls Hp0. split.
  - intros this3 heap' Hupd.
    destruct (tracked_after_all_keeps calls this1 _ _ _ Hcalls Htracked) as [v Hv].
    apply updateSubscriptionState_inv in Hupd
      as [[_ ->]|(client & rn & root' & rest' & sub & cfg & kv & Hc & Hp & Hsub & _ & _
                  & _ & _ & ->)]; auto.
    rewrite Hp0 in Hp. injection Hp as <- <- <-.
    rewrite (tracked_known _ _ _ _ Hc), Hsub in Hv. injection Hv as ->.
    simpl. now rewrite Hkey.
  - intros d data keyValue -> Hd Hdata Hdef.
    destruct (tracked_after_all_keeps calls this1 _ _ _ Hcalls Htracked) as [v Hv].
    unfold tracked in Hv.
    destruct (clients (after_all this1 calls) !! clientId) as [client2|] eqn:Hc2;
      [|discriminate].
    assert (subscriptionsConfig (after_all this1 calls)
              !! sub_name (with_lastValue
                             (newSubscription s config variables subscriptionId
                                subscriptionType) v) = Some config) as Hcfg2.
    { rewrite after_all_config, Hcfg1. exact Hcfg. }
    pose proof (updateSubscriptionState_defined _ heap clientId result client2 _ rest d data
                  _ config keyValue Hc2 Hp0 Hd Hv Hcfg2 Hdata Hdef) as Hupd.
    simpl in Hupd. rewrite Hkey in Hupd. simpl in Hupd.
    do 2 eexists. split; [exact Hupd|].
    rewrite tracked_insert. simpl. rewrite tbl_get_set_eq. split; reflexivity.
Qed.

(** ** Removal and the id index *)

(** What the id index promises: each of its entries names a subscription
    the client tracks, and that subscription carries the id, which is not
    empty. *)
Definition index_ok (client : ClientState) : Prop :=
  forall i name,
    ids client !! i = Some name ->
    i <> "" /\
    exists subscription,
      tbl_get name (subscriptions client) = Some subscription /\
      sub_id subscription = Some i.

Definition registry_index_ok (this : StatefulSubscriptions) : Prop :=
  forall clientId client, clients this !! clientId = Some client -> index_ok client.

Lemma tbl_delete_absent {V} (k : string) (t : list (string * V)) :
  tbl_get k t = None -> tbl_delete k t = t.
Proof.
  unfold tbl_delete. induction t as [|[k' v'] t IH]; simpl; auto.
  destruct (String.eqb k k'); simpl; [discriminate|].
  intros H. now rewrite IH.
Qed.

Lemma tbl_delete_app {V} (k : string) (t1 t2 : list (string * V)) :
  tbl_delete k (t1 ++ t2) = tbl_delete k t1 ++ tbl_delete k t2.
Proof. unfold tbl_delete. apply List.filter_app. Qed.

Lemma with_clients_twice (this : StatefulSubscriptions) (a b : gmap string ClientState) :
  with_clients (with_clients this a) b = with_clients this b.
Proof. reflexivity. Qed.

Lemma truthy_string_Some (o : option string) (x : string) :
  truthy_string o = Some x <-> o = Some x /\ x <> "".
Proof.
  destruct o as [a|]; simpl.
  - destruct (String.eqb a "") eqn:E.
    + apply String.eqb_eq in E. subst. split; [discriminate|]. intros [[= <-] H]. congruence.
    + apply String.eqb_neq in E. split.
      * intros [= <-]. auto.
      * now intros [[= <-] _].
  - split; [discriminate|]. now intros [? _].
Qed.

(** [removeAllSubscriptions] does nothing for a client it does not know
    (it does not create one); for a known client it empties the
    subscriptions map and the id index, keeps the client and its handshake
    payload, and touches no other client; a restoration afterwards sends the
    connection_init message alone. *)
Theorem removeAllSubscriptions_clears :
  forall this clientId,
    (clients this !! clientId = None -> removeAllSubscriptions this clientId = this) /\
    (forall client,
        clients this !! clientId = Some client ->
        clients (removeAllSubscriptions this clientId) !! clientId =
          Some {| init := init client; subscriptions := []; ids := ∅ |} /\
        restoreSubscriptions (removeAllSubscriptions this clientId) clientId =
          [JSON_stringify
             (JObj [("type", JStr "connection_init"); ("payload", init client)])]) /\
    (forall identity, tracked (removeAllSubscriptions this clientId) clientId identity = None) /\
    (forall other, other <> clientId ->
        clients (removeAllSubscriptions this clientId) !! other = clients this !! other) /\
    subscriptionsConfig (removeAllSubscriptions this clientId) = subscriptionsConfig this.
Proof.
  intros this clientId. unfold removeAllSubscriptions, tracked.
  repeat match goal with |- _ /\ _ => split end.
  - now intros ->.
  - intros client Hc. rewrite Hc.
    assert (clients
              (with_clients this
                 (<[clientId := {| init := init client; subscriptions := []; ids := ∅ |}]>
                    (clients this))) !! clientId =
            Some {| init := init client; subscriptions := []; ids := ∅ |}) as Hc'
      by (simpl; apply lookup_insert_eq).
    split; auto. now rewrite (restoreSubscriptions_known _ _ _ Hc').
  - intros identity. destruct (clients this !! clientId) as [client|] eqn:Hc.
    + simpl. now rewrite lookup_insert_eq.
    + now rewrite Hc.
  - intros other Hne. destruct (clients this !! clientId); auto.
    simpl. apply lookup_insert_ne. congruence.
  - now destruct (clients this !! clientId).
Qed.

(** [removeSubscription] does nothing for an empty id, an unknown client or
    an id the client's index does not hold.  For an indexed id it deletes
    the subscription the index names and the index entry, and nothing else:
    the other subscriptions of the client, its other index entries, its
    handshake payload and the other clients stay. *)
Theorem removeSubscription_by_id :
  forall this clientId subscriptionId,
    (subscriptionId = "" -> removeSubscription this clientId subscriptionId = this) /\
    (clients this !! clientId = None ->
     removeSubscription this clientId subscriptionId = this) /\
    (forall client,
        clients this !! clientId = Some client ->
        ids client !! subscriptionId = None ->
        removeSubscription this clientId subscriptionId = this) /\
    (forall client name,
        clients this !! clientId = Some client ->
        subscriptionId <> "" ->
        ids client !! subscriptionId = Some name ->
        name <> "" ->
        clients (removeSubscription this clientId subscriptionId) !! clientId =
          Some {| init := init client;
                  subscriptions := tbl_delete name (subscriptions client);
                  ids := delete subscriptionId (ids client) |} /\
        tracked (removeSubscription this clientId subscriptionId) clientId name = None /\
        (forall identity,
            identity <> name ->
            tracked (removeSubscription this clientId subscriptionId) clientId identity =
            tracked this clientId identity) /\
        (forall other,
            other <> clientId ->
            clients (removeSubscription this clientId subscriptionId) !! other =
            clients this !! other) /\
        subscriptionsConfig (removeSubscription this clientId subscriptionId) =
          subscriptionsConfig this).
Proof.
  intros this clientId subscriptionId. unfold removeSubscription.
  repeat match goal with |- _ /\ _ => split end.
  - now intros ->.
  - intros ->. now destruct (String.eqb subscriptionId "").
  - intros client -> ->. now destruct (String.eqb subscriptionId "").
  - intros client name Hc Hsid Hid Hname.
    apply String.eqb_neq in Hsid. rewrite Hsid, Hc, Hid.
    rewrite (proj2 (truthy_string_Some (Some name) name) (conj eq_refl Hname)).
    repeat match goal with |- _ /\ _ => split end.
    + simpl. apply lookup_insert_eq.
    + rewrite tracked_insert. simpl. apply tbl_get_delete_eq.
    + intros identity Hne. rewrite tracked_insert. simpl.
      rewrite tbl_get_delete_ne by congruence. now rewrite (tracked_known _ _ _ _ Hc).
    + intros other Hne. simpl. apply lookup_insert_ne. congruence.
    + reflexivity.
Qed.

(** Registering and removing cancel out: when a known client registers a
    new subscription under a transport id its index does not hold yet, and
    that id is then removed, the registry is exactly what it was before the
    registration. *)
Theorem register_then_remove_restores :
  forall this clientId query variables subscriptionId subscriptionType s config client,
    extractSubscriptionQueryInfo query variables = Normal (Some s) ->
    subscriptionsConfig this !! info_name s = Some config ->
    clients this !! clientId = Some client ->
    tbl_get (or_string (info_alias s) (info_name s)) (subscriptions client) = None ->
    or_string (info_alias s) (info_name s) <> "" ->
    subscriptionId <> "" ->
    ids client !! subscriptionId = None ->
    exists this1 logs,
      addSubscription this clientId query variables (Some subscriptionId) subscriptionType =
        Normal (this1, logs) /\
      tracked this1 clientId (or_string (info_alias s) (info_name s)) =
        Some (newSubscription s config variables (Some subscriptionId) subscriptionType) /\
      removeSubscription this1 clientId subscriptionId = this.
Proof.
  intros this clientId query variables subscriptionId subscriptionType s config client
         Hs Hcfg Hc Hnone Hidentity Hsid Hfree.
  unfold addSubscription.
  rewrite (obtain_client_known _ _ _ Hc), Hs, (proj2 (tbl_has_false _ _) Hnone), Hcfg.
  assert (truthy_string (Some subscriptionId) = Some subscriptionId) as Htruthy
    by (apply truthy_string_Some; auto).
  rewrite Htruthy.
  do 2 eexists. split; [reflexivity|]. split.
  - rewrite tracked_insert. simpl. apply tbl_get_set_eq.
  - unfold removeSubscription. apply String.eqb_neq in Hsid. rewrite Hsid.
    simpl. rewrite lookup_insert_eq. simpl. rewrite lookup_insert_eq.
    rewrite (proj2 (truthy_string_Some _ _) (conj eq_refl Hidentity)).
    rewrite with_clients_twice, insert_insert_eq.
    rewrite (tbl_set_absent _ _ _ Hnone), tbl_delete_app, (tbl_delete_absent _ _ Hnone).
    unfold tbl_delete at 1. simpl. rewrite String.eqb_refl. simpl. rewrite app_nil_r.
    rewrite (delete_insert_id _ _ _ Hfree).
    assert ({| init := init client; subscriptions := subscriptions client;
               ids := ids client |} = client) as -> by now destruct client.
    rewrite (insert_id _ _ _ Hc). apply with_clients_same.
Qed.

Lemma registry_index_ok_insert (this : StatefulSubscriptions) (clientId : string)
    (client : ClientState) :
  registry_index_ok this ->
  index_ok client ->
  registry_index_ok (with_clients this (<[clientId := client]> (clients this))).
Proof.
  intros Hok Hclient other c. simpl.
  destruct (String.eqb clientId other) eqn:E.
  - apply String.eqb_eq in E. subst. rewrite lookup_insert_eq. now intros [= <-].
  - apply String.eqb_neq in E. rewrite lookup_insert_ne by exact E. apply Hok.
Qed.

Lemma index_ok_createClientState : index_ok createClientState.
Proof. intros i name. simpl. rewrite lookup_empty. discriminate. Qed.

Lemma registry_index_ok_obtain (this this0 : StatefulSubscriptions) (clientId : string)
    (client : ClientState) :
  registry_index_ok this ->
  obtain_client this clientId = (client, this0) ->
  registry_index_ok this0 /\ index_ok client.
Proof.
  intros Hok H. unfold obtain_client in H.
  destruct (clients this !! clientId) as [c|] eqn:E; injection H as <- <-.
  - split; auto. exact (Hok _ _ E).
  - split; [|apply index_ok_createClientState].
    apply registry_index_ok_insert; auto. apply index_ok_createClientState.
Qed.

Lemma registry_index_ok_after (this : StatefulSubscriptions) (c : Call) :
  registry_index_ok this -> registry_index_ok (after this c).
Proof.
  intros Hok.
  destruct c as [clientId payload|clientId query variables sid stype|clientId heap result
                |clientId|clientId sid|clientId]; simpl; auto.
  - unfold addSubscriptionInit. destruct (obtain_client this clientId) as [client this0] eqn:E.
    destruct (registry_index_ok_obtain _ _ _ _ Hok E) as [Hok0 Hclient].
    apply registry_index_ok_insert; auto.
  - unfold addSubscription. destruct (obtain_client this clientId) as [client this0] eqn:E.
    destruct (registry_index_ok_obtain _ _ _ _ Hok E) as [Hok0 Hclient].
    destruct (extractSubscriptionQueryInfo query variables) as [[s|]|err]; auto.
    destruct (tbl_has _ (subscriptions client)) eqn:Hhas; auto.
    apply tbl_has_false in Hhas.
    destruct (subscriptionsConfig this0 !! info_name s) as [config|] eqn:Hcfg; auto.
    apply registry_index_ok_insert; auto.
    intros i name. simpl.
    assert (forall name',
               ids client !! i = Some name' ->
               i <> "" /\
               exists subscription,
                 tbl_get name'
                   (tbl_set (or_string (info_alias s) (info_name s))
                      (newSubscription s config variables sid stype) (subscriptions client))
                 = Some subscription /\ sub_id subscription = Some i) as Hold.
    { intros name' Hi. destruct (Hclient _ _ Hi) as (Hne & sub & Hsub & Hid).
      split; auto. exists sub. split; auto.
      rewrite tbl_get_set_ne; auto. congruence. }
    destruct (truthy_string sid) as [i'|] eqn:Hsid; [|apply Hold].
    destruct (String.eqb i' i) eqn:E'.
    + apply String.eqb_eq in E'. subst i'. rewrite lookup_insert_eq. intros [= <-].
      apply truthy_string_Some in Hsid as Hsid'. split; [tauto|].
      eexists. split; [apply tbl_get_set_eq|]. simpl. exact Hsid.
    + apply String.eqb_neq in E'. rewrite lookup_insert_ne by exact E'. apply Hold.
  - destruct (updateSubscriptionState this heap clientId result) as [[this' heap']|] eqn:E;
      auto.
    apply updateSubscriptionState_inv in E
      as [[-> _]|(client & rn & root & rest & sub & config & kv & Hc & _ & Hsub & _ & _ & _
                  & -> & _)]; auto.
    apply registry_index_ok_insert; auto.
    intros i name. simpl. intros Hi.
    destruct (Hok _ _ Hc _ _ Hi) as (Hne & sub' & Hsub' & Hid). split; auto.
    destruct (String.eqb rn name) eqn:E'.
    + apply String.eqb_eq in E'. subst name. rewrite tbl_get_set_eq.
      eexists. split; [reflexivity|]. simpl. congruence.
    + apply String.eqb_neq in E'. rewrite tbl_get_set_ne by exact E'. eauto.
  - unfold removeSubscription. destruct (String.eqb sid ""); auto.
    destruct (clients this !! clientId) as [client|] eqn:Hc; auto.
    destruct (truthy_string (ids client !! sid)) as [name|] eqn:Hname; auto.
    apply truthy_string_Some in Hname as [Hname _].
    apply registry_index_ok_insert; auto.
    intros i name'. simpl. intros Hi.
    destruct (String.eqb sid i) eqn:E'.
    + apply String.eqb_eq in E'. subst i. rewrite lookup_delete_eq in Hi. discriminate.
    + apply String.eqb_neq in E'. rewrite lookup_delete_ne in Hi by exact E'.
      destruct (Hok _ _ Hc _ _ Hi) as (Hne & sub' & Hsub' & Hid). split; auto.
      exists sub'. split; auto. rewrite tbl_get_delete_ne; auto.
      intros ->. destruct (Hok _ _ Hc _ _ Hname) as (_ & sub & Hsub & Hid').
      congruence.
  - unfold removeAllSubscriptions. destruct (clients this !! clientId) as [client|]; auto.
    apply registry_index_ok_insert; auto.
    intros i name. simpl. rewrite lookup_empty. discriminate.
Qed.

(** The id index is sound in every registry built by the constructor and
    driven by any calls: an index entry names a subscription the client
    tracks, which carries that id, so that a removal by an indexed id
    removes the subscription registered under it. *)
Theorem id_index_sound :
  forall options calls clientId client subscriptionId name,
    clients (after_all (new_StatefulSubscriptions options) calls) !! clientId =
      Some client ->
    ids client !! subscriptionId = Some name ->
    subscriptionId <> "" /\
    (exists subscription,
        tracked (after_all (new_StatefulSubscriptions options) calls) clientId name =
          Some subscription /\
        sub_id subscription = Some subscriptionId) /\
    (name <> "" ->
     tracked
       (removeSubscription (after_all (new_StatefulSubscriptions options) calls)
          clientId subscriptionId) clientId name = None).
Proof.
  intros options calls clientId client subscriptionId name Hc Hi.
  assert (registry_index_ok (after_all (new_StatefulSubscriptions options) calls)) as Hok.
  { assert (forall cs this, registry_index_ok this -> registry_index_ok (after_all this cs))
      as Hall.
    { induction cs as [|c cs IH]; intros this H; auto.
      unfold after_all in *. simpl. apply IH. now apply registry_index_ok_after. }
    apply Hall. intros c cl. simpl. rewrite lookup_empty. discriminate. }
  destruct (Hok _ _ Hc _ _ Hi) as (Hne & sub & Hsub & Hid).
  split; auto. split.
  - exists sub. now rewrite (tracked_known _ _ _ _ Hc).
  - intros Hname. unfold removeSubscription.
    apply String.eqb_neq in Hne. rewrite Hne, Hc, Hi.
    rewrite (proj2 (truthy_string_Some (Some name) name) (conj eq_refl Hname)).
    rewrite tracked_insert. simpl. apply tbl_get_delete_eq.
Qed.

Lemma after_client_known (this : StatefulSubscriptions) (c : Call) (clientId : string) :
  is_Some (clients this !! clientId) -> is_Some (clients (after this c) !! clientId).
Proof.
  intros Hk.
  assert (forall (t : StatefulSubscriptions) cid cl,
             is_Some (clients t !! clientId) ->
             is_Some (clients (with_clients t (<[cid := cl]> (clients t))) !! clientId))
    as Hins.
  { intros t cid cl H. simpl. destruct (String.eqb cid clientId) eqn:E.
    - apply String.eqb_eq in E. subst. rewrite lookup_insert_eq. eauto.
    - apply String.eqb_neq in E. now rewrite lookup_insert_ne. }
  assert (forall cid cl t0,
             obtain_client this cid = (cl, t0) -> is_Some (clients t0 !! clientId))
    as Hobtain.
  { intros cid cl t0 E. unfold obtain_client in E.
    destruct (clients this !! cid); injection E as <- <-; auto. }
  destruct c as [cid payload|cid query variables sid stype|cid heap result
                |cid|cid sid|cid]; simpl; auto.
  - unfold addSubscriptionInit. destruct (obtain_client this cid) as [client this0] eqn:E.
    apply Hins. eapply Hobtain; eauto.
  - unfold addSubscription. destruct (obtain_client this cid) as [client this0] eqn:E.
    pose proof (Hobtain _ _ _ E) as H0.
    destruct (extractSubscriptionQueryInfo query variables) as [[s|]|err]; auto.
    destruct (tbl_has _ _); auto.
    destruct (subscriptionsConfig this0 !! info_name s); auto.
  - destruct (updateSubscriptionState this heap cid result) as [[this' heap']|] eqn:E; auto.
    apply updateSubscriptionState_inv in E
      as [[-> _]|(client & rn & root & rest & sub & config & kv & _ & _ & _ & _ & _ & _
                  & -> & _)]; auto.
  - unfold removeSubscription. destruct (String.eqb sid ""); auto.
    destruct (clients this !! cid) as [client|]; auto.
    destruct (truthy_string (ids client !! sid)); auto.
  - unfold removeAllSubscriptions. destruct (clients this !! cid) as [client|]; auto.
Qed.

(** No call forgets a client or rewrites a descriptor: through any history
    of calls, removals included, a client the registry knows stays known
    and the descriptor lookup is the one of the start. *)
Theorem clients_and_descriptors_persist :
  forall calls this,
    subscriptionsConfig (after_all this calls) = subscriptionsConfig this /\
    forall clientId,
      is_Some (clients this !! clientId) ->
      is_Some (clients (after_all this calls) !! clientId).
Proof.
  induction calls as [|c calls IH]; intros this; [split; auto|].
  destruct (IH (after this c)) as [Hcfg Hknown].
  unfold after_all in *. simpl. split.
  - rewrite Hcfg. apply after_config.
  - intros clientId H. apply Hknown. now apply after_client_known.
Qed.

(** ** Field extraction *)

(** One turn of the loop of [extractFields], with [depth'] calls left for
    the nested ones. *)
Definition extractFields_step (depth' : nat) (fragmentDefinitions : list DefinitionNode)
    (acc : Completion (list string)) (selection : SelectionNode)
    : Completion (list string) :=
  fields ← acc;
  match selection with
  | Field _ name _ nested =>
      if String.eqb name "__typename" then Normal fields
      else match nested with
           | None => Normal (fields ++ [name])
           | Some _ =>
               nestedFields ← extractFields depth' nested fragmentDefinitions;
               Normal (fields ++ nestedFields)
           end
  | FragmentSpread fragmentName =>
      match List.find (fragment_named fragmentName) fragmentDefinitions with
      | Some (FragmentDefinition _ fragmentSelections) =>
          fragmentFields ←
            extractFields depth' (Some fragmentSelections) fragmentDefinitions;
          Normal (fields ++ fragmentFields)
      | _ => Normal fields
      end
  | InlineFragment inner =>
      fragmentFields ← extractFields depth' (Some inner) fragmentDefinitions;
      Normal (fields ++ fragmentFields)
  end.

(** The leaves of a selection when no fragment definition is at hand:
    a spread gives nothing. *)
Fixpoint selection_leaves (selection : SelectionNode) : list string :=
  match selection with
  | Field _ name _ nested =>
      if String.eqb name "__typename" then []
      else match nested with
           | None => [name]
           | Some selections => List.flat_map selection_leaves selections
           end
  | FragmentSpread _ => []
  | InlineFragment selections => List.flat_map selection_leaves selections
  end.

(** The number of nested calls of [extractFields] a selection asks for,
    without fragment definitions. *)
Fixpoint selection_calls (selection : SelectionNode) : nat :=
  match selection with
  | Field _ name _ nested =>
      if String.eqb name "__typename" then 0
      else match nested with
           | None => 0
           | Some selections => S (list_max (List.map selection_calls selections))
           end
  | FragmentSpread _ => 0
  | InlineFragment selections => S (list_max (List.map selection_calls selections))
  end.

Lemma extractFields_loop (depth : nat) (selections : SelectionSetNode)
    (fragmentDefinitions : list DefinitionNode) :
  extractFields (S depth) (Some selections) fragmentDefinitions =
  fold_left (extractFields_step depth fragmentDefinitions) selections (Normal []).
Proof. reflexivity. Qed.

Lemma fold_step_abrupt (depth : nat) (fragmentDefinitions : list DefinitionNode)
    (selections : list SelectionNode) (e : JsError) :
  fold_left (extractFields_step depth fragmentDefinitions) selections (Abrupt e) = Abrupt e.
Proof. induction selections as [|sel selections IH]; simpl; auto. Qed.

(** What holds of the fields collected so far and is kept by every turn
    holds of the result of the loop. *)
Lemma fold_step_invariant (P : list string -> Prop) (depth : nat)
    (fragmentDefinitions : list DefinitionNode) :
  (forall fields selection fields',
      P fields ->
      extractFields_step depth fragmentDefinitions (Normal fields) selection =
        Normal fields' ->
      P fields') ->
  forall selections fields0 fields,
    P fields0 ->
    fold_left (extractFields_step depth fragmentDefinitions) selections (Normal fields0) =
      Normal fields ->
    P fields.
Proof.
  intros Hstep. induction selections as [|sel selections IH]; intros fields0 fields H0 H.
  - cbn [fold_left] in H. now injection H as <-.
  - cbn [fold_left] in H.
    destruct (extractFields_step depth fragmentDefinitions (Normal fields0) sel)
      as [fields1|e] eqn:E.
    + eapply IH; [|exact H]. eapply Hstep; eauto.
    + rewrite fold_step_abrupt in H. discriminate.
Qed.

Lemma extractFields_safe :
  forall depth selectionSet fragmentDefinitions,
    (forall fields,
        extractFields depth selectionSet fragmentDefinitions = Normal fields ->
        ~ In "__typename" fields) /\
    (forall e,
        extractFields depth selectionSet fragmentDefinitions = Abrupt e ->
        e = RangeError).
Proof.
  induction depth as [|depth IH]; intros selectionSet fragmentDefinitions.
  - split; simpl; [discriminate|]. now intros e [= <-].
  - destruct selectionSet as [selections|];
      [|split; simpl; [intros fields [= <-]; auto | discriminate]].
    rewrite extractFields_loop. split.
    + intros fields H.
      apply (fold_step_invariant (fun fs => ~ In "__typename" fs) depth fragmentDefinitions)
        with (selections := selections) (fields0 := []); auto.
      clear H. intros fs sel fs' Hfs Hstep Hin. simpl in Hstep.
      destruct sel as [alias name arguments nested|spread|inner].
      * destruct (String.eqb name "__typename") eqn:E; [injection Hstep as <-; auto|].
        apply String.eqb_neq in E.
        destruct nested as [nested|].
        -- destruct (extractFields depth (Some nested) fragmentDefinitions) as [nf|] eqn:En;
             simpl in Hstep; [|discriminate].
           injection Hstep as <-. apply in_app_or in Hin as [Hin|Hin]; auto.
           now apply (proj1 (IH _ _) _ En).
        -- injection Hstep as <-. apply in_app_or in Hin as [Hin|[Hin|[]]]; auto.
      * destruct (List.find _ fragmentDefinitions) as [[| n fs0 |]|];
          try (injection Hstep as <-; auto).
        destruct (extractFields depth (Some fs0) fragmentDefinitions) as [nf|] eqn:En;
          simpl in Hstep; [|discriminate].
        injection Hstep as <-. apply in_app_or in Hin as [Hin|Hin]; auto.
        now apply (proj1 (IH _ _) _ En).
      * destruct (extractFields depth (Some inner) fragmentDefinitions) as [nf|] eqn:En;
          simpl in Hstep; [|discriminate].
        injection Hstep as <-. apply in_app_or in Hin as [Hin|Hin]; auto.
        now apply (proj1 (IH _ _) _ En).
    + clear -IH. generalize (@nil string).
      induction selections as [|sel selections IHs]; intros fs e H; cbn [fold_left] in H;
        [discriminate|].
      destruct (extractFields_step depth fragmentDefinitions (Normal fs) sel)
        as [fs1|e1] eqn:E.
      * eapply IHs; eauto.
      * rewrite fold_step_abrupt in H. injection H as <-. simpl in E.
        destruct sel as [alias name arguments nested|spread|inner].
        -- destruct (String.eqb name "__typename"); [discriminate|].
           destruct nested as [nested|]; [|discriminate].
           destruct (extractFields depth (Some nested) fragmentDefinitions) eqn:En;
             simpl in E; [discriminate|].
           injection E as <-. now apply (proj2 (IH _ _) _ En).
        -- destruct (List.find _ fragmentDefinitions) as [[| n fs0 |]|];
             try discriminate.
           destruct (extractFields depth (Some fs0) fragmentDefinitions) eqn:En;
             simpl in E; [discriminate|].
           injection E as <-. now apply (proj2 (IH _ _) _ En).
        -- destruct (extractFields depth (Some inner) fragmentDefinitions) eqn:En;
             simpl in E; [discriminate|].
           injection E as <-. now apply (proj2 (IH _ _) _ En).
Qed.

(** [extractFields] never yields [__typename], at whatever level it stands
    in the selection or in a fragment, and when it fails it is by
    exhaustion of the stack, with a RangeError. *)
Theorem extractFields_never_typename :
  forall depth selectionSet fragmentDefinitions,
    (forall fields,
        extractFields depth selectionSet fragmentDefinitions = Normal fields ->
        ~ In "__typename" fields) /\
    (forall e,
        extractFields depth selectionSet fragmentDefinitions = Abrupt e ->
        e = RangeError).
Proof. exact extractFields_safe. Qed.

Lemma fold_step_monotone (depth : nat) (fragmentDefinitions : list DefinitionNode) :
  (forall selectionSet fields,
      extractFields depth selectionSet fragmentDefinitions = Normal fields ->
      extractFields (S depth) selectionSet fragmentDefinitions = Normal fields) ->
  forall selections fields0 fields,
    fold_left (extractFields_step depth fragmentDefinitions) selections (Normal fields0) =
      Normal fields ->
    fold_left (extractFields_step (S depth) fragmentDefinitions) selections (Normal fields0) =
      Normal fields.
Proof.
  intros Hmono. induction selections as [|sel selections IH]; intros fields0 fields H; auto.
  cbn [fold_left] in H.
  destruct (extractFields_step depth fragmentDefinitions (Normal fields0) sel)
    as [fields1|e] eqn:E; [|rewrite fold_step_abrupt in H; discriminate].
  change (fold_left (extractFields_step (S depth) fragmentDefinitions) selections
            (extractFields_step (S depth) fragmentDefinitions (Normal fields0) sel) =
          Normal fields).
  assert (extractFields_step (S depth) fragmentDefinitions (Normal fields0) sel =
          Normal fields1) as ->; [|now apply IH].
  unfold extractFields_step in *. cbn [mbind Completion_bind] in *.
  destruct sel as [alias name arguments nested|spread|inner].
  - destruct (String.eqb name "__typename"); auto.
    destruct nested as [nested|]; auto.
    destruct (extractFields depth (Some nested) fragmentDefinitions) as [nf|] eqn:En;
      [|discriminate].
    now rewrite (Hmono _ _ En).
  - destruct (List.find _ fragmentDefinitions) as [[| n fs0 |]|]; auto.
    destruct (extractFields depth (Some fs0) fragmentDefinitions) as [nf|] eqn:En;
      [|discriminate].
    now rewrite (Hmono _ _ En).
  - destruct (extractFields depth (Some inner) fragmentDefinitions) as [nf|] eqn:En;
      [|discriminate].
    now rewrite (Hmono _ _ En).
Qed.

Lemma extractFields_deeper (depth : nat) (fragmentDefinitions : list DefinitionNode) :
  forall selectionSet fields,
    extractFields depth selectionSet fragmentDefinitions = Normal fields ->
    extractFields (S depth) selectionSet fragmentDefinitions = Normal fields.
Proof.
  induction depth as [|depth IH]; intros selectionSet fields H; [discriminate|].
  destruct selectionSet as [selections|]; [|exact H].
  rewrite extractFields_loop in *. now apply fold_step_monotone.
Qed.

(** The fields do not depend on the stack: what [extractFields] returns
    with some call depth left, it returns with any greater depth. *)
Theorem extractFields_depth_irrelevant :
  forall depth depth' selectionSet fragmentDefinitions fields,
    depth <= depth' ->
    extractFields depth selectionSet fragmentDefinitions = Normal fields ->
    extractFields depth' selectionSet fragmentDefinitions = Normal fields.
Proof.
  intros depth depth' selectionSet fragmentDefinitions fields Hle H.
  induction Hle; auto. now apply extractFields_deeper.
Qed.

Lemma fold_step_leaves (depth : nat) :
  (forall selections,
      list_max (List.map selection_calls selections) < depth ->
      extractFields depth (Some selections) [] =
      Normal (List.flat_map selection_leaves selections)) ->
  forall selections fields0,
    list_max (List.map selection_calls selections) <= depth ->
    fold_left (extractFields_step depth []) selections (Normal fields0) =
    Normal (fields0 ++ List.flat_map selection_leaves selections).
Proof.
  intros Hdepth. induction selections as [|sel selections IH]; intros fields0 Hmax.
  - simpl. now rewrite app_nil_r.
  - simpl in Hmax.
    assert (selection_calls sel <= depth /\
            list_max (List.map selection_calls selections) <= depth) as [Hsel Hrest] by lia.
    change (fold_left (extractFields_step depth []) selections
              (extractFields_step depth [] (Normal fields0) sel) =
            Normal (fields0 ++ selection_leaves sel ++
                    List.flat_map selection_leaves selections)).
    assert (extractFields_step depth [] (Normal fields0) sel =
            Normal (fields0 ++ selection_leaves sel)) as ->.
    { unfold extractFields_step. cbn [mbind Completion_bind].
      destruct sel as [alias name arguments nested|spread|inner]; simpl in *.
      - destruct (String.eqb name "__typename"); [now rewrite app_nil_r|].
        destruct nested as [nested|]; auto.
        rewrite Hdepth by lia. reflexivity.
      - now rewrite app_nil_r.
      - rewrite Hdepth by lia. reflexivity. }
    rewrite IH by exact Hrest. now rewrite <- app_assoc.
Qed.

(** Without fragment definitions in the document, [extractFields] returns,
    given the call depth the nesting of the selection asks for, and what it
    returns are the leaf names in selection order: nested selections and
    inline fragments flattened, [__typename] and spreads dropped, nothing
    deduplicated. *)
Theorem extractFields_without_fragments :
  forall depth selections,
    list_max (List.map selection_calls selections) < depth ->
    extractFields depth (Some selections) [] =
    Normal (List.flat_map selection_leaves selections).
Proof.
  induction depth as [|depth IH]; intros selections Hmax; [lia|].
  rewrite extractFields_loop.
  assert (forall sels fields0,
             list_max (List.map selection_calls sels) <= depth ->
             fold_left (extractFields_step depth []) sels (Normal fields0) =
             Normal (fields0 ++ List.flat_map selection_leaves sels)) as Hfold.
  { apply fold_step_leaves. exact IH. }
  rewrite Hfold by lia. reflexivity.
Qed.

(** ** The introspector's failures and the shape of what is tracked *)


(** A write under a name other than [__proto__] on an object whose
    prototype is an object with prototype Object.prototype sets an own
    property, whatever the prototype holds under that name. *)
Lemma assign_under_object (inherited properties : JsObject) (k : string) (v : JsValue) :
  k <> "__proto__" ->
  assign (JObjP (JObj inherited) properties) k v =
  JObjP (JObj inherited) (tbl_set k v properties).
Proof.
  intros Hk. unfold assign. simpl. unfold Object_prototype_set.
  apply String.eqb_neq in Hk. rewrite Hk.
  destruct (tbl_has k properties); auto. now destruct (tbl_has k inherited).
Qed.

Lemma fold_assign_under_object {A} (f : A -> JsValue) (entries : list (string * A))
    (inherited acc : JsObject) :
  ~ In "__proto__" (tbl_keys entries) ->
  fold_left (fun obj e => assign obj (fst e) (f (snd e))) entries
    (JObjP (JObj inherited) acc) =
  JObjP (JObj inherited)
    (fold_left (fun obj e => tbl_set (fst e) (f (snd e)) obj) entries acc).
Proof.
  revert acc. induction entries as [|[n a] entries IH]; intros acc Hproto; simpl; auto.
  rewrite assign_under_object by (intros ->; apply Hproto; now left).
  apply IH. intros Hin. apply Hproto. now right.
Qed.

(** A boolean, a number or a string: what the [__proto__] setter
    ignores. *)
Definition is_scalar (v : JsValue) : bool :=
  match v with
  | JBool _ | JNum _ | JStr _ => true
  | _ => false
  end.

(** The arguments of the root field become the params.  When no argument
    is named [__proto__], the params are an object with prototype
    Object.prototype and one property per argument name, in the order of
    the arguments when the names differ; when a name is repeated the last
    argument of that name gives the value, and a name that no argument
    carries is no own property.  A first argument named [__proto__] is no
    property of the params: when its value is an object literal, that
    object becomes the prototype of the params, and its fields are read
    through the params where no argument shadows them; when its value is a
    boolean, a number or a string, the argument is ignored. *)
Theorem extractArguments_order_and_duplicates :
  forall args variables,
    (~ In "__proto__" (tbl_keys args) ->
     exists properties,
       extractArguments args variables = JObj properties /\
       (forall name,
           tbl_get name properties =
           match tbl_get name (rev args) with
           | Some node => Some (extractArgumentValue node variables)
           | None => None
           end) /\
       (NoDup (tbl_keys args) ->
        properties =
        List.map (fun arg => (fst arg, extractArgumentValue (snd arg) variables)) args)) /\
    (forall fields rest,
        args = ("__proto__", ObjectValue fields) :: rest ->
        ~ In "__proto__" (tbl_keys fields) ->
        ~ In "__proto__" (tbl_keys rest) ->
        exists inherited properties,
          extractObjectArguments fields variables = JObj inherited /\
          extractArguments args variables = JObjP (JObj inherited) properties /\
          (forall name,
              tbl_get name properties =
              match tbl_get name (rev rest) with
              | Some node => Some (extractArgumentValue node variables)
              | None => None
              end) /\
          (forall name v,
              tbl_get name properties = None ->
              tbl_get name inherited = Some v ->
              optional_get (extractArguments args variables) name = v)) /\
    (forall node rest,
        args = ("__proto__", node) :: rest ->
        is_scalar (extractArgumentValue node variables) = true ->
        extractArguments args variables = extractArguments rest variables).
Proof.
  intros args variables. unfold extractArguments, ArgumentNode in *.
  repeat match goal with |- _ /\ _ => split end.
  - intros Hproto.
    rewrite (fold_assign_plain (fun node => extractArgumentValue node variables))
      by exact Hproto.
    eexists. split; [reflexivity|]. split.
    + intros name.
      rewrite (fold_tbl_set_get (fun node => extractArgumentValue node variables)).
      destruct (tbl_get name (rev args)); reflexivity.
    + intros Hnd.
      now rewrite (fold_tbl_set_distinct (fun node => extractArgumentValue node variables)).
  - intros fields rest -> Hfields Hrest.
    assert (extractObjectArguments fields variables =
            JObj (fold_left
                    (fun obj e => tbl_set (fst e) (extractArgumentValue (snd e) variables) obj)
                    fields [])) as Hinherited
      by (apply (fold_assign_plain (fun node => extractArgumentValue node variables));
          exact Hfields).
    eexists. eexists. split; [exact Hinherited|].
    cbn [fold_left fst snd].
    change (extractArgumentValue (ObjectValue fields) variables)
      with (extractObjectArguments fields variables).
    rewrite Hinherited, assign_proto by reflexivity. cbn [set_prototype].
    rewrite (fold_assign_under_object (fun node => extractArgumentValue node variables))
      by exact Hrest.
    split; [reflexivity|]. split.
    + intros name.
      rewrite (fold_tbl_set_get (fun node => extractArgumentValue node variables)).
      destruct (tbl_get name (rev rest)); reflexivity.
    + intros name v Hown Hinh. cbn [optional_get chain_get]. now rewrite Hown, Hinh.
  - intros node rest -> Hscalar. cbn [fold_left fst snd].
    rewrite assign_proto by reflexivity.
    now destruct (extractArgumentValue node variables).
Qed.

(** In a registry built by the constructor and driven by any calls, every
    tracked subscription is filed under its alias, or under its root name
    when it has none; its options repeat its root name and the key and fixed
    arguments of its descriptor; its fields include the key; and no client
    holds two entries under one identity. *)
Theorem tracked_subscription_shape :
  forall options calls clientId client identity subscription,
    clients (after_all (new_StatefulSubscriptions options) calls) !! clientId =
      Some client ->
    tbl_get identity (subscriptions client) = Some subscription ->
    NoDup (tbl_keys (subscriptions client)) /\
    identity = or_string (sub_alias subscription) (sub_name subscription) /\
    opt_name (sub_options subscription) = sub_name subscription /\
    exists descriptor,
      subscriptionsConfig (new_StatefulSubscriptions options) !! sub_name subscription =
        Some descriptor /\
      opt_key (sub_options subscription) = cfg_key descriptor /\
      opt_args (sub_options subscription) = cfg_args descriptor /\
      In (cfg_key descriptor) (sub_fields subscription).
Proof.
  intros options calls clientId client identity subscription Hc Hsub.
  pose proof (registry_ok_after_all calls _ (registry_ok_new options) _ _ Hc) as [Hnd Hall].
  rewrite after_all_config in Hall.
  destruct (Hall _ _ (tbl_get_In _ _ _ Hsub)) as (Hid & _ & Hname & Hdescriptor).
  auto.
Qed.

(** A registration without cursor restores the query itself: for a client
    the registry has not seen, with no [lastValue] variable, with params
    whose read under the key gives nothing truthy (the read walks the
    prototype chain of the params) and no fixed argument in the descriptor
    (none, or an empty object), the recovery query of the new subscription
    has no argument list at all, only the alias prefix if any, the root name
    and the tracked fields; and a restoration sends the connection_init
    message, with an undefined payload, and the message of that
    subscription. *)
Theorem registration_without_cursor_restores_the_query :
  forall this clientId query variables subscriptionId subscriptionType s config,
    extractSubscriptionQueryInfo query variables = Normal (Some s) ->
    subscriptionsConfig this !! info_name s = Some config ->
    clients this !! clientId = None ->
    (variables = None \/
     exists vars, variables = Some vars /\ tbl_get "lastValue" vars = None) ->
    ToBoolean (optional_get (info_params s) (cfg_key config)) = false ->
    (cfg_args config = None \/ cfg_args config = Some []) ->
    exists this1 logs subscription,
      addSubscription this clientId query variables subscriptionId subscriptionType =
        Normal (this1, logs) /\
      tracked this1 clientId (or_string (info_alias s) (info_name s)) = Some subscription /\
      buildRecoveryQuery subscription =
        "subscription { "
          +:+ match truthy_string (info_alias s) with Some a => a +:+ ": " | None => "" end
          +:+ info_name s
          +:+ " { " +:+ String.concat ", " (sub_fields subscription) +:+ " } }" /\
      restoreSubscriptions this1 clientId =
        [JSON_stringify (JObj [("type", JStr "connection_init"); ("payload", JUndefined)]);
         JSON_stringify (subscription_message subscription)].
Proof.
  intros this clientId query variables subscriptionId subscriptionType s config
         Hs Hcfg Hc Hvars Hparams Hargs.
  assert (tracked this clientId (or_string (info_alias s) (info_name s)) = None) as Hnone
    by (unfold tracked; now rewrite Hc).
  destruct (addSubscription_creates this clientId query variables subscriptionId
              subscriptionType s config Hs Hcfg Hnone)
    as (this1 & client1 & Hc1 & Hsubs & Hinit & _ & _ & _ & Htracked & Hadd).
  exists this1. eexists. eexists. split; [exact Hadd|]. split; [exact Htracked|].
  assert (initialLastValue variables (info_params s) (cfg_key config) = JNull) as Hcursor.
  { destruct (initialLastValue_cases variables (info_params s) (cfg_key config))
      as (_ & Hcases & _).
    now apply (Hcases Hvars). }
  split.
  - unfold buildRecoveryQuery. simpl. rewrite Hcursor, truthy_string_idem. simpl.
    now destruct Hargs as [-> | ->].
  - rewrite (restoreSubscriptions_known _ _ _ Hc1).
    unfold connection_init_message, tbl_values. rewrite Hsubs, Hinit.
    unfold client_state. rewrite Hc. reflexivity.
Qed.

End Registry.

(** * A small platform for the examples

    Integers for numbers, and a table of parsed documents in place of the
    parser: enough to run the registry on the queries of the examples. *)

Definition demo_parseInt (text : string) : Z :=
  match NilZero.int_of_string text with
  | Some i => Z.of_int i
  | None => 0%Z
  end.

Definition demo_number_truthy (n : Z) : bool := negb (Z.eqb n 0).

Definition quote_char : ascii := ascii_of_nat 34.
Definition backslash_char : ascii := ascii_of_nat 92.

Fixpoint demo_escape (s : string) : string :=
  match s with
  | EmptyString => EmptyString
  | String c s' =>
      if Ascii.eqb c quote_char || Ascii.eqb c backslash_char
      then String backslash_char (String c (demo_escape s'))
      else String c (demo_escape s')
  end.

Definition demo_quote (s : string) : string :=
  String quote_char (demo_escape s) +:+ String quote_char EmptyString.

Fixpoint demo_JSON_stringify (v : JsValue Z) : string :=
  match v with
  | JUndefined _ | JBuiltin _ _ => "undefined"
  | JNull _ => "null"
  | JBool _ b => if b then "true" else "false"
  | JNum _ n => NilZero.string_of_int (Z.to_int n)
  | JStr _ s => demo_quote s
  | JArr _ elements =>
      "[" +:+ String.concat ","
                (List.map (fun e => match e with
                                    | JUndefined _ | JBuiltin _ _ => "null"
                                    | _ => demo_JSON_stringify e
                                    end) elements) +:+ "]"
  | JObj _ properties | JObjP _ _ properties =>
      "{" +:+ String.concat ","
                (List.flat_map
                   (fun p => match snd p with
                             | JUndefined _ | JBuiltin _ _ => []
                             | _ => [demo_quote (fst p) +:+ ":" +:+ demo_JSON_stringify (snd p)]
                             end) properties) +:+ "}"
  end.

(** The built-in objects of the examples know the length of an array and
    of a string and nothing else; a write that reaches one of them does
    what it does on reaching Object.prototype. *)
Definition demo_builtin_get (b : JsValue Z) (k : string) (receiver : JsValue Z)
    : JsValue Z :=
  match b with
  | JArr _ elements =>
      if String.eqb k "length" then JNum Z (Z.of_nat (length elements)) else JUndefined Z
  | JStr _ s =>
      if String.eqb k "length" then JNum Z (Z.of_nat (String.length s)) else JUndefined Z
  | _ => JUndefined Z
  end.

Definition demo_builtin_set (b : JsValue Z) (k : string) (v receiver : JsValue Z)
    : JsValue Z :=
  Object_prototype_set Z k v receiver.

Definition demo_string_entries (s : string) : list (string * JsValue Z) :=
  array_entries Z
    (List.map (fun c => JStr Z (String c EmptyString)) (list_ascii_of_string s)).

Definition leaf (name : string) : SelectionNode := Field None name [] None.

Definition subscription_document (alias : option string) (name : string)
    (arguments : list ArgumentNode) (fields : list string) : DocumentNode :=
  [OperationDefinition subscription_op
     [Field alias name arguments (Some (List.map leaf fields))]].

Definition demo_documents : list (string * DocumentNode) :=
  [ ("subscription { onItems { id } }",
     subscription_document None "onItems" [] ["id"]);
    ("subscription { onItems { id offset data } }",
     subscription_document None "onItems" [] ["id"; "offset"; "data"]);
    ("subscription { onItems(offset: 0) { id offset } }",
     subscription_document None "onItems" [("offset", IntValue "0")] ["id"; "offset"]);
    ("subscription { onItems(offset: 42) { id offset } }",
     subscription_document None "onItems" [("offset", IntValue "42")] ["id"; "offset"]);
    ("subscription { Feed: onItems { id offset } }",
     subscription_document (Some "Feed") "onItems" [] ["id"; "offset"]);
    ("subscription { onUsers { id } }",
     subscription_document None "onUsers" [] ["id"]);
    ("query { getItems { id } }",
     [OperationDefinition query_op [Field None "getItems" [] (Some [leaf "id"])]]);
    ("subscription($toString: Int) { onItems(offset: $toString) { id offset } }",
     subscription_document None "onItems" [("offset", VariableNode "toString")]
       ["id"; "offset"]);
    ("subscription { onItems(__proto__: { offset: 3 }, a: 1) { id offset } }",
     subscription_document None "onItems"
       [("__proto__", ObjectValue [("offset", IntValue "3")]); ("a", IntValue "1")]
       ["id"; "offset"]) ].

Definition demo_parse (query : string) : option DocumentNode :=
  tbl_get query demo_documents.

Definition demo_stackDepth : nat := 64.

(** ** The examples *)

Definition demo_extractSubscriptionQueryInfo :=
  extractSubscriptionQueryInfo Z demo_parseInt demo_parseInt demo_parse demo_stackDepth
      demo_builtin_get demo_builtin_set.

(** C9 at a variable that is not bound and is named after a member of
    Object.prototype, without variables: the argument resolves to that
    member, a function, where the claim has null.  And at an argument named
    [__proto__] whose value is an object literal: the params have no such
    property, the one own property [a], and the object literal as their
    prototype, through which [offset] is read. *)
Theorem C9_unbound_variable_reads_prototype :
  demo_extractSubscriptionQueryInfo
    "subscription($toString: Int) { onItems(offset: $toString) { id offset } }" None =
  Normal (Some {| info_name := "onItems"; info_fields := ["id"; "offset"];
                  info_alias := None;
                  info_params :=
                    JObj Z [("offset", JBuiltin Z "Object.prototype.toString")] |}) /\
  demo_extractSubscriptionQueryInfo
    "subscription { onItems(__proto__: { offset: 3 }, a: 1) { id offset } }" None =
  Normal (Some {| info_name := "onItems"; info_fields := ["id"; "offset"];
                  info_alias := None;
                  info_params :=
                    JObjP Z (JObj Z [("offset", JNum Z 3%Z)]) [("a", JNum Z 1%Z)] |}) /\
  optional_get Z demo_builtin_get
    (JObjP Z (JObj Z [("offset", JNum Z 3%Z)]) [("a", JNum Z 1%Z)]) "offset" =
  JNum Z 3%Z.
Proof. repeat split; vm_compute; reflexivity. Qed.


Definition demo_addSubscription :=
  addSubscription Z demo_parseInt demo_parseInt demo_number_truthy demo_parse demo_stackDepth
      demo_builtin_get demo_builtin_set.

Definition demo_after_all :=
  after_all Z demo_parseInt demo_parseInt demo_number_truthy demo_parse demo_stackDepth
      demo_builtin_get demo_builtin_set demo_string_entries.

(** One descriptor: subscription [onItems], key [offset]. *)
Definition demo_options : list (SubscriptionOptions Z) :=
  [{| opt_name := "onItems"; opt_key := "offset"; opt_args := None |}].

(** The same descriptor with fixed arguments [filter] and [limit]. *)
Definition demo_options_fixed : list (SubscriptionOptions Z) :=
  [{| opt_name := "onItems"; opt_key := "offset";
      opt_args := Some [("filter", JStr Z "important"); ("limit", JNum Z 10%Z)] |}].

Definition demo_descriptor : ConfigEntry Z := {| cfg_key := "offset"; cfg_args := None |}.

Definition info_of (alias : option string) (name : string) (params : JsValue Z)
    (fields : list string) : SubscriptionInfo Z :=
  {| info_name := name; info_fields := fields; info_alias := alias; info_params := params |}.

(** A store with one payload, [{ <rootKey>: { id: "x", offset: <offset> } }]. *)
Definition demo_store (rootKey : string) (offset : Z) : Store Z :=
  {| payloads := [[(rootKey, RObject Z 0)]];
     objects := [[("id", JStr Z "x"); ("offset", JNum Z offset)]] |}.

(** The registry after [onItems] was registered with all three fields under
    transport id 1 and a result with offset 42 was observed, for descriptors
    with fixed arguments. *)
Definition demo_calls : list (Call Z) :=
  [CallAddSubscription Z "client" "subscription { onItems { id offset data } }" None
     (Some "1") None;
   CallUpdateSubscriptionState Z "client" (demo_store "onItems" 42%Z) 0].

Definition demo_tracked : Subscription Z :=
  {| sub_options := {| opt_name := "onItems"; opt_key := "offset";
                       opt_args := Some [("filter", JStr Z "important");
                                         ("limit", JNum Z 10%Z)] |};
     sub_name := "onItems";
     sub_fields := ["id"; "offset"; "data"];
     sub_params := Some (JObj Z []);
     sub_lastValue := JNum Z 42%Z;
     sub_alias := None;
     sub_injectedKey := false;
     sub_id := Some "1";
     sub_type := "start" |}.

(** Calls that remove nothing: the handshake payload arrives, and the same
    subscription is asked for again with all its fields. *)
Definition demo_between : list (Call Z) :=
  [CallAddSubscriptionInit Z "client" (JNull Z);
   CallAddSubscription Z "client" "subscription { onItems { id offset data } }" None
     None None].

(** C1 at the example of the specification: descriptor key [offset], a
    query selecting only [id], then, after the calls above, the result
    [{ onItems: { id: "x", offset: 7 } }]. *)
Lemma C1_key_injection_round_trip_witness :
  exists this1 logs subscription this3 heap' d' data' subscription',
    demo_addSubscription (new_StatefulSubscriptions Z demo_options) "client"
      "subscription { onItems { id } }" None None None = Normal (this1, logs) /\
    tracked Z this1 "client" "onItems" = Some subscription /\
    sub_fields Z subscription = ["id"; "offset"] /\
    sub_injectedKey Z subscription = true /\
    updateSubscriptionState Z demo_builtin_get demo_string_entries (demo_after_all this1
        demo_between)
      (demo_store "onItems" 7%Z) "client" 0 = Normal (this3, heap') /\
    tracked Z this3 "client" "onItems" = Some subscription' /\
    sub_lastValue Z subscription' = JNum Z 7%Z /\
    payloads Z heap' !! 0 = Some [("onItems", RObject Z d')] /\
    objects Z heap' !! d' = Some data' /\
    tbl_get "offset" data' = None.
Proof.
  destruct (C1_key_injection_round_trip Z demo_parseInt demo_parseInt demo_number_truthy
      demo_parse demo_stackDepth demo_builtin_get demo_builtin_set demo_string_entries
      (new_StatefulSubscriptions Z demo_options)
              "client" "subscription { onItems { id } }" None None None
              (info_of None "onItems" (JObj Z []) ["id"]) demo_descriptor
              eq_refl eq_refl eq_refl eq_refl)
    as (this1 & logs & subscription & Hadd & Htracked & Hfields & Hinjected & Hobserve).
  destruct (Hobserve demo_between (demo_store "onItems" 7%Z) 0 0
              [("id", JStr Z "x"); ("offset", JNum Z 7%Z)] (JNum Z 7%Z)
              eq_refl eq_refl eq_refl eq_refl ltac:(discriminate))
    as (this3 & heap' & d' & data' & subscription' & H).
  exists this1, logs, subscription, this3, heap', d', data', subscription'.
  repeat split; solve [assumption | apply H].
Defined.

(** C2 at the example of the specification: fixed arguments [filter] and
    [limit], cursor 42 under key [offset]. *)
Lemma C2_recovery_query_shape_witness :
  tracked Z (demo_after_all (new_StatefulSubscriptions Z demo_options_fixed) demo_calls)
    "client" "onItems" = Some demo_tracked /\
  buildRecoveryQuery Z demo_JSON_stringify demo_tracked =
    "subscription { onItems(offset: 42, filter: " +:+ demo_quote "important"
      +:+ ", limit: 10) { id, offset, data } }" /\
  exists descriptor,
    subscriptionsConfig Z (new_StatefulSubscriptions Z demo_options_fixed)
      !! sub_name Z demo_tracked = Some descriptor /\
    buildRecoveryQuery Z demo_JSON_stringify demo_tracked =
    recovery_query_spec Z demo_JSON_stringify descriptor demo_tracked.
Proof.
  split; [reflexivity|]. split; [reflexivity|].
  apply (C2_recovery_query_shape Z demo_parseInt demo_parseInt demo_number_truthy demo_parse
      demo_stackDepth demo_JSON_stringify demo_builtin_get demo_builtin_set demo_string_entries
      demo_options_fixed demo_calls
           "client" "onItems" demo_tracked).
  reflexivity.
Defined.

(** C3 on the registry of the example: nothing for a client never seen;
    for the known client, the connection_init message and the message of its
    one subscription. *)
Lemma C3_restoration_messages_witness :
  restoreSubscriptions Z demo_JSON_stringify
    (demo_after_all (new_StatefulSubscriptions Z demo_options_fixed) demo_calls) "nobody"
  = [] /\
  restoreSubscriptions Z demo_JSON_stringify
    (demo_after_all (new_StatefulSubscriptions Z demo_options_fixed) demo_calls) "client"
  = [demo_JSON_stringify
       (JObj Z [("type", JStr Z "connection_init"); ("payload", JUndefined Z)]);
     demo_JSON_stringify (subscription_message Z demo_JSON_stringify demo_tracked)].
Proof.
  split.
  - apply (C3_restoration_messages Z demo_parseInt demo_parseInt demo_number_truthy demo_parse
      demo_stackDepth demo_JSON_stringify demo_builtin_get demo_builtin_set demo_string_entries
             (demo_after_all (new_StatefulSubscriptions Z demo_options_fixed) demo_calls)
             "nobody").
    reflexivity.
  - destruct (C3_restoration_messages Z demo_parseInt demo_parseInt demo_number_truthy
      demo_parse demo_stackDepth demo_JSON_stringify demo_builtin_get demo_builtin_set
      demo_string_entries
                (demo_after_all (new_StatefulSubscriptions Z demo_options_fixed) demo_calls)
                "client") as (_ & Hknown & _).
    rewrite (Hknown
               (client_state Z
                  (demo_after_all (new_StatefulSubscriptions Z demo_options_fixed)
                     demo_calls) "client") eq_refl).
    reflexivity.
Defined.

(** The failing input of C4: [onItems(offset: 0)] registers with the cursor
    null although the params hold 0 under the key. *)
Theorem C4_falsy_params_value_dropped :
  exists this1 subscription,
    demo_addSubscription (new_StatefulSubscriptions Z demo_options) "client"
      "subscription { onItems(offset: 0) { id offset } }" None None None =
      Normal (this1, []) /\
    tracked Z this1 "client" "onItems" = Some subscription /\
    sub_params Z subscription = Some (JObj Z [("offset", JNum Z 0%Z)]) /\
    sub_lastValue Z subscription = JNull Z /\
    buildRecoveryQuery Z demo_JSON_stringify subscription =
      "subscription { onItems { id, offset } }".
Proof.
  do 2 eexists. split; [reflexivity|]. split; [reflexivity|]. repeat split.
Qed.

(** C5 at the example of the specification: [Feed: onItems], then a result
    keyed by [Feed] and one keyed by [onItems]. *)
Lemma C5_alias_identity_witness :
  exists this1 logs subscription,
    demo_addSubscription (new_StatefulSubscriptions Z demo_options) "client"
      "subscription { Feed: onItems { id offset } }" None None None = Normal (this1, logs) /\
    tracked Z this1 "client" "Feed" = Some subscription /\
    sub_name Z subscription = "onItems" /\
    tracked Z this1 "client" "onItems" = None /\
    (exists this2 heap' subscription',
        updateSubscriptionState Z demo_builtin_get demo_string_entries this1 (demo_store "Feed"
            7%Z) "client" 0 =
          Normal (this2, heap') /\
        tracked Z this2 "client" "Feed" = Some subscription' /\
        sub_lastValue Z subscription' = JNum Z 7%Z) /\
    (forall this2 heap',
        updateSubscriptionState Z demo_builtin_get demo_string_entries this1 (demo_store
            "onItems" 7%Z) "client" 0 =
          Normal (this2, heap') ->
        tracked Z this2 "client" "Feed" = Some subscription).
Proof.
  destruct (C5_alias_identity Z demo_parseInt demo_parseInt demo_number_truthy demo_parse
      demo_stackDepth demo_builtin_get demo_builtin_set demo_string_entries
      (new_StatefulSubscriptions Z demo_options)
              "client" "subscription { Feed: onItems { id offset } }" None None None
              (info_of (Some "Feed") "onItems" (JObj Z []) ["id"; "offset"]) "Feed"
              eq_refl eq_refl ltac:(discriminate) eq_refl) as [_ Hconfigured].
  destruct (Hconfigured demo_descriptor eq_refl)
    as (this1 & logs & subscription & Hadd & Htracked & Hname & _ & Hroot & Hfeed & Hother).
  exists this1, logs, subscription.
  repeat match goal with |- _ /\ _ => split end; try assumption.
  - assert (tracked Z this1 "client" "onItems" =
            tracked Z (new_StatefulSubscriptions Z demo_options) "client" "onItems") as ->.
    { apply Hroot. simpl. discriminate. }
    reflexivity.
  - apply (Hfeed (demo_store "Feed" 7%Z) 0 0
             [("id", JStr Z "x"); ("offset", JNum Z 7%Z)] (JNum Z 7%Z));
      solve [reflexivity | discriminate].
  - intros this2 heap'.
    apply (Hother (demo_store "onItems" 7%Z) 0 "onItems" (RObject Z 0));
      solve [reflexivity | discriminate].
Defined.


(** C7: the same registration twice, the second time under another
    transport id. *)
Lemma C7_registration_idempotent_witness :
  exists this1 logs1 logs2 client1,
    demo_addSubscription (new_StatefulSubscriptions Z demo_options) "client"
      "subscription { onItems { id } }" None (Some "1") None = Normal (this1, logs1) /\
    demo_addSubscription this1 "client"
      "subscription { onItems { id } }" None (Some "2") None = Normal (this1, logs2) /\
    clients Z this1 !! "client" = Some client1 /\
    length (List.filter (fun entry => String.eqb (fst entry) "onItems")
              (subscriptions Z client1)) = 1.
Proof.
  destruct (C7_registration_idempotent Z demo_parseInt demo_parseInt demo_number_truthy
      demo_parse demo_stackDepth demo_builtin_get demo_builtin_set demo_string_entries
      (new_StatefulSubscriptions Z demo_options)
              "client" "subscription { onItems { id } }" None (Some "1") None)
    as [_ Hsecond].
  destruct (Hsecond
              (demo_after_all (new_StatefulSubscriptions Z demo_options)
                 [CallAddSubscription Z "client" "subscription { onItems { id } }" None
                    (Some "1") None])
              [log_debug "Injecting missing key field into subscription"] eq_refl)
    as [Hagain Hone].
  destruct (Hagain (Some "2") None) as [logs2 Hlogs2].
  eexists _, _, logs2, _. split; [reflexivity|]. split; [exact Hlogs2|].
  split; [reflexivity|].
  apply (Hone (info_of None "onItems" (JObj Z []) ["id"])); try reflexivity.
  apply registry_ok_new.
Defined.

(** C8: the tracked subscription of the example has its descriptor, and
    [onUsers], which has none, is not tracked. *)
Lemma C8_configured_descriptor_invariant_witness :
  (exists descriptor o,
      subscriptionsConfig Z
        (demo_after_all (new_StatefulSubscriptions Z demo_options_fixed) demo_calls)
        !! "onItems" = Some descriptor /\
      In o demo_options_fixed /\ opt_name Z o = "onItems") /\
  (exists this',
      demo_addSubscription (new_StatefulSubscriptions Z demo_options) "client"
        "subscription { onUsers { id } }" None None None = Normal (this', []) /\
      forall other identity, tracked Z this' other identity = None).
Proof.
  destruct (C8_configured_descriptor_invariant Z demo_parseInt demo_parseInt demo_number_truthy
      demo_parse demo_stackDepth demo_builtin_get demo_builtin_set demo_string_entries) as
      [Htracked Hunconfigured].
  split.
  - apply (Htracked demo_options_fixed demo_calls "client" "onItems" demo_tracked).
    reflexivity.
  - destruct (Hunconfigured (new_StatefulSubscriptions Z demo_options) "client"
                "subscription { onUsers { id } }" None None None
                (info_of None "onUsers" (JObj Z []) ["id"]) eq_refl eq_refl)
      as (this' & Hadd & Hsame).
    exists this'. split; [exact Hadd|].
    intros other identity. rewrite Hsame. reflexivity.
Defined.

(** The subscription tracked for [subscription { onItems { id } }]: the key
    was injected. *)
Definition demo_injected : Subscription Z :=
  {| sub_options := {| opt_name := "onItems"; opt_key := "offset"; opt_args := None |};
     sub_name := "onItems";
     sub_fields := ["id"; "offset"];
     sub_params := Some (JObj Z []);
     sub_lastValue := JNull Z;
     sub_alias := None;
     sub_injectedKey := true;
     sub_id := None;
     sub_type := "start" |}.

(** C10 on the payload [{ onItems: { id: "x", offset: 7 } }] after the key
    was injected: object 0 of the store keeps [offset]; the payload points to
    a new object that holds [id] only. *)
Lemma C10_strip_installs_copy_witness :
  exists this' heap' d' copy,
    updateSubscriptionState Z demo_builtin_get demo_string_entries
      (demo_after_all (new_StatefulSubscriptions Z demo_options)
         [CallAddSubscription Z "client" "subscription { onItems { id } }" None None None])
      (demo_store "onItems" 7%Z) "client" 0 = Normal (this', heap') /\
    objects Z heap' !! 0 = Some [("id", JStr Z "x"); ("offset", JNum Z 7%Z)] /\
    d' <> 0 /\
    payloads Z heap' !! 0 = Some [("onItems", RObject Z d')] /\
    objects Z heap' !! d' = Some copy /\
    tbl_get "offset" copy = None /\
    tbl_get "id" copy = Some (JStr Z "x").
Proof.
  destruct (C10_strip_installs_copy Z demo_builtin_get demo_string_entries
              (demo_after_all (new_StatefulSubscriptions Z demo_options)
                 [CallAddSubscription Z "client" "subscription { onItems { id } }" None None
                    None])
              (demo_store "onItems" 7%Z) "client" 0
              (client_state Z
                 (demo_after_all (new_StatefulSubscriptions Z demo_options)
                    [CallAddSubscription Z "client" "subscription { onItems { id } }" None
                       None None]) "client")
              "onItems" [] 0 [("id", JStr Z "x"); ("offset", JNum Z 7%Z)]
              demo_injected demo_descriptor (JNum Z 7%Z)
              eq_refl eq_refl eq_refl eq_refl eq_refl eq_refl eq_refl ltac:(discriminate))
    as (this' & heap' & d' & copy & Hupd & Hold & _ & _ & _ & Hne & Hp & Hcopy & Hkey
        & Hfields & _).
  exists this', heap', d', copy.
  repeat match goal with |- _ /\ _ => split end; try assumption.
  rewrite Hfields; [reflexivity|discriminate].
Defined.

(** ** More runs of the model *)

(** Fields are flattened to leaves in selection order: [__typename] is
    skipped, a field with a selection set gives its leaves, a known fragment
    is spliced in, an unknown one gives nothing, an inline fragment gives its
    fields; nothing is deduplicated. *)
Example extractFields_flattens :
  extractFields 64
    (Some [leaf "id"; leaf "__typename";
           Field None "owner" [] (Some [leaf "name"]);
           FragmentSpread "F"; InlineFragment [leaf "x"]; FragmentSpread "missing"])
    [FragmentDefinition "F" [leaf "a"; leaf "id"]]
  = Normal ["id"; "name"; "a"; "id"; "x"].
Proof. reflexivity. Qed.

(** A fragment that spreads itself exhausts the stack. *)
Example extractFields_cyclic :
  extractFields 64 (Some [FragmentSpread "F"]) [FragmentDefinition "F" [FragmentSpread "F"]]
  = Abrupt RangeError.
Proof. reflexivity. Qed.

(** The end-to-end scenario: register, observe offset 42, build the
    recovery query. *)
Example recovery_query_after_result :
  option_map (buildRecoveryQuery Z demo_JSON_stringify)
    (tracked Z (demo_after_all (new_StatefulSubscriptions Z demo_options) demo_calls)
       "client" "onItems")
  = Some "subscription { onItems(offset: 42) { id, offset, data } }".
Proof. reflexivity. Qed.

(** A cursor read from the params when it is truthy, and a [lastValue]
    variable taking precedence over it, even when falsy. *)
Example initial_cursor_from_params_and_variables :
  option_map (sub_lastValue Z)
    (tracked Z
       (demo_after_all (new_StatefulSubscriptions Z demo_options)
          [CallAddSubscription Z "client" "subscription { onItems(offset: 42) { id offset } }"
             None None None]) "client" "onItems") = Some (JNum Z 42%Z) /\
  option_map (sub_lastValue Z)
    (tracked Z
       (demo_after_all (new_StatefulSubscriptions Z demo_options)
          [CallAddSubscription Z "client" "subscription { onItems(offset: 42) { id offset } }"
             (Some [("lastValue", JNum Z 0%Z)]) None None]) "client" "onItems")
  = Some (JNum Z 0%Z).
Proof. split; reflexivity. Qed.

(** A cursor read through the prototype chain.  An argument named
    [__proto__] with an object literal as value makes the params inherit
    [offset], and the registration takes the inherited 3 as the cursor.  A
    descriptor whose key names a member of Object.prototype finds that
    member in the params of every query, so the cursor starts as the
    function [Object]; and it finds it in every data object: after a
    registration with the cursor 5, the result [{ onItems: { id: "x" } }]
    sets the cursor to that function. *)
Example cursor_read_through_the_prototype_chain :
  option_map (sub_lastValue Z)
    (tracked Z
       (demo_after_all (new_StatefulSubscriptions Z demo_options)
          [CallAddSubscription Z "client"
             "subscription { onItems(__proto__: { offset: 3 }, a: 1) { id offset } }"
             None None None]) "client" "onItems") = Some (JNum Z 3%Z) /\
  option_map (sub_lastValue Z)
    (tracked Z
       (demo_after_all
          (new_StatefulSubscriptions Z
             [{| opt_name := "onItems"; opt_key := "constructor"; opt_args := None |}])
          [CallAddSubscription Z "client" "subscription { onItems { id } }" None None None])
       "client" "onItems")
  = Some (JBuiltin Z "Object") /\
  List.map (option_map (sub_lastValue Z))
    [tracked Z
       (demo_after_all
          (new_StatefulSubscriptions Z
             [{| opt_name := "onItems"; opt_key := "constructor"; opt_args := None |}])
          [CallAddSubscription Z "client" "subscription { onItems { id } }"
             (Some [("lastValue", JNum Z 5%Z)]) None None]) "client" "onItems";
     tracked Z
       (demo_after_all
          (new_StatefulSubscriptions Z
             [{| opt_name := "onItems"; opt_key := "constructor"; opt_args := None |}])
          [CallAddSubscription Z "client" "subscription { onItems { id } }"
             (Some [("lastValue", JNum Z 5%Z)]) None None;
           CallUpdateSubscriptionState Z "client"
             {| payloads := [[("onItems", RObject Z 0)]];
                objects := [[("id", JStr Z "x")]] |} 0]) "client" "onItems"]
  = [Some (JNum Z 5%Z); Some (JBuiltin Z "Object")].
Proof. repeat split; reflexivity. Qed.

(** ** Runs for the further properties *)

(** Two descriptors: [onItems] with key [offset], [onUsers] with key [id]. *)
Definition demo_options_two : list (SubscriptionOptions Z) :=
  [{| opt_name := "onItems"; opt_key := "offset"; opt_args := None |};
   {| opt_name := "onUsers"; opt_key := "id"; opt_args := None |}].

(** The registry of the two descriptors after [demo_calls]: [onItems] is
    tracked for the client under transport id 1, with cursor 42. *)
Definition demo_state : StatefulSubscriptions Z :=
  demo_after_all (new_StatefulSubscriptions Z demo_options_two) demo_calls.

Definition demo_tracked_plain : Subscription Z :=
  {| sub_options := {| opt_name := "onItems"; opt_key := "offset"; opt_args := None |};
     sub_name := "onItems";
     sub_fields := ["id"; "offset"; "data"];
     sub_params := Some (JObj Z []);
     sub_lastValue := JNum Z 42%Z;
     sub_alias := None;
     sub_injectedKey := false;
     sub_id := Some "1";
     sub_type := "start" |}.

(** A store whose one payload holds null under [onItems]. *)
Definition demo_null_store : Store Z :=
  {| payloads := [[("onItems", (RNull Z))]]; objects := [] |}.

(** A selection with a nested object, [__typename] and an inline fragment. *)
Definition demo_selections : list SelectionNode :=
  [leaf "id"; leaf "__typename";
   Field None "owner" [] (Some [leaf "name"; leaf "__typename"]);
   InlineFragment [leaf "x"]].

Lemma addSubscriptionInit_records_payload_witness :
  clients Z (addSubscriptionInit Z demo_state "client" (JStr Z "token")) !! "client" =
    Some {| init := JStr Z "token";
            subscriptions := [("onItems", demo_tracked_plain)];
            ids := <["1" := "onItems"]> ∅ |} /\
  addSubscriptionInit Z (addSubscriptionInit Z demo_state "client" (JNull Z)) "client"
    (JStr Z "token") = addSubscriptionInit Z demo_state "client" (JStr Z "token").
Proof.
  destruct (addSubscriptionInit_records_payload Z demo_parseInt demo_parseInt demo_number_truthy
      demo_parse demo_stackDepth demo_JSON_stringify demo_builtin_get demo_builtin_set
      demo_string_entries
              demo_state "client" (JStr Z "token")) as (Hc & _ & _ & Hlast & _).
  split; [exact Hc | apply Hlast].
Defined.

Lemma addSubscription_keeps_what_is_tracked_witness :
  exists this',
    demo_addSubscription demo_state "client" "subscription { onUsers { id } }" None
      (Some "2") None = Normal (this', []) /\
    tracked Z this' "client" "onItems" = Some demo_tracked_plain /\
    is_Some (tracked Z this' "client" "onUsers").
Proof.
  exists (demo_after_all demo_state
            [CallAddSubscription Z "client" "subscription { onUsers { id } }" None
               (Some "2") None]).
  split; [reflexivity|]. split.
  - apply (addSubscription_keeps_what_is_tracked Z demo_parseInt demo_parseInt
      demo_number_truthy demo_parse demo_stackDepth demo_builtin_get demo_builtin_set demo_state
      "client"
             "subscription { onUsers { id } }" None (Some "2") None _ [] eq_refl).
    reflexivity.
  - eexists. reflexivity.
Defined.

Lemma addSubscription_skips_other_operations_witness :
  demo_addSubscription demo_state "visitor" "query { getItems { id } }" None None None =
    Normal (demo_after_all demo_state
              [CallAddSubscription Z "visitor" "query { getItems { id } }" None None None],
            []) /\
  forall identity,
    tracked Z
      (demo_after_all demo_state
         [CallAddSubscription Z "visitor" "query { getItems { id } }" None None None])
      "visitor" identity = None.
Proof.
  destruct (addSubscription_skips_other_operations Z demo_parseInt demo_parseInt
      demo_number_truthy demo_parse demo_stackDepth demo_builtin_get demo_builtin_set demo_state
      "visitor"
              "query { getItems { id } }" None None None
              [OperationDefinition query_op [Field None "getItems" [] (Some [leaf "id"])]]
              eq_refl eq_refl) as (_ & this' & Hadd & _ & _ & Htracked).
  split; [reflexivity|].
  intros identity.
  assert (this' =
          demo_after_all demo_state
            [CallAddSubscription Z "visitor" "query { getItems { id } }" None None None])
    as <-.
  { assert (Normal (this', @nil LogRecord) =
            Normal (demo_after_all demo_state
                      [CallAddSubscription Z "visitor" "query { getItems { id } }" None
                         None None], [])) as Heq by (rewrite <- Hadd; reflexivity).
    now injection Heq. }
  rewrite Htracked. reflexivity.
Defined.

Lemma updateSubscriptionState_ignores_witness :
  updateSubscriptionState Z demo_builtin_get demo_string_entries demo_state
    (demo_store "onUsers" 7%Z) "client" 0 =
    Normal (demo_state, demo_store "onUsers" 7%Z) /\
  updateSubscriptionState Z demo_builtin_get demo_string_entries demo_state
    (demo_store "onItems" 7%Z) "nobody" 0 =
    Normal (demo_state, demo_store "onItems" 7%Z) /\
  updateSubscriptionState Z demo_builtin_get demo_string_entries demo_state
    {| payloads := [[("onItems", RObject Z 0)]]; objects := [[("id", JStr Z "x")]] |}
    "client" 0 =
    Normal (demo_state,
            {| payloads := [[("onItems", RObject Z 0)]];
               objects := [[("id", JStr Z "x")]] |}).
Proof.
  destruct (updateSubscriptionState_ignores Z demo_builtin_get demo_string_entries
              demo_state (demo_store "onUsers" 7%Z) "client" 0)
    as (_ & _ & Huntracked & _).
  destruct (updateSubscriptionState_ignores Z demo_builtin_get demo_string_entries
              demo_state (demo_store "onItems" 7%Z) "nobody" 0) as (Hunknown & _).
  destruct (updateSubscriptionState_ignores Z demo_builtin_get demo_string_entries
              demo_state
              {| payloads := [[("onItems", RObject Z 0)]];
                 objects := [[("id", JStr Z "x")]] |} "client" 0)
    as (_ & _ & _ & Hundefined & Hread).
  split; [|split].
  - apply (Huntracked "onUsers" (RObject Z 0) []); reflexivity.
  - apply Hunknown. reflexivity.
  - apply (Hundefined (client_state Z demo_state "client") "onItems" (RObject Z 0) []
             demo_tracked_plain demo_descriptor);
      [reflexivity|reflexivity|reflexivity|reflexivity|].
    apply (Hread 0 [("id", JStr Z "x")] "offset"); [reflexivity|].
    left. split; reflexivity.
Defined.

Lemma updateSubscriptionState_throws_on_null_data_witness :
  updateSubscriptionState Z demo_builtin_get demo_string_entries demo_state demo_null_store
      "client" 0 = Abrupt TypeError.
Proof.
  apply (updateSubscriptionState_throws_on_null_data Z demo_builtin_get demo_string_entries
      demo_state demo_null_store "client" 0
           (client_state Z demo_state "client") "onItems" (RNull Z) [] demo_tracked_plain
           demo_descriptor); try reflexivity.
  now left.
Defined.

Lemma updateSubscriptionState_frame_witness :
  exists this' heap',
    updateSubscriptionState Z demo_builtin_get demo_string_entries demo_state (demo_store
        "onItems" 50%Z) "client" 0 =
      Normal (this', heap') /\
    subscriptionsConfig Z this' = subscriptionsConfig Z demo_state /\
    objects Z heap' !! 0 = Some [("id", JStr Z "x"); ("offset", JNum Z 50%Z)] /\
    tracked Z this' "client" "onItems" <> tracked Z demo_state "client" "onItems".
Proof.
  exists (demo_after_all demo_state
            [CallUpdateSubscriptionState Z "client" (demo_store "onItems" 50%Z) 0]),
         (demo_store "onItems" 50%Z).
  destruct (updateSubscriptionState_frame Z demo_builtin_get demo_string_entries demo_state
      (demo_store "onItems" 50%Z)
              "client" 0 _ _ eq_refl) as (Hcfg & _ & _ & _ & Hobjects & _).
  split; [reflexivity|]. split; [exact Hcfg|]. split.
  - apply Hobjects. reflexivity.
  - discriminate.
Defined.

Lemma cursor_last_write_wins_witness :
  exists this1 heap1 this2 heap2,
    updateSubscriptionState Z demo_builtin_get demo_string_entries demo_state (demo_store
        "onItems" 60%Z) "client" 0 =
      Normal (this1, heap1) /\
    updateSubscriptionState Z demo_builtin_get demo_string_entries this1 (demo_store "onItems"
        50%Z) "client" 0 =
      Normal (this2, heap2) /\
    option_map (sub_lastValue Z) (tracked Z this2 "client" "onItems") =
      Some (JNum Z 50%Z).
Proof.
  destruct (cursor_last_write_wins Z demo_builtin_get demo_string_entries demo_state "client"
              (client_state Z demo_state "client") "onItems" demo_tracked_plain
              demo_descriptor
              (demo_store "onItems" 60%Z) 0 0 [] [("id", JStr Z "x"); ("offset", JNum Z 60%Z)]
              (JNum Z 60%Z)
              (demo_store "onItems" 50%Z) 0 0 [] [("id", JStr Z "x"); ("offset", JNum Z 50%Z)]
              (JNum Z 50%Z)
              eq_refl eq_refl eq_refl eq_refl eq_refl eq_refl ltac:(discriminate)
              eq_refl eq_refl eq_refl ltac:(discriminate))
    as (this1 & heap1 & this2 & heap2 & H1 & _ & H2 & Htracked & _).
  exists this1, heap1, this2, heap2. split; [exact H1|]. split; [exact H2|].
  rewrite Htracked. reflexivity.
Defined.

Lemma selected_key_is_never_stripped_witness :
  exists this1 subscription this3 subscription',
    demo_addSubscription (new_StatefulSubscriptions Z demo_options) "client"
      "subscription { onItems { id offset data } }" None None None = Normal (this1, []) /\
    sub_injectedKey Z subscription = false /\
    tracked Z this1 "client" "onItems" = Some subscription /\
    updateSubscriptionState Z demo_builtin_get demo_string_entries (demo_after_all this1
        demo_between)
      (demo_store "onItems" 7%Z) "client" 0 = Normal (this3, demo_store "onItems" 7%Z) /\
    tracked Z this3 "client" "onItems" = Some subscription' /\
    sub_lastValue Z subscription' = JNum Z 7%Z.
Proof.
  destruct (selected_key_is_never_stripped Z demo_parseInt demo_parseInt demo_number_truthy
      demo_parse demo_stackDepth demo_builtin_get demo_builtin_set demo_string_entries
      (new_StatefulSubscriptions Z demo_options)
              "client" "subscription { onItems { id offset data } }" None None None
              (info_of None "onItems" (JObj Z []) ["id"; "offset"; "data"]) demo_descriptor
              eq_refl eq_refl eq_refl eq_refl)
    as (this1 & subscription & Hadd & Htracked & _ & Hflag & Hlater).
  destruct (Hlater demo_between (demo_store "onItems" 7%Z) 0 (RObject Z 0) [] eq_refl eq_refl)
    as [_ Hdefined].
  destruct (Hdefined 0 [("id", JStr Z "x"); ("offset", JNum Z 7%Z)] (JNum Z 7%Z)
              eq_refl eq_refl eq_refl ltac:(discriminate))
    as (this3 & subscription' & Hupd & Htracked' & Hcursor).
  exists this1, subscription, this3, subscription'. repeat split; assumption.
Defined.

Lemma removeAllSubscriptions_clears_witness :
  clients Z (removeAllSubscriptions Z demo_state "client") !! "client" =
    Some {| init := JUndefined Z; subscriptions := []; ids := ∅ |} /\
  restoreSubscriptions Z demo_JSON_stringify (removeAllSubscriptions Z demo_state "client")
    "client" =
    [demo_JSON_stringify
       (JObj Z [("type", JStr Z "connection_init"); ("payload", JUndefined Z)])] /\
  removeAllSubscriptions Z demo_state "nobody" = demo_state.
Proof.
  destruct (removeAllSubscriptions_clears Z demo_JSON_stringify demo_state "client")
    as (_ & Hknown & _).
  destruct (Hknown (client_state Z demo_state "client") eq_refl) as [Hc Hrestore].
  split; [exact Hc|]. split; [exact Hrestore|].
  destruct (removeAllSubscriptions_clears Z demo_JSON_stringify demo_state "nobody")
    as (Hunknown & _).
  apply Hunknown. reflexivity.
Defined.

Lemma removeSubscription_by_id_witness :
  tracked Z (removeSubscription Z demo_state "client" "1") "client" "onItems" = None /\
  removeSubscription Z demo_state "client" "9" = demo_state /\
  removeSubscription Z demo_state "client" "" = demo_state.
Proof.
  destruct (removeSubscription_by_id Z demo_state "client" "1") as (_ & _ & _ & Hremove).
  destruct (removeSubscription_by_id Z demo_state "client" "9") as (_ & _ & Hunknown & _).
  destruct (removeSubscription_by_id Z demo_state "client" "") as (Hempty & _).
  split; [|split].
  - apply (Hremove (client_state Z demo_state "client") "onItems");
      solve [reflexivity | discriminate].
  - apply (Hunknown (client_state Z demo_state "client")); reflexivity.
  - apply Hempty. reflexivity.
Defined.

Lemma register_then_remove_restores_witness :
  exists this1 logs,
    demo_addSubscription demo_state "client" "subscription { onUsers { id } }" None
      (Some "2") None = Normal (this1, logs) /\
    is_Some (tracked Z this1 "client" "onUsers") /\
    removeSubscription Z this1 "client" "2" = demo_state.
Proof.
  destruct (register_then_remove_restores Z demo_parseInt demo_parseInt demo_number_truthy
      demo_parse demo_stackDepth demo_builtin_get demo_builtin_set demo_state "client"
              "subscription { onUsers { id } }" None "2" None
              (info_of None "onUsers" (JObj Z []) ["id"])
              {| cfg_key := "id"; cfg_args := None |}
              (client_state Z demo_state "client")
              eq_refl eq_refl eq_refl eq_refl ltac:(discriminate) ltac:(discriminate)
              eq_refl)
    as (this1 & logs & Hadd & Htracked & Hback).
  exists this1, logs. split; [exact Hadd|]. split; [|exact Hback].
  eexists. exact Htracked.
Defined.

Lemma id_index_sound_witness :
  (exists subscription,
      tracked Z demo_state "client" "onItems" = Some subscription /\
      sub_id Z subscription = Some "1") /\
  tracked Z (removeSubscription Z demo_state "client" "1") "client" "onItems" = None.
Proof.
  destruct (id_index_sound Z demo_parseInt demo_parseInt demo_number_truthy demo_parse
      demo_stackDepth demo_builtin_get demo_builtin_set demo_string_entries demo_options_two
      demo_calls "client"
              (client_state Z demo_state "client") "1" "onItems" eq_refl eq_refl)
    as (_ & Htracked & Hremove).
  split; [exact Htracked|]. apply Hremove. discriminate.
Defined.

Lemma clients_and_descriptors_persist_witness :
  is_Some
    (clients Z
       (demo_after_all demo_state
          [CallRemoveSubscription Z "client" "1"; CallRemoveAllSubscriptions Z "client"])
       !! "client").
Proof.
  destruct (clients_and_descriptors_persist Z demo_parseInt demo_parseInt demo_number_truthy
      demo_parse demo_stackDepth demo_builtin_get demo_builtin_set demo_string_entries
              [CallRemoveSubscription Z "client" "1"; CallRemoveAllSubscriptions Z "client"]
              demo_state) as [_ Hknown].
  apply Hknown. eexists. reflexivity.
Defined.

Lemma extractFields_never_typename_witness :
  extractFields 3 (Some demo_selections) [] = Normal ["id"; "name"; "x"] /\
  ~ In "__typename" ["id"; "name"; "x"].
Proof.
  split; [reflexivity|].
  destruct (extractFields_never_typename 3 (Some demo_selections) []) as [Hnever _].
  apply Hnever. reflexivity.
Defined.

Lemma extractFields_depth_irrelevant_witness :
  extractFields 2 (Some demo_selections) [] = Normal ["id"; "name"; "x"] /\
  extractFields 64 (Some demo_selections) [] = Normal ["id"; "name"; "x"].
Proof.
  split; [reflexivity|].
  apply (extractFields_depth_irrelevant 2 64 (Some demo_selections) []);
    [repeat constructor | reflexivity].
Defined.

Lemma extractFields_without_fragments_witness :
  extractFields 2 (Some demo_selections) [] = Normal ["id"; "name"; "x"].
Proof.
  apply (extractFields_without_fragments 2 demo_selections). simpl. lia.
Defined.


Lemma extractArguments_order_and_duplicates_witness :
  extractArguments Z demo_parseInt demo_parseInt demo_builtin_get demo_builtin_set
    [("offset", IntValue "1"); ("limit", IntValue "5")] []
  = JObj Z [("offset", JNum Z 1%Z); ("limit", JNum Z 5%Z)] /\
  (exists inherited properties,
      extractArguments Z demo_parseInt demo_parseInt demo_builtin_get demo_builtin_set
        [("__proto__", ObjectValue [("offset", IntValue "3")]); ("a", IntValue "1")] []
      = JObjP Z (JObj Z inherited) properties /\
      tbl_get "__proto__" properties = None /\
      optional_get Z demo_builtin_get
        (extractArguments Z demo_parseInt demo_parseInt demo_builtin_get demo_builtin_set
           [("__proto__", ObjectValue [("offset", IntValue "3")]); ("a", IntValue "1")] [])
        "offset" = JNum Z 3%Z) /\
  extractArguments Z demo_parseInt demo_parseInt demo_builtin_get demo_builtin_set
    [("__proto__", IntValue "7"); ("a", IntValue "1")] []
  = extractArguments Z demo_parseInt demo_parseInt demo_builtin_get demo_builtin_set
      [("a", IntValue "1")] [].
Proof.
  split; [|split].
  - destruct (extractArguments_order_and_duplicates Z demo_parseInt demo_parseInt
                demo_builtin_get demo_builtin_set
                [("offset", IntValue "1"); ("limit", IntValue "5")] [])
      as (Hplain & _).
    destruct Hplain as (properties & Heq & _ & Hdistinct).
    + simpl. intuition discriminate.
    + rewrite Heq, Hdistinct; [reflexivity|].
      repeat constructor; rewrite ?list_elem_of_In; simpl; intuition discriminate.
  - destruct (extractArguments_order_and_duplicates Z demo_parseInt demo_parseInt
                demo_builtin_get demo_builtin_set
                [("__proto__", ObjectValue [("offset", IntValue "3")]); ("a", IntValue "1")]
                [])
      as (_ & Hproto & _).
    destruct (Hproto [("offset", IntValue "3")] [("a", IntValue "1")] eq_refl)
      as (inherited & properties & Hinherited & Hparams & Hown & Hread).
    + simpl. intuition discriminate.
    + simpl. intuition discriminate.
    + exists inherited, properties. split; [exact Hparams|]. split.
      * rewrite Hown. reflexivity.
      * apply Hread; [rewrite Hown; reflexivity|].
        vm_compute in Hinherited. now injection Hinherited as <-.
  - apply (extractArguments_order_and_duplicates Z demo_parseInt demo_parseInt
                demo_builtin_get demo_builtin_set
             [("__proto__", IntValue "7"); ("a", IntValue "1")] []
           ) with (node := IntValue "7"); reflexivity.
Defined.

Lemma tracked_subscription_shape_witness :
  "onItems" = or_string (sub_alias Z demo_tracked_plain) (sub_name Z demo_tracked_plain) /\
  exists descriptor,
    subscriptionsConfig Z (new_StatefulSubscriptions Z demo_options_two) !! "onItems" =
      Some descriptor /\
    In (cfg_key Z descriptor) (sub_fields Z demo_tracked_plain).
Proof.
  destruct (tracked_subscription_shape Z demo_parseInt demo_parseInt demo_number_truthy
      demo_parse demo_stackDepth demo_builtin_get demo_builtin_set demo_string_entries
      demo_options_two demo_calls "client"
              (client_state Z demo_state "client") "onItems" demo_tracked_plain
              eq_refl eq_refl)
    as (_ & Hidentity & _ & descriptor & Hcfg & _ & _ & Hfields).
  split; [exact Hidentity|]. exists descriptor. split; assumption.
Defined.

Lemma registration_without_cursor_restores_the_query_witness :
  exists this1 logs subscription,
    demo_addSubscription (new_StatefulSubscriptions Z demo_options) "client"
      "subscription { Feed: onItems { id offset } }" None None None =
      Normal (this1, logs) /\
    tracked Z this1 "client" "Feed" = Some subscription /\
    buildRecoveryQuery Z demo_JSON_stringify subscription =
      "subscription { Feed: onItems { id, offset } }".
Proof.
  destruct (registration_without_cursor_restores_the_query Z demo_parseInt demo_parseInt
      demo_number_truthy demo_parse demo_stackDepth demo_JSON_stringify demo_builtin_get
      demo_builtin_set
              (new_StatefulSubscriptions Z demo_options) "client"
              "subscription { Feed: onItems { id offset } }" None None None
              (info_of (Some "Feed") "onItems" (JObj Z []) ["id"; "offset"]) demo_descriptor
              eq_refl eq_refl eq_refl (or_introl eq_refl) eq_refl (or_introl eq_refl))
    as (this1 & logs & subscription & Hadd & Htracked & Hquery & _).
  exists this1, logs, subscription. split; [exact Hadd|]. split; [exact Htracked|].
  rewrite Hquery.
  assert (sub_fields Z subscription = ["id"; "offset"]) as ->; [|reflexivity].
  assert (Some subscription =
          tracked Z
            (demo_after_all (new_StatefulSubscriptions Z demo_options)
               [CallAddSubscription Z "client" "subscription { Feed: onItems { id offset } }"
                  None None None]) "client" "Feed") as Heq.
  { rewrite <- Htracked. f_equal.
    assert (Normal (this1, logs) =
            demo_addSubscription (new_StatefulSubscriptions Z demo_options) "client"
              "subscription { Feed: onItems { id offset } }" None None None) as Hn
      by (symmetry; exact Hadd).
    vm_compute in Hn. now injection Hn as -> _. }
  vm_compute in Heq. now injection Heq as ->.
Defined.

(** * The earlier revision

    Both source files keep, after the revision embedded above, the revision
    that came before it: no aliases, no variables, no key injection; a
    descriptor carries the name and key of a recovery subscription; the
    introspector swallows its errors; a restoration skips the subscriptions
    without cursor.  It is embedded here from [src/lib/subscriptions.ts]
    (first part) and [src/lib/graphql-tools.ts] (second part), over the same
    values, tables and syntax tree; [extractFields] is the same function in
    both revisions.  The result payload is a value here: this revision only
    reads it. *)
Module Earlier.

#[local] Arguments JUndefined {JsNumber}.
#[local] Arguments JNull {JsNumber}.
#[local] Arguments JBool {JsNumber} b.
#[local] Arguments JNum {JsNumber} n.
#[local] Arguments JStr {JsNumber} s.
#[local] Arguments JArr {JsNumber} elements.
#[local] Arguments JObj {JsNumber} properties.
#[local] Arguments is_undefined {JsNumber} v.

Section Revision.

Variable JsNumber : Type.
Variable parseInt : string -> JsNumber.
Variable parseFloat : string -> JsNumber.
Variable parse : string -> option DocumentNode.
Variable stackDepth : nat.
Variable JSON_stringify : JsValue JsNumber -> string.
Variable builtin_get : JsValue JsNumber -> string -> JsValue JsNumber -> JsValue JsNumber.
Variable builtin_set :
  JsValue JsNumber -> string -> JsValue JsNumber -> JsValue JsNumber -> JsValue JsNumber.
Variable string_entries : string -> list (string * JsValue JsNumber).

(** ** The introspector *)

(** Helper function to extract a value from an argument: a variable is not
    resolved, its name is kept behind a dollar sign. *)
Fixpoint extractArgumentValue (value : ValueNode) : JsValue JsNumber :=
  match value with
  | IntValue text => JNum (parseInt text)
  | FloatValue text => JNum (parseFloat text)
  | StringValue text => JStr text
  | BooleanValue b => JBool b
  | NullValue => JNull
  | ListValue values => JArr (List.map extractArgumentValue values)
  | ObjectValue fields =>
      fold_left
        (fun obj field =>
           assign JsNumber builtin_set obj (fst field) (extractArgumentValue (snd field)))
        fields (JObj [])
  | VariableNode name => JStr ("$" +:+ name)
  | EnumValue _ => JNull   (* default: *)
  end.

Definition extractArguments (args : list ArgumentNode) : JsValue JsNumber :=
  fold_left
    (fun result arg =>
       assign JsNumber builtin_set result (fst arg) (extractArgumentValue (snd arg)))
    args (JObj []).

Record SubscriptionInfo : Type := {
  info_name : string;
  info_fields : list string;
  info_params : option (JsValue JsNumber)   (* present when it has own properties *)
}.

(** The body of the [try] block, after [parse] has returned. *)
Definition querySubscriptionInfo (document : DocumentNode)
    : Completion (option SubscriptionInfo) :=
  match List.find is_subscription_operation document with
  | Some (OperationDefinition _ selections) =>
      match selections with
      | [] => Abrupt TypeError
      | Field _ subscriptionName arguments selectionSet :: _ =>
          let params := extractArguments arguments in
          let fragmentDefinitions := List.filter is_fragment_definition document in
          fields ← extractFields stackDepth selectionSet fragmentDefinitions;
          Normal (Some {| info_name := subscriptionName; info_fields := fields;
                          info_params :=
                            if (0 <? length
                                       (tbl_keys
                                          (own_entries JsNumber string_entries params)))%nat
                            then Some params
                            else None |})
      | FragmentSpread spreadName :: _ =>
          let fragmentDefinitions := List.filter is_fragment_definition document in
          fields ← extractFields stackDepth None fragmentDefinitions;
          Normal (Some {| info_name := spreadName; info_fields := fields;
                          info_params := None |})
      | InlineFragment _ :: _ => Abrupt TypeError
      end
  | _ => Normal None
  end.

(** The result, null included, and what went to [console.error]. *)
Definition extractSubscriptionQueryInfo (query : string)
    : option SubscriptionInfo * list JsError :=
  match
    match parse query with
    | None => Abrupt GraphQLError
    | Some document => querySubscriptionInfo document
    end
  with
  | Normal s => (s, [])
  | Abrupt error => (None, [error])
  end.

(** The first key of the result object, and what it holds. *)
Definition extractSubscriptionResultInfo (result : JsObject JsNumber)
    : option string * JsValue JsNumber :=
  match result with
  | [] => (None, JUndefined)
  | (name, data) :: _ => (Some name, data)
  end.

(** [data[key]]: a TypeError on null and undefined, else the read along
    the prototype chain. *)
Definition read_property (data : JsValue JsNumber) (key : string)
    : Completion (JsValue JsNumber) :=
  get_property JsNumber builtin_get data key.

(** ** The registry *)

Record RecoveryOptions : Type := {
  rec_key : string;
  rec_subscription : string
}.

Record SubscriptionOptions : Type := {
  opt_name : string;
  opt_key : string;
  opt_recovery : RecoveryOptions
}.

Record Subscription : Type := {
  sub_options : SubscriptionOptions;
  sub_name : string;
  sub_fields : list string;
  sub_params : option (JsValue JsNumber);
  sub_lastValue : JsValue JsNumber
}.

Record ClientState : Type := {
  subscriptions : list (string * Subscription)
}.

Record ConfigEntry : Type := {
  cfg_key : string;
  cfg_recovery : RecoveryOptions
}.

Record StatefulSubscriptions : Type := {
  clients : gmap string ClientState;
  subscriptionsConfig : gmap string ConfigEntry
}.

(** Builds a recovery query for a subscription *)
Definition buildRecoveryQuery (subscription : Subscription) : string :=
  "subscription { " +:+ rec_subscription (opt_recovery (sub_options subscription))
    +:+ "(" +:+ rec_key (opt_recovery (sub_options subscription)) +:+ ": "
    +:+ JSON_stringify (sub_lastValue subscription)
    +:+ ") { " +:+ String.concat ", " (sub_fields subscription) +:+ " } }".

Definition new_StatefulSubscriptions (options : list SubscriptionOptions)
    : StatefulSubscriptions :=
  {| clients := ∅;
     subscriptionsConfig :=
       fold_left
         (fun config subscription =>
            <[opt_name subscription :=
                {| cfg_key := opt_key subscription;
                   cfg_recovery := opt_recovery subscription |}]> config)
         options ∅ |}.

Definition createClientState : ClientState := {| subscriptions := [] |}.

Definition with_clients (this : StatefulSubscriptions) (cs : gmap string ClientState)
    : StatefulSubscriptions :=
  {| clients := cs; subscriptionsConfig := subscriptionsConfig this |}.

Definition obtain_client (this : StatefulSubscriptions) (clientId : string)
    : ClientState * StatefulSubscriptions :=
  match clients this !! clientId with
  | Some client => (client, this)
  | None =>
      (createClientState, with_clients this (<[clientId := createClientState]> (clients this)))
  end.

(** How [addSubscription] ends: it returns, or it throws an Error with a
    message. *)
Inductive Outcome : Type :=
  | Returned
  | Threw (message : string).

(** The subscription object [addSubscription] builds, with the descriptor
    if there is one. *)
Definition newSubscription (s : SubscriptionInfo) (config : option ConfigEntry)
    : Subscription :=
  {| sub_options :=
       {| opt_name := info_name s;
          opt_key := match config with Some c => cfg_key c | None => "" end;
          opt_recovery :=
            match config with
            | Some c => cfg_recovery c
            | None => {| rec_key := ""; rec_subscription := "" |}
            end |};
     sub_name := info_name s;
     sub_fields := info_fields s;
     sub_params := info_params s;
     sub_lastValue := JNull |}.

(** The registry after the call, what the introspector printed, and how
    the call ended. *)
Definition addSubscription (this : StatefulSubscriptions) (clientId query : string)
    : StatefulSubscriptions * list JsError * Outcome :=
  let '(client, this) := obtain_client this clientId in
  let '(s, console) := extractSubscriptionQueryInfo query in
  match s with
  | None => (this, console, Returned)
  | Some s =>
      if tbl_has (info_name s) (subscriptions client) then (this, console, Returned)
      else
        let config := subscriptionsConfig this !! info_name s in
        let missing :=
          match config with
          | Some c => negb (includes (info_fields s) (cfg_key c))
          | None => false
          end in
        if missing
        then (this, console,
              Threw ("Subscription " +:+ info_name s
                       +:+ " is missing required key field: "
                       +:+ match config with Some c => cfg_key c | None => "" end))
        else
          (with_clients this
             (<[clientId :=
                  {| subscriptions :=
                       tbl_set (info_name s) (newSubscription s config)
                         (subscriptions client) |}]> (clients this)),
           console, Returned)
  end.

Definition with_lastValue (subscription : Subscription) (v : JsValue JsNumber)
    : Subscription :=
  {| sub_options := sub_options subscription; sub_name := sub_name subscription;
     sub_fields := sub_fields subscription; sub_params := sub_params subscription;
     sub_lastValue := v |}.

Definition updateSubscriptionState (this : StatefulSubscriptions) (clientId : string)
    (result : JsObject JsNumber) : Completion StatefulSubscriptions :=
  match clients this !! clientId with
  | None => Normal this
  | Some client =>
      match extractSubscriptionResultInfo result with
      | (None, _) => Normal this
      | (Some name, data) =>
          match tbl_get name (subscriptions client) with
          | None => Normal this
          | Some subscription =>
              match subscriptionsConfig this !! name with
              | None => Normal this
              | Some config =>
                  keyValue ← read_property data (cfg_key config);
                  if negb (is_undefined keyValue)
                  then Normal
                         (with_clients this
                            (<[clientId :=
                                 {| subscriptions :=
                                      tbl_set name (with_lastValue subscription keyValue)
                                        (subscriptions client) |}]> (clients this)))
                  else Normal this
              end
          end
      end
  end.

Definition is_null (v : JsValue JsNumber) : bool :=
  match v with JNull => true | _ => false end.

Definition start_message (clientId : string) (subscription : Subscription)
    : JsValue JsNumber :=
  JObj [("id", JStr clientId); ("type", JStr "start");
        ("payload", JObj [("query", JStr (buildRecoveryQuery subscription))])].

(** The texts passed to [target.send], in order. *)
Definition restoreSubscriptions (this : StatefulSubscriptions) (clientId : string)
    : list string :=
  match clients this !! clientId with
  | None => []
  | Some client =>
      fold_left
        (fun sent subscription =>
           (* Only restore subscriptions that have a lastValue *)
           if negb (is_null (sub_lastValue subscription))
           then sent ++ [JSON_stringify (start_message clientId subscription)]
           else sent)
        (tbl_values (subscriptions client))
        [JSON_stringify (JObj [("type", JStr "connection_init")])]
  end.

Definition removeAllSubscriptions (this : StatefulSubscriptions) (clientId : string)
    : StatefulSubscriptions :=
  match clients this !! clientId with
  | None => this
  | Some _ =>
      with_clients this (<[clientId := {| subscriptions := [] |}]> (clients this))
  end.

Inductive Call : Type :=
  | CallAddSubscription (clientId query : string)
  | CallUpdateSubscriptionState (clientId : string) (result : JsObject JsNumber)
  | CallRestoreSubscriptions (clientId : string)
  | CallRemoveAllSubscriptions (clientId : string).

(** The registry after a call, whether it returned or threw. *)
Definition after (this : StatefulSubscriptions) (c : Call) : StatefulSubscriptions :=
  match c with
  | CallAddSubscription clientId query => fst (fst (addSubscription this clientId query))
  | CallUpdateSubscriptionState clientId result =>
      match updateSubscriptionState this clientId result with
      | Normal this' => this'
      | Abrupt _ => this
      end
  | CallRestoreSubscriptions _ => this
  | CallRemoveAllSubscriptions clientId => removeAllSubscriptions this clientId
  end.

Definition after_all (this : StatefulSubscriptions) (calls : list Call)
    : StatefulSubscriptions :=
  fold_left after calls this.

Definition tracked (this : StatefulSubscriptions) (clientId name : string)
    : option Subscription :=
  match clients this !! clientId with
  | Some client => tbl_get name (subscriptions client)
  | None => None
  end.

(** What every entry of a subscriptions map satisfies: it stands under its
    name, and without a descriptor it has the empty key and no cursor. *)
Definition entry_ok (config : gmap string ConfigEntry) (name : string)
    (subscription : Subscription) : Prop :=
  sub_name subscription = name /\
  (config !! name = None ->
   opt_key (sub_options subscription) = "" /\ sub_lastValue subscription = JNull).

Definition registry_ok (this : StatefulSubscriptions) : Prop :=
  forall clientId client name subscription,
    clients this !! clientId = Some client ->
    tbl_get name (subscriptions client) = Some subscription ->
    entry_ok (subscriptionsConfig this) name subscription.

(** ** Properties of the earlier revision *)

Lemma obtain_client_spec_earlier (this this0 : StatefulSubscriptions) (clientId : string)
    (client : ClientState) :
  obtain_client this clientId = (client, this0) ->
  clients this0 !! clientId = Some client /\
  subscriptionsConfig this0 = subscriptionsConfig this /\
  (forall other, other <> clientId -> clients this0 !! other = clients this !! other) /\
  ((clients this !! clientId = Some client /\ this0 = this) \/
   (clients this !! clientId = None /\ client = createClientState)).
Proof.
  unfold obtain_client. destruct (clients this !! clientId) as [c|] eqn:E.
  - intros [= <- <-]. repeat split; auto.
  - intros [= <- <-]. simpl. repeat split; auto.
    + apply lookup_insert_eq.
    + intros other Hne. now apply lookup_insert_ne.
Qed.

Lemma tracked_obtain_earlier (this this0 : StatefulSubscriptions) (clientId other name : string)
    (client : ClientState) :
  obtain_client this clientId = (client, this0) ->
  tracked this0 other name = tracked this other name.
Proof.
  intros H. apply obtain_client_spec_earlier in H as (Hc & _ & Hother & [[Hk ->]|[Hn ->]]); auto.
  unfold tracked. destruct (String.eqb other clientId) eqn:E.
  - apply String.eqb_eq in E. subst. now rewrite Hc, Hn.
  - apply String.eqb_neq in E. now rewrite Hother.
Qed.

(** In the earlier revision a parse error reaches nobody: the
    introspector prints it and returns null, and [addSubscription] returns
    normally having tracked nothing, with at most the client state it
    created on entry. *)
Theorem parse_errors_are_swallowed :
  forall this clientId query,
    parse query = None ->
    extractSubscriptionQueryInfo query = (None, [GraphQLError]) /\
    exists this',
      addSubscription this clientId query = (this', [GraphQLError], Returned) /\
      (forall other name, tracked this' other name = tracked this other name) /\
      is_Some (clients this' !! clientId).
Proof.
  intros this clientId query Hparse.
  assert (extractSubscriptionQueryInfo query = (None, [GraphQLError])) as Hs
    by (unfold extractSubscriptionQueryInfo; now rewrite Hparse).
  split; auto. unfold addSubscription.
  destruct (obtain_client this clientId) as [client this0] eqn:E. rewrite Hs.
  exists this0. split; auto. split.
  - intros other name. eapply tracked_obtain_earlier; eauto.
  - apply obtain_client_spec_earlier in E as (Hc & _). rewrite Hc. eauto.
Qed.

(** The earlier revision refuses a configured subscription whose fields
    lack the key: [addSubscription] throws, naming the subscription and the
    key, after it has created the client state and before it tracks
    anything.  A subscription without descriptor is tracked all the same,
    with an empty key and empty recovery names; a configured one that
    selects the key is tracked with its descriptor's recovery names; both
    start with a null cursor. *)
Theorem addSubscription_requires_the_key :
  forall this clientId query s console,
    extractSubscriptionQueryInfo query = (Some s, console) ->
    tracked this clientId (info_name s) = None ->
    (forall config,
        subscriptionsConfig this !! info_name s = Some config ->
        includes (info_fields s) (cfg_key config) = false ->
        exists this',
          addSubscription this clientId query =
            (this', console,
             Threw ("Subscription " +:+ info_name s
                      +:+ " is missing required key field: " +:+ cfg_key config)) /\
          is_Some (clients this' !! clientId) /\
          (forall other name, tracked this' other name = tracked this other name)) /\
    (forall config,
        subscriptionsConfig this !! info_name s = Some config ->
        includes (info_fields s) (cfg_key config) = true ->
        exists this',
          addSubscription this clientId query = (this', console, Returned) /\
          tracked this' clientId (info_name s) =
            Some {| sub_options := {| opt_name := info_name s; opt_key := cfg_key config;
                                      opt_recovery := cfg_recovery config |};
                    sub_name := info_name s; sub_fields := info_fields s;
                    sub_params := info_params s; sub_lastValue := JNull |}) /\
    (subscriptionsConfig this !! info_name s = None ->
     exists this',
       addSubscription this clientId query = (this', console, Returned) /\
       tracked this' clientId (info_name s) =
         Some {| sub_options :=
                   {| opt_name := info_name s; opt_key := "";
                      opt_recovery := {| rec_key := ""; rec_subscription := "" |} |};
                 sub_name := info_name s; sub_fields := info_fields s;
                 sub_params := info_params s; sub_lastValue := JNull |}).
Proof.
  intros this clientId query s console Hs Hnone.
  unfold addSubscription.
  destruct (obtain_client this clientId) as [client this0] eqn:E.
  pose proof (obtain_client_spec_earlier _ _ _ _ E) as (Hc & Hcfg & _ & _).
  pose proof (tracked_obtain_earlier _ _ _ clientId (info_name s) _ E) as Htr.
  rewrite Hnone in Htr. unfold tracked in Htr. rewrite Hc in Htr.
  rewrite Hs, (proj2 (tbl_has_false _ _) Htr), Hcfg.
  repeat match goal with |- _ /\ _ => split end.
  - intros config -> Hmissing. rewrite Hmissing. simpl.
    exists this0. split; auto. split.
    + rewrite Hc. eauto.
    + intros other name. eapply tracked_obtain_earlier; eauto.
  - intros config -> Hincluded. rewrite Hincluded. simpl.
    eexists. split; [reflexivity|].
    unfold tracked. simpl. rewrite lookup_insert_eq. simpl. apply tbl_get_set_eq.
  - intros ->. simpl. eexists. split; [reflexivity|].
    unfold tracked. simpl. rewrite lookup_insert_eq. simpl. apply tbl_get_set_eq.
Qed.

Lemma fold_send (clientId : string) (subs : list Subscription) (sent : list string) :
  fold_left
    (fun sent subscription =>
       if negb (is_null (sub_lastValue subscription))
       then sent ++ [JSON_stringify (start_message clientId subscription)]
       else sent) subs sent =
  sent ++
  List.map (fun subscription => JSON_stringify (start_message clientId subscription))
    (List.filter (fun subscription => negb (is_null (sub_lastValue subscription))) subs).
Proof.
  revert sent. induction subs as [|sub subs IH]; intros sent; simpl.
  - now rewrite app_nil_r.
  - rewrite IH. destruct (negb (is_null (sub_lastValue sub))); simpl; auto.
    now rewrite <- app_assoc.
Qed.

Lemma restoreSubscriptions_known_earlier (this : StatefulSubscriptions) (clientId : string)
    (client : ClientState) :
  clients this !! clientId = Some client ->
  restoreSubscriptions this clientId =
  JSON_stringify (JObj [("type", JStr "connection_init")]) ::
  List.map (fun subscription => JSON_stringify (start_message clientId subscription))
    (List.filter (fun subscription => negb (is_null (sub_lastValue subscription)))
       (tbl_values (subscriptions client))).
Proof.
  intros Hc. unfold restoreSubscriptions. rewrite Hc. apply fold_send.
Qed.

(** The earlier revision restores only the subscriptions that have a
    cursor: for a known client it sends the connection_init message,
    without payload, then one start message, with the client id as its id,
    for each tracked subscription whose cursor is not null, in map order.
    A subscription that was just registered is therefore not restored until
    a result has set its cursor: a call of [addSubscription], however it
    ends, leaves what a restoration sends to a known client as it was, and
    for a client the registry had not seen, whose state the call creates,
    a restoration then sends the connection_init message and nothing
    else. *)
Theorem restoreSubscriptions_skips_null_cursors :
  forall this clientId,
    (clients this !! clientId = None -> restoreSubscriptions this clientId = []) /\
    (forall client,
        clients this !! clientId = Some client ->
        restoreSubscriptions this clientId =
        JSON_stringify (JObj [("type", JStr "connection_init")]) ::
        List.map
          (fun subscription =>
             JSON_stringify
               (JObj [("id", JStr clientId); ("type", JStr "start");
                      ("payload",
                       JObj [("query", JStr (buildRecoveryQuery subscription))])]))
          (List.filter (fun subscription => negb (is_null (sub_lastValue subscription)))
             (tbl_values (subscriptions client)))) /\
    (forall client query this' console outcome,
        clients this !! clientId = Some client ->
        addSubscription this clientId query = (this', console, outcome) ->
        restoreSubscriptions this' clientId = restoreSubscriptions this clientId) /\
    (forall query this' console outcome,
        clients this !! clientId = None ->
        addSubscription this clientId query = (this', console, outcome) ->
        restoreSubscriptions this' clientId =
        [JSON_stringify (JObj [("type", JStr "connection_init")])]).
Proof.
  intros this clientId. repeat match goal with |- _ /\ _ => split end.
  - intros Hc. unfold restoreSubscriptions. now rewrite Hc.
  - intros client Hc. now apply restoreSubscriptions_known_earlier.
  - intros client query this' console outcome Hc Hadd.
    unfold addSubscription, obtain_client in Hadd.
    rewrite Hc in Hadd.
    destruct (extractSubscriptionQueryInfo query) as [[s|] console0];
      [|now injection Hadd as <- _].
    destruct (tbl_has (info_name s) (subscriptions client)) eqn:Hhas;
      [now injection Hadd as <- _|].
    destruct (match subscriptionsConfig this !! info_name s with
              | Some c => negb (includes (info_fields s) (cfg_key c))
              | None => false
              end); [now injection Hadd as <- _|].
    injection Hadd as <- _.
    assert (clients
              (with_clients this
                 (<[clientId :=
                      {| subscriptions :=
                           tbl_set (info_name s)
                             (newSubscription s (subscriptionsConfig this !! info_name s))
                             (subscriptions client) |}]> (clients this))) !! clientId =
            Some {| subscriptions :=
                      tbl_set (info_name s)
                        (newSubscription s (subscriptionsConfig this !! info_name s))
                        (subscriptions client) |}) as Hc'
      by (simpl; apply lookup_insert_eq).
    rewrite (restoreSubscriptions_known_earlier _ _ _ Hc'), (restoreSubscriptions_known_earlier
        _ _ _ Hc).
    simpl. rewrite tbl_set_absent by (now apply tbl_has_false).
    unfold tbl_values. rewrite List.map_app, List.filter_app. simpl.
    now rewrite app_nil_r.
  - intros query this' console outcome Hc Hadd.
    unfold addSubscription, obtain_client in Hadd. rewrite Hc in Hadd.
    assert (forall subs,
               List.filter (fun subscription : Subscription =>
                              negb (is_null (sub_lastValue subscription)))
                 (tbl_values subs) = [] ->
               restoreSubscriptions
                 (with_clients this
                    (<[clientId := {| subscriptions := subs |}]> (clients this))) clientId =
               [JSON_stringify (JObj [("type", JStr "connection_init")])]) as Hsent.
    { intros subs Hsubs.
      rewrite (restoreSubscriptions_known_earlier _ _ {| subscriptions := subs |})
        by (simpl; apply lookup_insert_eq).
      simpl. now rewrite Hsubs. }
    destruct (extractSubscriptionQueryInfo query) as [[s|] console0];
      [|injection Hadd as <- _ _; now apply Hsent].
    cbn [createClientState subscriptions tbl_has tbl_get] in Hadd.
    destruct (match
                 subscriptionsConfig
                   (with_clients this (<[clientId := createClientState]> (clients this)))
                 !! info_name s
               with
               | Some c => negb (includes (info_fields s) (cfg_key c))
               | None => false
               end); [injection Hadd as <- _ _; now apply Hsent|].
    injection Hadd as <- _ _. cbn [clients with_clients].
    rewrite insert_insert_eq. now apply Hsent.
Qed.

Lemma after_config_earlier (this : StatefulSubscriptions) (c : Call) :
  subscriptionsConfig (after this c) = subscriptionsConfig this.
Proof.
  destruct c as [clientId query|clientId result|clientId|clientId]; simpl; auto.
  - unfold addSubscription. destruct (obtain_client this clientId) as [client this0] eqn:E.
    apply obtain_client_spec_earlier in E as (_ & Hcfg & _).
    destruct (extractSubscriptionQueryInfo query) as [[s|] console]; auto.
    destruct (tbl_has _ _); auto.
    destruct (match subscriptionsConfig this0 !! info_name s with
              | Some c => negb (includes (info_fields s) (cfg_key c))
              | None => false
              end); auto.
  - unfold updateSubscriptionState. destruct (clients this !! clientId) as [client|]; auto.
    destruct (extractSubscriptionResultInfo result) as [[name|] data]; auto.
    destruct (tbl_get name (subscriptions client)); auto.
    destruct (subscriptionsConfig this !! name) as [config|]; auto.
    destruct (read_property data (cfg_key config)) as [kv|]; simpl; auto.
    destruct (negb (is_undefined kv)); auto.
  - unfold removeAllSubscriptions. destruct (clients this !! clientId); auto.
Qed.

Lemma registry_ok_insert_earlier (this : StatefulSubscriptions) (clientId : string)
    (client : ClientState) :
  registry_ok this ->
  (forall name subscription,
      tbl_get name (subscriptions client) = Some subscription ->
      entry_ok (subscriptionsConfig this) name subscription) ->
  registry_ok (with_clients this (<[clientId := client]> (clients this))).
Proof.
  intros Hok Hclient other c name sub. simpl.
  destruct (String.eqb clientId other) eqn:E.
  - apply String.eqb_eq in E. subst. rewrite lookup_insert_eq. intros [= <-]. apply Hclient.
  - apply String.eqb_neq in E. rewrite lookup_insert_ne by exact E. apply Hok.
Qed.

Lemma registry_ok_after_earlier (this : StatefulSubscriptions) (c : Call) :
  registry_ok this -> registry_ok (after this c).
Proof.
  intros Hok.
  destruct c as [clientId query|clientId result|clientId|clientId]; simpl; auto.
  - unfold addSubscription, obtain_client.
    destruct (clients this !! clientId) as [client|] eqn:Hc.
    + destruct (extractSubscriptionQueryInfo query) as [[s|] console]; auto.
      destruct (tbl_has _ _); auto.
      destruct (subscriptionsConfig this !! info_name s) as [config|] eqn:Hcfg.
      * destruct (negb (includes (info_fields s) (cfg_key config))); auto.
        apply registry_ok_insert_earlier; auto. simpl. intros name sub.
        destruct (String.eqb (info_name s) name) eqn:E.
        -- apply String.eqb_eq in E. subst name. rewrite tbl_get_set_eq. intros [= <-].
           split; auto. congruence.
        -- apply String.eqb_neq in E. rewrite tbl_get_set_ne by exact E. now apply (Hok _ _ _ _ Hc).
      * apply registry_ok_insert_earlier; auto. simpl. intros name sub.
        destruct (String.eqb (info_name s) name) eqn:E.
        -- apply String.eqb_eq in E. subst name. rewrite tbl_get_set_eq. intros [= <-].
           split; auto.
        -- apply String.eqb_neq in E. rewrite tbl_get_set_ne by exact E. now apply (Hok _ _ _ _ Hc).
    + assert (registry_ok
                (with_clients this (<[clientId := createClientState]> (clients this))))
        as Hok0.
      { apply registry_ok_insert_earlier; auto. simpl. discriminate. }
      destruct (extractSubscriptionQueryInfo query) as [[s|] console]; auto.
      simpl.
      destruct (subscriptionsConfig this !! info_name s) as [config|] eqn:Hcfg.
      * destruct (negb (includes (info_fields s) (cfg_key config))); auto.
        apply registry_ok_insert_earlier; auto. unfold createClientState. cbn [subscriptions].
        intros name sub.
        match goal with
        | |- tbl_get _ [(?k, ?v)] = _ -> _ =>
            change [(k, v)] with (tbl_set k v (@nil (string * Subscription)))
        end.
        destruct (String.eqb (info_name s) name) eqn:E.
        -- apply String.eqb_eq in E. subst name. rewrite tbl_get_set_eq. intros [= <-].
           split; auto. simpl. congruence.
        -- apply String.eqb_neq in E. rewrite tbl_get_set_ne by exact E. discriminate.
      * apply registry_ok_insert_earlier; auto. unfold createClientState. cbn [subscriptions].
        intros name sub.
        match goal with
        | |- tbl_get _ [(?k, ?v)] = _ -> _ =>
            change [(k, v)] with (tbl_set k v (@nil (string * Subscription)))
        end.
        destruct (String.eqb (info_name s) name) eqn:E.
        -- apply String.eqb_eq in E. subst name. rewrite tbl_get_set_eq. intros [= <-].
           split; auto.
        -- apply String.eqb_neq in E. rewrite tbl_get_set_ne by exact E. discriminate.
  - unfold updateSubscriptionState. destruct (clients this !! clientId) as [client|] eqn:Hc; auto.
    destruct (extractSubscriptionResultInfo result) as [[name|] data]; auto.
    destruct (tbl_get name (subscriptions client)) as [sub|] eqn:Hsub; auto.
    destruct (subscriptionsConfig this !! name) as [config|] eqn:Hcfg; auto.
    destruct (read_property data (cfg_key config)) as [kv|]; simpl; auto.
    destruct (negb (is_undefined kv)); auto.
    apply registry_ok_insert_earlier; auto. simpl. intros name' sub'.
    destruct (String.eqb name name') eqn:E.
    + apply String.eqb_eq in E. subst name'. rewrite tbl_get_set_eq. intros [= <-].
      split; [apply (Hok _ _ _ _ Hc Hsub)|]. simpl. congruence.
    + apply String.eqb_neq in E. rewrite tbl_get_set_ne by exact E. now apply (Hok _ _ _ _ Hc).
  - unfold removeAllSubscriptions. destruct (clients this !! clientId) as [client|]; auto.
    apply registry_ok_insert_earlier; auto. simpl. discriminate.
Qed.

(** In the earlier revision a subscription without descriptor is tracked
    but can never be restored: through any history of calls from the
    constructor it keeps the empty key and the null cursor, since results
    are applied only under a descriptor; so when it is the client's only
    subscription a restoration sends the connection_init message and
    nothing else. *)
Theorem unconfigured_subscription_is_never_restored :
  forall options calls clientId client name subscription,
    clients (after_all (new_StatefulSubscriptions options) calls) !! clientId =
      Some client ->
    tbl_get name (subscriptions client) = Some subscription ->
    subscriptionsConfig (new_StatefulSubscriptions options) !! name = None ->
    sub_name subscription = name /\
    opt_key (sub_options subscription) = "" /\
    sub_lastValue subscription = JNull /\
    (tbl_values (subscriptions client) = [subscription] ->
     restoreSubscriptions (after_all (new_StatefulSubscriptions options) calls) clientId =
     [JSON_stringify (JObj [("type", JStr "connection_init")])]).
Proof.
  intros options calls clientId client name subscription Hc Hsub Hnone.
  assert (forall cs this,
             registry_ok this ->
             registry_ok (after_all this cs) /\
             subscriptionsConfig (after_all this cs) = subscriptionsConfig this) as Hall.
  { induction cs as [|c cs IH]; intros this H; [split; auto|].
    destruct (IH (after this c) (registry_ok_after_earlier _ _ H)) as [Hok Hcfg].
    unfold after_all in *. simpl. split; auto. rewrite Hcfg. apply after_config_earlier. }
  destruct (Hall calls (new_StatefulSubscriptions options)) as [Hok Hcfg].
  { intros c cl n sub. simpl. rewrite lookup_empty. discriminate. }
  destruct (Hok _ _ _ _ Hc Hsub) as [Hname Hun].
  rewrite Hcfg in Hun. destruct (Hun Hnone) as [Hkey Hcursor].
  repeat split; auto.
  intros Hvalues.
  rewrite (restoreSubscriptions_known_earlier _ _ _ Hc), Hvalues. simpl.
  now rewrite Hcursor.
Qed.

End Revision.

End Earlier.

(** ** Runs of the earlier revision *)

(** One descriptor of the earlier revision: [onItems] with key [offset],
    recovered through [onItemsFrom(from: ...)]. *)
Definition demo_earlier_options : list Earlier.SubscriptionOptions :=
  [{| Earlier.opt_name := "onItems"; Earlier.opt_key := "offset";
      Earlier.opt_recovery :=
        {| Earlier.rec_key := "from"; Earlier.rec_subscription := "onItemsFrom" |} |}].

Definition demo_earlier_after_all :=
  Earlier.after_all Z demo_parseInt demo_parseInt demo_parse demo_stackDepth demo_builtin_get
      demo_builtin_set demo_string_entries.

(** [onItems] and the unconfigured [onUsers] are registered, then a result
    of each is observed. *)
Definition demo_earlier_calls : list (Earlier.Call Z) :=
  [Earlier.CallAddSubscription Z "client" "subscription { onItems { id offset data } }";
   Earlier.CallAddSubscription Z "client" "subscription { onUsers { id } }";
   Earlier.CallUpdateSubscriptionState Z "client"
     [("onItems", JObj Z [("id", JStr Z "x"); ("offset", JNum Z 42%Z)])];
   Earlier.CallUpdateSubscriptionState Z "client"
     [("onUsers", JObj Z [("id", JStr Z "u")])]].

Definition demo_earlier_state : Earlier.StatefulSubscriptions Z :=
  demo_earlier_after_all (Earlier.new_StatefulSubscriptions Z demo_earlier_options)
    demo_earlier_calls.

Definition demo_earlier_users : Earlier.Subscription Z :=
  {| Earlier.sub_options :=
       {| Earlier.opt_name := "onUsers"; Earlier.opt_key := EmptyString;
          Earlier.opt_recovery :=
            {| Earlier.rec_key := EmptyString;
               Earlier.rec_subscription := EmptyString |} |};
     Earlier.sub_name := "onUsers";
     Earlier.sub_fields := ["id"];
     Earlier.sub_params := None;
     Earlier.sub_lastValue := JNull Z |}.

Lemma parse_errors_are_swallowed_witness :
  exists this',
    Earlier.addSubscription Z demo_parseInt demo_parseInt demo_parse demo_stackDepth
        demo_builtin_set demo_string_entries
      demo_earlier_state "client" "subscription {" =
    (this', [GraphQLError], Earlier.Returned) /\
    Earlier.tracked Z this' "client" "onItems" =
    Earlier.tracked Z demo_earlier_state "client" "onItems".
Proof.
  destruct (Earlier.parse_errors_are_swallowed Z demo_parseInt demo_parseInt demo_parse
      demo_stackDepth demo_builtin_set demo_string_entries demo_earlier_state "client"
      "subscription {" eq_refl)
    as (_ & this' & Hadd & Htracked & _).
  exists this'. split; [exact Hadd|apply Htracked].
Defined.

Lemma addSubscription_requires_the_key_witness :
  snd (Earlier.addSubscription Z demo_parseInt demo_parseInt demo_parse demo_stackDepth
      demo_builtin_set demo_string_entries
         (Earlier.new_StatefulSubscriptions Z demo_earlier_options) "client"
         "subscription { onItems { id } }") =
  Earlier.Threw "Subscription onItems is missing required key field: offset".
Proof.
  destruct (Earlier.addSubscription_requires_the_key Z demo_parseInt demo_parseInt demo_parse
      demo_stackDepth demo_builtin_set demo_string_entries
              (Earlier.new_StatefulSubscriptions Z demo_earlier_options) "client"
              "subscription { onItems { id } }"
              {| Earlier.info_name := "onItems"; Earlier.info_fields := ["id"];
                 Earlier.info_params := None |} [] eq_refl eq_refl)
    as (Hthrows & _ & _).
  destruct (Hthrows {| Earlier.cfg_key := "offset";
                       Earlier.cfg_recovery :=
                         {| Earlier.rec_key := "from";
                            Earlier.rec_subscription := "onItemsFrom" |} |}
              eq_refl eq_refl) as (this' & Hadd & _).
  rewrite Hadd. reflexivity.
Defined.

Lemma restoreSubscriptions_skips_null_cursors_witness :
  Earlier.restoreSubscriptions Z demo_JSON_stringify demo_earlier_state "client" =
  [demo_JSON_stringify (JObj Z [("type", JStr Z "connection_init")]);
   demo_JSON_stringify
     (JObj Z [("id", JStr Z "client"); ("type", JStr Z "start");
              ("payload",
               JObj Z [("query",
                        JStr Z "subscription { onItemsFrom(from: 42) { id, offset, data } }")])])]
  /\
  Earlier.restoreSubscriptions Z demo_JSON_stringify demo_earlier_state "other" = [] /\
  Earlier.restoreSubscriptions Z demo_JSON_stringify
    (demo_earlier_after_all demo_earlier_state
       [Earlier.CallAddSubscription Z "other" "subscription { onItems { id offset data } }"])
    "other" =
  [demo_JSON_stringify (JObj Z [("type", JStr Z "connection_init")])].
Proof.
  destruct (Earlier.restoreSubscriptions_skips_null_cursors Z demo_parseInt demo_parseInt
              demo_parse demo_stackDepth demo_JSON_stringify demo_builtin_set
              demo_string_entries demo_earlier_state "client")
    as (_ & Hknown & _).
  destruct (Earlier.restoreSubscriptions_skips_null_cursors Z demo_parseInt demo_parseInt
              demo_parse demo_stackDepth demo_JSON_stringify demo_builtin_set
              demo_string_entries demo_earlier_state "other")
    as (Hunknown & _ & _ & Hfirst).
  split; [|split].
  - destruct (Earlier.clients Z demo_earlier_state !! "client") as [client|] eqn:Hclient;
      [|vm_compute in Hclient; discriminate].
    rewrite (Hknown client eq_refl).
    vm_compute in Hclient. injection Hclient as <-. vm_compute. reflexivity.
  - apply Hunknown. reflexivity.
  - apply (Hfirst "subscription { onItems { id offset data } }" _ [] Earlier.Returned);
      reflexivity.
Defined.

Lemma unconfigured_subscription_is_never_restored_witness :
  Earlier.sub_lastValue Z demo_earlier_users = JNull Z /\
  Earlier.restoreSubscriptions Z demo_JSON_stringify
    (demo_earlier_after_all (Earlier.new_StatefulSubscriptions Z demo_earlier_options)
       [Earlier.CallAddSubscription Z "other" "subscription { onUsers { id } }";
        Earlier.CallUpdateSubscriptionState Z "other"
          [("onUsers", JObj Z [("id", JStr Z "u")])]]) "other" =
  [demo_JSON_stringify (JObj Z [("type", JStr Z "connection_init")])].
Proof.
  destruct (Earlier.unconfigured_subscription_is_never_restored Z demo_parseInt demo_parseInt
      demo_parse demo_stackDepth demo_JSON_stringify demo_builtin_get demo_builtin_set
      demo_string_entries
              demo_earlier_options
              [Earlier.CallAddSubscription Z "other" "subscription { onUsers { id } }";
               Earlier.CallUpdateSubscriptionState Z "other"
                 [("onUsers", JObj Z [("id", JStr Z "u")])]]
              "other" {| Earlier.subscriptions := [("onUsers", demo_earlier_users)] |}
              "onUsers" demo_earlier_users eq_refl eq_refl eq_refl)
    as (_ & _ & Hcursor & Hrestore).
  split; [exact Hcursor|exact (Hrestore eq_refl)].
Defined.
